(** * Projecteur: device scanner, connection manager and event demultiplexer

    A shallow embedding of [src/spotlight.h] and [src/spotlight.cc].
    [spotlight.cc] holds two revisions of the file one after the other; the
    embedding follows the first one, which fits [spotlight.h] (it defines
    [connectSubDevices], [ConnectEventSubDevices],
    [ConnectHidrawSubDevices] and [removeSubDeviceConnection]; the second
    one uses hidapi and has [connectEventSubDevices], [openHID] and
    [removeEventSubDeviceConnection] instead).

    - The sysfs tree, the device nodes and the kernel calls are inputs:
      a [DeviceTree] fixture for [scanForDevices], an [OS] record of
      system-call results for the open functions, a list of [read_result]
      for the reads the event handler performs.
    - Code that is called but not part of the sources is taken as a
      parameter: the generated extra-device table and Qt's text-to-number
      conversion in the class [Externals], the implementation of
      [InputMapper] in the class [InputMapperModel].
    - Qt signals, log calls and calls into the virtual device are
      recorded, in order, in the [trace] field of the [Spotlight] state.
    - [std::shared_ptr] targets live in explicit stores ([conns],
      [mappers]) so that aliasing between a [SubDevice] in [m_device] and
      the copy captured by a notifier callback is kept. The stores only
      grow. A connection is owned by the sub-device that holds it and by
      the callback that has captured it, if there is one; where a
      sub-device gives its connection up (an assignment to [connection], an
      [erase], the destruction of the [Device]) and no callback holds it,
      the connection is destroyed with its notifier, whose [destroyed] slot
      closes the descriptor: the trace gets the [::close]. The destroyed
      object stays in the store, where nothing refers to it any more.
    - Integers are [Z]; the 16-bit counters of [ScanResult] wrap modulo
      65536, the other integers of the sources stay far from their bounds.

    Layout: data model, scanner, connection manager and event handler,
    the frame discipline in the words of the specification, the reactor's
    step relation, an example device; then the proofs. *)

From stdpp Require Import base numbers list strings relations.
From Stdlib Require Import Ascii String Lia.
From Stdlib Require OrdersEx.

(** [length] is the length of a list; a string's is [String.length]. *)
Abbreviation length := List.length.

Local Open Scope Z_scope.

(* ================================================================== *)
(** ** linux/input.h constants used by the sources *)

Definition EV_SYN : Z := 0.
Definition EV_REL : Z := 2.
Definition EV_REP : Z := 20.
Definition REL_X : Z := 0.
Definition REL_Y : Z := 1.
Definition BUS_USB : Z := 3.
Definition BUS_BLUETOOTH : Z := 5.
Definition EAGAIN : Z := 11.

(** [struct input_event]: a timestamp and the (type, code, value) triple. *)
Record input_event := mk_input_event {
  ie_time : Z * Z;
  ie_type : Z;
  ie_code : Z;
  ie_value : Z
}.

(* ================================================================== *)
(** ** spotlight.h: data model *)

(** [enum class DeviceFlag : uint32_t], combined with bitwise or. *)
Definition NoFlags : Z := 0.
Definition NonBlocking : Z := Z.shiftl 1 0.
Definition SynEvents : Z := Z.shiftl 1 1.
Definition RepEvents : Z := Z.shiftl 1 2.
Definition RelativeEvents : Z := Z.shiftl 1 3.

(** [InputBuffer<Size, T>]: a [std::array] and a write position. *)
Record InputBuffer := mk_InputBuffer {
  data_ : list input_event;
  pos_ : nat
}.

Definition InputBuffer_Size : nat := 12.

Record SupportedDevice := mk_SupportedDevice {
  sup_vendorId : Z;
  sup_productId : Z;
  isBluetooth : bool;
  sup_name : string
}.

Inductive ConnectionMode := ReadOnly | WriteOnly | ReadWrite.

(** [QSocketNotifier]: the descriptor it watches and its enabled flag. *)
Record QSocketNotifier := mk_QSocketNotifier {
  socket : Z;
  isEnabled : bool
}.

(** [SubDeviceConnection]. [mode] is [None] while it is not initialised
    (the default constructor leaves it so); [im] is a handle into the store
    of input mappers, [None] for a null [shared_ptr]; [notifier] is [None]
    for a null [unique_ptr]. *)
Record SubDeviceConnection := mk_SubDeviceConnection {
  mode : option ConnectionMode;
  fd : Z;
  grabbed : bool;
  inputBuffer : InputBuffer;
  im : option nat;
  notifier : option QSocketNotifier
}.

Inductive SubDeviceType := Event | Hidraw.

(** [SubDevice]. [connection] is a handle into the store of connections. *)
Record SubDevice := mk_SubDevice {
  DeviceFile : string;
  sd_phys : string;
  type : SubDeviceType;
  deviceFlags : Z;
  connection : option nat;
  hasRelativeEvents : bool;
  DeviceReadable : bool;
  DeviceWritable : bool
}.

Record DeviceId := mk_DeviceId {
  vendorId : Z;
  productId : Z;
  phys : string
}.

(** [DeviceId::operator==]: equality of the three members. *)
Definition DeviceId_eqb (a b : DeviceId) : bool :=
  (vendorId a =? vendorId b) && (productId a =? productId b)
  && String.eqb (phys a) (phys b).

#[global] Instance DeviceId_eq_dec : EqDecision DeviceId.
Proof. solve_decision. Defined.

Inductive BusType := Unknown | Usb | Bluetooth.

Record Device := mk_Device {
  name : string;
  userName : string;
  id : DeviceId;
  busType : BusType;
  subDevices : list SubDevice;
  eventIM : option nat;
  hidrwNode : Z
}.

Record ScanResult := mk_ScanResult {
  devices : list Device;
  numDevicesReadable : Z;
  numDevicesWritable : Z;
  errorMessages : list string
}.

(* ================================================================== *)
(** ** Code outside the sources, taken as parameters *)

Class Externals := {
  (** generated source: the compiled-in extra device table *)
  isExtraDeviceSupported : Z → Z → bool;
  getExtraDeviceName : Z → Z → string;
  (** Qt: [trimmed()], [toUShort(nullptr, 16)], [toULongLong(nullptr, 16)] *)
  trimmed : string → string;
  toUShort16 : string → Z;
  toULongLong16 : string → Z;
  (** the value held by [Device::hidrwNode], an [int] member without an
      initialiser, in a default-constructed [Device] *)
  uninitialised_hidrwNode : Z
}.

(** deviceinput.cc: the state of an [InputMapper] and the members the
    connection manager calls; the constructor receives whether a virtual
    device exists. *)
Class InputMapperModel := {
  InputMapper : Type;
  InputMapper_new : bool → InputMapper;
  recordingMode : InputMapper → bool;
  addEvents : InputMapper → list input_event → InputMapper;
  resetState : InputMapper → InputMapper
}.

(* ================================================================== *)
(** ** The sysfs fixture read by the scanner *)

(** A text file: [None] when [QFile::open] fails, else its lines. *)
Definition TextFile := option (list string).

(** One entry below an [input/inputN] directory ([dirIt]). *)
Record EventDir := mk_EventDir {
  ed_fileName : string;
  ed_uevent : TextFile
}.

(** One [input/inputN] directory ([inputIt]). The four attribute files hold
    one line of text. *)
Record InputDir := mk_InputDir {
  in_id_vendor : option string;
  in_id_product : option string;
  in_entries : list EventDir;
  in_phys : option string;
  in_capabilities_ev : option string;
  in_capabilities_rel : option string
}.

(** One entry below a [hidraw] directory ([hidrawIt]). *)
Record HidrawDir := mk_HidrawDir {
  hr_fileName : string;
  hr_uevent : TextFile
}.

(** One directory below [/sys/bus/hid/devices] ([hidIt]). *)
Record HidDir := mk_HidDir {
  hd_uevent_exists : bool;
  hd_uevent : TextFile;
  hd_input_exists : bool;
  hd_input_executable : bool;
  hd_input : list InputDir;
  hd_hidraw_exists : bool;
  hd_hidraw_executable : bool;
  hd_hidraw : list HidrawDir
}.

(** The device tree: the root directory, its entries in the order the
    directory iterator yields them, and the access bits of the device
    nodes under [/dev]. *)
Record DeviceTree := mk_DeviceTree {
  root_exists : bool;
  root_executable : bool;
  hid_dirs : list HidDir;
  node_readable : string → bool;
  node_writable : string → bool
}.

(* ================================================================== *)
(** ** Qt text helpers with a fixed meaning *)

(** [QString::mid(n)]: the text from position [n] on. *)
Definition mid (s : string) (n : nat) : string :=
  String.substring n (String.length s - n) s.

(** [QString::split(sep)] with the default behaviour of keeping empty
    parts: the result always has at least one element. *)
Fixpoint split (sep : ascii) (s : string) : list string :=
  match s with
  | EmptyString => [EmptyString]
  | String c rest =>
      if Ascii.eqb c sep then EmptyString :: split sep rest
      else match split sep rest with
           | part :: parts => String c part :: parts
           | [] => [String c EmptyString]
           end
  end.

(** [QDir(dir).filePath(fileName)]: an absolute [fileName] is returned
    as it is. *)
Definition filePath (dir fileName : string) : string :=
  if String.prefix "/" fileName then fileName
  else dir +:+ "/" +:+ fileName.

(** The test both property readers apply to a line:
    [line.startsWith(property) && line.size() > property.size()
     && line[property.size()] == '=']; on success the value is
    [line.mid(property.size() + 1)]. *)
Definition property_value (line property : string) : option string :=
  if String.prefix property line
     && (String.length property <? String.length line)%nat
     && bool_decide (String.get (String.length property) line = Some "="%char)
  then Some (mid line (String.length property + 1))
  else None.

Section Scanner.
Context `{Externals}.

(** [supportedDefaultDevices]. *)
Definition supportedDefaultDevices : list SupportedDevice :=
  [ mk_SupportedDevice 0x46d 0xc53e false "Logitech Spotlight (USB)";
    mk_SupportedDevice 0x46d 0xb503 true "Logitech Spotlight (Bluetooth)" ].

(** The predicate of the three [std::find_if] calls over a device list. *)
Definition matches_ids (vid pid : Z) (d : SupportedDevice) : bool :=
  (vid =? sup_vendorId d) && (pid =? sup_productId d).

Definition isDeviceSupported (vid pid : Z) : bool :=
  existsb (matches_ids vid pid) supportedDefaultDevices
  || isExtraDeviceSupported vid pid.

Definition isAdditionallySupported (vid pid : Z)
    (devs : list SupportedDevice) : bool :=
  existsb (matches_ids vid pid) devs.

(** The name of the first entry of [devs] with these ids, when that
    entry exists and its name is not empty
    ([it != end && it->name.size()]). *)
Definition found_name (vid pid : Z) (devs : list SupportedDevice)
    : option string :=
  match List.find (matches_ids vid pid) devs with
  | Some d => if (0 <? String.length (sup_name d))%nat
              then Some (sup_name d) else None
  | None => None
  end.

Definition getUserDeviceName (vid pid : Z)
    (additionalDevices : list SupportedDevice) : string :=
  match found_name vid pid supportedDefaultDevices with
  | Some n => n
  | None =>
      let extraName := getExtraDeviceName vid pid in
      if (0 <? String.length extraName)%nat then extraName
      else match found_name vid pid additionalDevices with
           | Some n => n
           | None => EmptyString
           end
  end.

Definition readUShortFromDeviceFile (f : option string) : Z :=
  match f with
  | Some contents => toUShort16 (trimmed contents)
  | None => 0
  end.

Definition readULongLongFromDeviceFile (f : option string) : Z :=
  match f with
  | Some contents => toULongLong16 (trimmed contents)
  | None => 0
  end.

Definition readStringFromDeviceFile (f : option string) : string :=
  match f with
  | Some contents => trimmed contents
  | None => EmptyString
  end.

(** The loop of [readPropertyFromDeviceFile] over the lines. *)
Fixpoint first_property (lines : list string) (property : string) : string :=
  match lines with
  | [] => EmptyString
  | line :: rest =>
      match property_value line property with
      | Some v => v
      | None => first_property rest property
      end
  end.

Definition readPropertyFromDeviceFile (f : TextFile) (property : string)
    : string :=
  match f with
  | Some lines => first_property lines property
  | None => EmptyString
  end.

(** [DeviceId()] and a default-constructed [Device]. *)
Definition default_DeviceId : DeviceId := mk_DeviceId 0 0 EmptyString.

Definition default_Device : Device :=
  mk_Device EmptyString EmptyString default_DeviceId Unknown [] None
            uninitialised_hidrwNode.

Definition set_id (d : Device) (i : DeviceId) : Device :=
  mk_Device (name d) (userName d) i (busType d) (subDevices d)
            (eventIM d) (hidrwNode d).

Definition set_name (d : Device) (n : string) : Device :=
  mk_Device n (userName d) (id d) (busType d) (subDevices d)
            (eventIM d) (hidrwNode d).

Definition set_userName (d : Device) (n : string) : Device :=
  mk_Device (name d) n (id d) (busType d) (subDevices d)
            (eventIM d) (hidrwNode d).

Definition set_busType (d : Device) (b : BusType) : Device :=
  mk_Device (name d) (userName d) (id d) b (subDevices d)
            (eventIM d) (hidrwNode d).

Definition set_subDevices (d : Device) (l : list SubDevice) : Device :=
  mk_Device (name d) (userName d) (id d) (busType d) l
            (eventIM d) (hidrwNode d).

Definition set_eventIM (d : Device) (m : option nat) : Device :=
  mk_Device (name d) (userName d) (id d) (busType d) (subDevices d)
            m (hidrwNode d).

Definition set_hidrwNode (d : Device) (n : Z) : Device :=
  mk_Device (name d) (userName d) (id d) (busType d) (subDevices d)
            (eventIM d) n.

(** The body of the [for (property : properties)] loop of
    [deviceFromUEventFile] for one property, applied to one line. *)
Definition apply_property (line : string) (d : Device) (property : string)
    : Device :=
  match property_value line property with
  | None => d
  | Some value =>
      if String.eqb property "HID_ID" then
        let ids := split ":" value in
        let bus := match ids with
                   | b :: _ => toUShort16 b
                   | [] => 0
                   end in
        let d1 := if bus =? BUS_USB then set_busType d Usb
                  else if bus =? BUS_BLUETOOTH then set_busType d Bluetooth
                  else d in
        let vid := match ids with
                   | _ :: v :: _ => toUShort16 v
                   | _ => 0
                   end in
        let pid := match ids with
                   | _ :: _ :: p :: _ => toUShort16 p
                   | _ => 0
                   end in
        set_id d1 (mk_DeviceId vid pid (phys (id d1)))
      else if String.eqb property "HID_NAME" then set_name d value
      else if String.eqb property "HID_PHYS" then
        set_id d (mk_DeviceId (vendorId (id d)) (productId (id d))
                              (hd EmptyString (split "/" value)))
      else d
  end.

Definition uevent_properties : list string := ["HID_ID"; "HID_NAME"; "HID_PHYS"].

Definition deviceFromUEventFile (f : TextFile) : Device :=
  match f with
  | None => default_Device
  | Some lines =>
      fold_left (fun d line => fold_left (apply_property line) uevent_properties d)
                lines default_Device
  end.

(** [std::find_if] over a list, as the position of the first match. *)
Fixpoint find_if {A} (p : A → bool) (l : list A) : option nat :=
  match l with
  | [] => None
  | x :: rest => if p x then Some 0%nat else S <$> find_if p rest
  end.

Definition isEmpty (s : string) : bool := (String.length s =? 0)%nat.

(** The [dirIt] loop: the device node of the first [event*] entry whose
    [uevent] names one, else the empty string. *)
Fixpoint event_DeviceFile (entries : list EventDir) : string :=
  match entries with
  | [] => EmptyString
  | e :: rest =>
      if negb (String.prefix "event" (ed_fileName e)) then event_DeviceFile rest
      else
        let f := readPropertyFromDeviceFile (ed_uevent e) "DEVNAME" in
        if negb (isEmpty f) then filePath "/dev" f
        else event_DeviceFile rest
  end.

Definition event_SubDevice (tree : DeviceTree) (e : InputDir) (file : string)
    : SubDevice :=
  let supportedEvents := readULongLongFromDeviceFile (in_capabilities_ev e) in
  let hasRelEv := negb (Z.land supportedEvents (Z.shiftl 1 EV_REL) =? 0) in
  let supportedRelEv := readULongLongFromDeviceFile (in_capabilities_rel e) in
  let hasRelXEvents := negb (Z.land supportedRelEv (Z.shiftl 1 REL_X) =? 0) in
  let hasRelYEvents := negb (Z.land supportedRelEv (Z.shiftl 1 REL_Y) =? 0) in
  mk_SubDevice file (readStringFromDeviceFile (in_phys e)) Event NoFlags None
               (hasRelEv && hasRelXEvents && hasRelYEvents)
               (node_readable tree file) (node_writable tree file).

(** The [inputIt] loop: the sub-devices pushed onto the root device. An
    id mismatch ends the loop ([break]); an entry without a device node is
    skipped ([continue]). *)
Fixpoint input_subDevices (tree : DeviceTree) (root : DeviceId)
    (entries : list InputDir) : list SubDevice :=
  match entries with
  | [] => []
  | e :: rest =>
      if negb (readUShortFromDeviceFile (in_id_vendor e) =? vendorId root)
         || negb (readUShortFromDeviceFile (in_id_product e) =? productId root)
      then []
      else
        let file := event_DeviceFile (in_entries e) in
        if isEmpty file then input_subDevices tree root rest
        else event_SubDevice tree e file :: input_subDevices tree root rest
  end.

(** The [hidrawIt] loop. *)
Fixpoint hidraw_subDevices (tree : DeviceTree) (entries : list HidrawDir)
    : list SubDevice :=
  match entries with
  | [] => []
  | e :: rest =>
      if negb (String.prefix "hidraw" (hr_fileName e))
      then hidraw_subDevices tree rest
      else
        let f := readPropertyFromDeviceFile (hr_uevent e) "DEVNAME" in
        if negb (isEmpty f) then
          let file := filePath "/dev" f in
          mk_SubDevice file EmptyString Hidraw NoFlags None false
                       (node_readable tree file) (node_writable tree file)
          :: hidraw_subDevices tree rest
        else hidraw_subDevices tree rest
  end.

(** The sub-devices one HID directory contributes to its root device. *)
Definition dir_subDevices (tree : DeviceTree) (dir : HidDir)
    (rootDevice : Device) : list SubDevice :=
  if hd_input_exists dir || hd_input_executable dir
  then input_subDevices tree (id rootDevice) (hd_input dir)
  else if hd_hidraw_exists dir || hd_hidraw_executable dir
  then hidraw_subDevices tree (hd_hidraw dir)
  else [].

Definition append_subDevices (l : list SubDevice) (d : Device) : Device :=
  set_subDevices d (subDevices d ++ l).

(** Whether the directory passes the three [continue] tests at the head
    of the [hidIt] loop body. *)
Definition dir_accepted (additionalDevices : list SupportedDevice)
    (dir : HidDir) : bool :=
  let deviceId := id (deviceFromUEventFile (hd_uevent dir)) in
  hd_uevent_exists dir
  && negb ((vendorId deviceId =? 0) || (productId deviceId =? 0))
  && negb (negb (isDeviceSupported (vendorId deviceId) (productId deviceId))
           && negb (isAdditionallySupported (vendorId deviceId)
                      (productId deviceId) additionalDevices)).

(** One iteration of the [hidIt] loop on [result.devices]. *)
Definition scan_dir (additionalDevices : list SupportedDevice)
    (tree : DeviceTree) (devs : list Device) (dir : HidDir) : list Device :=
  if negb (dir_accepted additionalDevices dir) then devs
  else
    let newDevice := deviceFromUEventFile (hd_uevent dir) in
    let find_it := find_if (fun existingDevice =>
                              DeviceId_eqb (id existingDevice) (id newDevice)) devs in
    let '(devs1, root) :=
      match find_it with
      | None =>
          ((devs ++ [set_userName newDevice
                       (getUserDeviceName (vendorId (id newDevice))
                          (productId (id newDevice)) additionalDevices)])%list,
           length devs)
      | Some i => (devs, i)
      end in
    alter (fun rootDevice =>
             append_subDevices (dir_subDevices tree dir rootDevice) rootDevice)
          root devs1.

Definition allReadable (dev : Device) : bool :=
  forallb (fun subDevice => isEmpty (DeviceFile subDevice)
                            || DeviceReadable subDevice) (subDevices dev).

Definition allWriteable (dev : Device) : bool :=
  forallb (fun subDevice => isEmpty (DeviceFile subDevice)
                            || DeviceWritable subDevice) (subDevices dev).

(** [quint16 += bool] over the devices. *)
Definition count_u16 (p : Device → bool) (devs : list Device) : Z :=
  fold_left (fun n dev => (n + (if p dev then 1 else 0)) `mod` 65536) devs 0.

Definition err_not_exist : string :=
  "HID device path '/sys/bus/hid/devices' does not exist.".

Definition err_cannot_list : string :=
  "HID device path '/sys/bus/hid/devices': Cannot list files.".

Definition scanForDevices (tree : DeviceTree)
    (additionalDevices : list SupportedDevice) : ScanResult :=
  if negb (root_exists tree) then mk_ScanResult [] 0 0 [err_not_exist]
  else if negb (root_executable tree) then mk_ScanResult [] 0 0 [err_cannot_list]
  else
    let devs := fold_left (scan_dir additionalDevices tree) (hid_dirs tree) [] in
    mk_ScanResult devs (count_u16 allReadable devs) (count_u16 allWriteable devs) [].

End Scanner.

(* ================================================================== *)
(** ** System calls made by the connection manager *)

(** Results of the system calls on device nodes. [sys_open] is the value
    [::open] returns (negative on failure); [sys_EVIOCGBIT_ev] is [None]
    when the [EVIOCGBIT(0, ...)] ioctl fails and the bitmask otherwise;
    [sys_EVIOCGBIT_rel] is the value left in [relEvents];
    [sys_EVIOCGRAB] is the result of [ioctl(fd, EVIOCGRAB, 1)];
    [sys_nonblock] tells whether [O_NONBLOCK] is set after the [fcntl]
    pair; [sys_write] is the value [::write] returns. *)
Record OS := mk_OS {
  sys_open : string → ConnectionMode → Z;
  sys_EVIOCGBIT_ev : Z → option Z;
  sys_EVIOCGBIT_rel : Z → Z;
  sys_EVIOCGRAB : Z → Z;
  sys_nonblock : Z → bool;
  sys_write : Z → list Z → Z
}.

(** What one [::read] of [sizeof(input_event)] bytes yields: a whole
    record, or anything else together with [errno]. *)
Inductive read_result :=
| read_ok (ev : input_event)
| read_fail (errno : Z).

Inductive LogLevel := LogDebug | LogInfo | LogWarning | LogError.

(** Observable actions, in program order: Qt signals of [Spotlight], log
    calls (by their message template), system calls with side effects,
    calls into the virtual device and into an input mapper (by its handle). *)
Inductive Effect :=
| deviceConnected (i : DeviceId) (n : string)
| deviceDisconnected (i : DeviceId) (n : string)
| subDeviceConnected (i : DeviceId) (n : string) (path : string)
| subDeviceDisconnected (i : DeviceId) (n : string) (path : string)
| anySpotlightDeviceConnectedChanged (connected : bool)
| spotActiveChanged (isActive : bool)
| log (lvl : LogLevel) (msg : string)
| call_open (path : string) (m : ConnectionMode) (result : Z)
| call_close (descriptor : Z)
| call_write (descriptor : Z) (bytes : list Z) (result : Z)
| call_emitEvents (events : list input_event)
| call_addEvents (mapper : nat) (events : list input_event)
| call_resetState (mapper : nat).

Section Manager.
Context `{Externals} `{InputMapperModel}.

(** The members of [Spotlight], the two [shared_ptr] stores, the
    callbacks connected to notifiers (connection handle and captured
    [SubDevice] copy), the queue of [QTimer::singleShot(0, ...)] calls
    (each removes the sub-device connection of the stored path) and the
    trace. A timer is modelled by its [isActive()] flag. *)
Record Spotlight := mk_Spotlight {
  m_additionalDevices : list SupportedDevice;
  m_activeTimer : bool;
  m_connectionTimer : bool;
  m_spotActive : bool;
  m_device : option Device;
  m_virtualDevice : bool;
  conns : list SubDeviceConnection;
  mappers : list InputMapper;
  activated : list (nat * SubDevice);
  pending : list string;
  trace : list Effect
}.

Definition set_m_activeTimer (st : Spotlight) (b : bool) : Spotlight :=
  mk_Spotlight (m_additionalDevices st) b (m_connectionTimer st)
    (m_spotActive st) (m_device st) (m_virtualDevice st) (conns st)
    (mappers st) (activated st) (pending st) (trace st).

Definition set_m_spotActive (st : Spotlight) (b : bool) : Spotlight :=
  mk_Spotlight (m_additionalDevices st) (m_activeTimer st) (m_connectionTimer st)
    b (m_device st) (m_virtualDevice st) (conns st)
    (mappers st) (activated st) (pending st) (trace st).

Definition set_m_device (st : Spotlight) (d : option Device) : Spotlight :=
  mk_Spotlight (m_additionalDevices st) (m_activeTimer st) (m_connectionTimer st)
    (m_spotActive st) d (m_virtualDevice st) (conns st)
    (mappers st) (activated st) (pending st) (trace st).

Definition set_conns (st : Spotlight) (c : list SubDeviceConnection) : Spotlight :=
  mk_Spotlight (m_additionalDevices st) (m_activeTimer st) (m_connectionTimer st)
    (m_spotActive st) (m_device st) (m_virtualDevice st) c
    (mappers st) (activated st) (pending st) (trace st).

Definition set_mappers (st : Spotlight) (m : list InputMapper) : Spotlight :=
  mk_Spotlight (m_additionalDevices st) (m_activeTimer st) (m_connectionTimer st)
    (m_spotActive st) (m_device st) (m_virtualDevice st) (conns st)
    m (activated st) (pending st) (trace st).

Definition set_activated (st : Spotlight) (a : list (nat * SubDevice)) : Spotlight :=
  mk_Spotlight (m_additionalDevices st) (m_activeTimer st) (m_connectionTimer st)
    (m_spotActive st) (m_device st) (m_virtualDevice st) (conns st)
    (mappers st) a (pending st) (trace st).

Definition set_pending (st : Spotlight) (p : list string) : Spotlight :=
  mk_Spotlight (m_additionalDevices st) (m_activeTimer st) (m_connectionTimer st)
    (m_spotActive st) (m_device st) (m_virtualDevice st) (conns st)
    (mappers st) (activated st) p (trace st).

(** Appends one effect to the trace. *)
Definition emit (st : Spotlight) (e : Effect) : Spotlight :=
  mk_Spotlight (m_additionalDevices st) (m_activeTimer st) (m_connectionTimer st)
    (m_spotActive st) (m_device st) (m_virtualDevice st) (conns st)
    (mappers st) (activated st) (pending st) (trace st ++ [e]).

(** The state the constructor leaves before its first [connectDevice()]. *)
Definition initial_Spotlight (additionalDevices : list SupportedDevice)
    (virtualDevice : bool) : Spotlight :=
  mk_Spotlight additionalDevices false false false None virtualDevice
               [] [] [] [] [].

Definition anySpotlightDeviceConnected (st : Spotlight) : bool :=
  match m_device st with
  | Some _ => true
  | None => false
  end.

Definition connectedDeviceId (st : Spotlight) : DeviceId :=
  match m_device st with
  | Some d => id d
  | None => default_DeviceId
  end.


(** A fresh [InputBuffer]: position 0. The array elements are not
    initialised in the source and are written before they are read; the
    model fills them with zero records. *)
Definition zero_event : input_event := mk_input_event (0, 0) 0 0 0.

Definition new_InputBuffer : InputBuffer :=
  mk_InputBuffer (replicate InputBuffer_Size zero_event) 0.

(** [SubDeviceConnection()] and [SubDeviceConnection(mode)]. *)
Definition default_SubDeviceConnection : SubDeviceConnection :=
  mk_SubDeviceConnection None 0 false new_InputBuffer None None.

Definition new_SubDeviceConnection (m : ConnectionMode) : SubDeviceConnection :=
  mk_SubDeviceConnection (Some m) 0 false new_InputBuffer None None.

(** [std::make_shared<SubDeviceConnection>]: the handle of the new object. *)
Definition alloc_conn (st : Spotlight) (c : SubDeviceConnection)
    : nat * Spotlight :=
  (length (conns st), set_conns st (conns st ++ [c])).

(** [std::make_shared<InputMapper>(m_virtualDevice)]. *)
Definition alloc_mapper (st : Spotlight) : nat * Spotlight :=
  (length (mappers st),
   set_mappers st (mappers st ++ [InputMapper_new (m_virtualDevice st)])).

Definition set_deviceFlags (sd : SubDevice) (f : Z) : SubDevice :=
  mk_SubDevice (DeviceFile sd) (sd_phys sd) (type sd) f (connection sd)
    (hasRelativeEvents sd) (DeviceReadable sd) (DeviceWritable sd).

Definition set_connection (sd : SubDevice) (c : option nat) : SubDevice :=
  mk_SubDevice (DeviceFile sd) (sd_phys sd) (type sd) (deviceFlags sd) c
    (hasRelativeEvents sd) (DeviceReadable sd) (DeviceWritable sd).

(** [subdev.deviceFlags |= flag] when [cond] holds. *)
Definition or_flag (cond : bool) (flag : Z) (sd : SubDevice) : SubDevice :=
  if cond then set_deviceFlags sd (Z.lor (deviceFlags sd) flag) else sd.

Definition bit_set (mask : Z) (bit : Z) : bool :=
  negb (Z.land mask (Z.shiftl 1 bit) =? 0).

(** [openHidrawSubDeviceConnection]: the sub-device (its flags may change),
    the handle of the returned connection and the new state. *)
Definition openHidrawSubDeviceConnection (os : OS) (subdev : SubDevice)
    (st : Spotlight) : SubDevice * nat * Spotlight :=
  let devicePath := DeviceFile subdev in
  let hrfd := sys_open os devicePath ReadWrite in
  let st := emit st (call_open devicePath ReadWrite hrfd) in
  if hrfd <? 0 then
    let st := emit st (log LogDebug "Opening input event device failed:") in
    let '(h, st) := alloc_conn st default_SubDeviceConnection in
    (subdev, h, st)
  else
    let subdev := or_flag (sys_nonblock os hrfd) NonBlocking subdev in
    let c := mk_SubDeviceConnection (Some ReadOnly) hrfd false new_InputBuffer
               None (Some (mk_QSocketNotifier hrfd true)) in
    let '(h, st) := alloc_conn st c in
    (subdev, h, st).

(** [openEventSubDeviceConnection]. *)
Definition openEventSubDeviceConnection (os : OS) (subdev : SubDevice)
    (st : Spotlight) : SubDevice * nat * Spotlight :=
  let devicePath := DeviceFile subdev in
  let evfd := sys_open os devicePath ReadOnly in
  let st := emit st (call_open devicePath ReadOnly evfd) in
  if evfd <? 0 then
    let st := emit st (log LogDebug "Opening input event device failed:") in
    let '(h, st) := alloc_conn st default_SubDeviceConnection in
    (subdev, h, st)
  else
    match sys_EVIOCGBIT_ev os evfd with
    | None =>
        let st := emit st (call_close evfd) in
        let st := emit st (log LogInfo "Cannot get device properties: %1 (%2:%3)") in
        let '(h, st) := alloc_conn st default_SubDeviceConnection in
        (subdev, h, st)
    | Some bitmask =>
        let '(is_grabbed, st) :=
          if m_virtualDevice st then
            let res := sys_EVIOCGRAB os evfd in
            if res =? 0 then (true, st)
            else (false,
                  emit st (log LogError "Error grabbing device: %1 (return value: %2)"))
          else (false, st) in
        let subdev := or_flag (bit_set bitmask EV_SYN) SynEvents subdev in
        let subdev := or_flag (bit_set bitmask EV_REP) RepEvents subdev in
        let subdev :=
          if bit_set bitmask EV_REL then
            let relEvents := sys_EVIOCGBIT_rel os evfd in
            or_flag (bit_set relEvents REL_X && bit_set relEvents REL_Y)
                    RelativeEvents subdev
          else subdev in
        let subdev := or_flag (sys_nonblock os evfd) NonBlocking subdev in
        let c := mk_SubDeviceConnection (Some ReadOnly) evfd is_grabbed
                   new_InputBuffer None (Some (mk_QSocketNotifier evfd true)) in
        let '(h, st) := alloc_conn st c in
        (subdev, h, st)
    end.

(** [connection && connection->notifier && connection->notifier->isEnabled()]
    for a [shared_ptr] handle. *)
Definition notifier_enabled (st : Spotlight) (c : option nat) : bool :=
  match c with
  | None => false
  | Some h =>
      match conns st !! h with
      | Some conn =>
          match notifier conn with
          | Some n => isEnabled n
          | None => false
          end
      | None => false
      end
  end.

Definition is_Event (t : SubDeviceType) : bool :=
  match t with Event => true | Hidraw => false end.

Definition is_Hidraw (t : SubDeviceType) : bool :=
  match t with Hidraw => true | Event => false end.

(** Whether a callback holds the connection [h]: the lambda connected by
    [addInputEventHandler] captures the [shared_ptr] (and a copy of the
    sub-device, which holds it too), and no callback is ever disconnected. *)
Definition captured (st : Spotlight) (h : nat) : bool :=
  existsb (fun cb => (cb.1 =? h)%nat) (activated st).

(** A sub-device gives up the [shared_ptr] in its [connection] member.
    Unless a callback has captured the connection, this destroys it and
    with it its notifier, and the slot connected to the notifier's
    [destroyed] signal calls [::close] on the descriptor the notifier
    watches. (For a grabbed connection the slot first releases the grab
    with an [ioctl]; like the other [ioctl] calls it leaves no entry in the
    trace.) *)
Definition release_connection (c : option nat) (st : Spotlight) : Spotlight :=
  match c with
  | Some h =>
      if captured st h then st
      else match conns st !! h with
           | Some conn =>
               match notifier conn with
               | Some n => emit st (call_close (socket n))
               | None => st
               end
           | None => st
           end
  | None => st
  end.

(** The destruction of a [QList<SubDevice>]: Qt 5 destroys the nodes of a
    list from the last to the first. *)
Definition release_subDevices (subs : list SubDevice) (st : Spotlight)
    : Spotlight :=
  fold_right (fun subdev st => release_connection (connection subdev) st) st subs.

(** The [Device] [m_device] pointed to loses its only owner. *)
Definition release_device (d : option Device) (st : Spotlight) : Spotlight :=
  match d with
  | Some d => release_subDevices (subDevices d) st
  | None => st
  end.

(** [addInputEventHandler]: connects the callback, which captures the
    connection handle and a copy of the sub-device. *)
Definition addInputEventHandler (subdev : SubDevice) (st : Spotlight)
    : bool * Spotlight :=
  match connection subdev with
  | Some h =>
      if negb (is_Event (type subdev))
         || negb (notifier_enabled st (connection subdev))
      then (false, st)
      else (true, set_activated st (activated st ++ [(h, subdev)]))
  | None => (false, st)
  end.

(** [std::make_unique<Device>()]: a value-initialised [Device], in which
    the member without initialiser, [hidrwNode], is zero. *)
Definition value_initialised_Device : Device :=
  mk_Device EmptyString EmptyString default_DeviceId Unknown [] None 0.

(** [removeDeviceConnection]: [m_device] is assigned a value-initialised
    device, which destroys the device it pointed to. Nothing in the
    sources calls it. *)
Definition removeDeviceConnection (st : Spotlight) : Spotlight :=
  release_device (m_device st)
                 (set_m_device st (Some value_initialised_Device)).

(** [addInputHidrawHandler]: the connected callback does nothing. *)
Definition addInputHidrawHandler (subdev : SubDevice) (st : Spotlight)
    : bool * Spotlight :=
  match connection subdev with
  | Some h =>
      if negb (is_Hidraw (type subdev))
         || negb (notifier_enabled st (connection subdev))
      then (false, st)
      else (true, st)
  | None => (false, st)
  end.

Definition set_im (c : SubDeviceConnection) (m : option nat)
    : SubDeviceConnection :=
  mk_SubDeviceConnection (mode c) (fd c) (grabbed c) (inputBuffer c) m
                         (notifier c).

Definition msg_event_connected : string :=
  "Connected event sub-device: %1 (%2:%3) %4".
Definition msg_event_failed : string :=
  "Connection failed for event sub-device: %1 (%2:%3) %4".
Definition msg_hidraw_failed : string :=
  "Connection failed for hidraw sub-device: %1 (%2:%3) %4".

(** The test at the head of the loop body of [ConnectEventSubDevices]. *)
Definition event_candidate (subdev : SubDevice) : bool :=
  is_Event (type subdev) && DeviceReadable subdev
  && (0 <? String.length (DeviceFile subdev))%nat.

(** The body of the loop of [ConnectEventSubDevices] for one sub-device of
    the device [d]: the sub-device after the iteration, the new state and
    whether the counter was incremented. The assignment to
    [subdev.connection] gives up the connection held before, once the open
    function has returned. *)
Definition ConnectEventSubDevices_body (os : OS) (d : Device)
    (subdev : SubDevice) (st : Spotlight) : SubDevice * Spotlight * bool :=
  if event_candidate subdev
  then
    if notifier_enabled st (connection subdev) then (subdev, st, true)
    else
      let previous := connection subdev in
      let '(subdev, h, st) := openEventSubDeviceConnection os subdev st in
      let st := release_connection previous st in
      let subdev := set_connection subdev (Some h) in
      let st := set_conns st (alter (fun c => set_im c (eventIM d)) h (conns st)) in
      if notifier_enabled st (Some h) then
        let '(added, st) := addInputEventHandler subdev st in
        if added then
          let st := emit st (log LogDebug msg_event_connected) in
          (subdev,
           emit st (subDeviceConnected (id d) (name d) (DeviceFile subdev)),
           true)
        else (subdev, emit st (log LogError msg_event_failed), false)
      else (subdev, emit st (log LogError msg_event_failed), false)
  else (subdev, st, false).

Fixpoint ConnectEventSubDevices_loop (os : OS) (d : Device)
    (subs : list SubDevice) (st : Spotlight) (connectedEventSubDevices : Z)
    : list SubDevice * Spotlight * Z :=
  match subs with
  | [] => ([], st, connectedEventSubDevices)
  | subdev :: rest =>
      let '(subdev, st, counted) := ConnectEventSubDevices_body os d subdev st in
      let '(rest, st, n) :=
        ConnectEventSubDevices_loop os d rest st
          (if counted then connectedEventSubDevices + 1
           else connectedEventSubDevices) in
      (subdev :: rest, st, n)
  end.

(** [ConnectEventSubDevices]. The source dereferences [m_device]; its only
    caller has checked that it is set. *)
Definition ConnectEventSubDevices (os : OS) (st : Spotlight) : Z * Spotlight :=
  match m_device st with
  | None => (0, st)
  | Some d =>
      let '(subs, st, n) := ConnectEventSubDevices_loop os d (subDevices d) st 0 in
      (n, set_m_device st (Some (set_subDevices d subs)))
  end.

(** The loop of [ConnectHidrawSubDevices]: it stops at the first sub-device
    that connects ([break]) and then yields its descriptor. The assignment
    to [subdev.connection] gives up the connection held before, once the
    open function has returned; a hidraw connection has no other owner, so
    its descriptor is closed then. *)
Fixpoint ConnectHidrawSubDevices_loop (os : OS) (d : Device)
    (subs : list SubDevice) (st : Spotlight)
    : list SubDevice * Spotlight * Z * option Z :=
  match subs with
  | [] => ([], st, 0, None)
  | subdev :: rest =>
      let continue (subdev : SubDevice) (st : Spotlight) :=
        let '(rest, st, n, node) := ConnectHidrawSubDevices_loop os d rest st in
        (subdev :: rest, st, n, node) in
      if is_Hidraw (type subdev) && DeviceWritable subdev
         && DeviceReadable subdev
         && (0 <? String.length (DeviceFile subdev))%nat
      then
        let previous := connection subdev in
        let '(subdev, h, st) := openHidrawSubDeviceConnection os subdev st in
        let st := release_connection previous st in
        let subdev := set_connection subdev (Some h) in
        let descriptor := from_option fd 0 (conns st !! h) in
        if notifier_enabled st (Some h) && negb (descriptor =? 0) then
          let '(added, st) := addInputHidrawHandler subdev st in
          if added then (subdev :: rest, st, 1, Some descriptor)
          else continue subdev (emit st (log LogError msg_hidraw_failed))
        else continue subdev (emit st (log LogError msg_hidraw_failed))
      else continue subdev st
  end.

Definition ConnectHidrawSubDevices (os : OS) (st : Spotlight) : Z * Spotlight :=
  match m_device st with
  | None => (0, st)
  | Some d =>
      let '(subs, st, n, node) :=
        ConnectHidrawSubDevices_loop os d (subDevices d) st in
      let d := set_subDevices d subs in
      let d := match node with
               | Some descriptor => set_hidrwNode d descriptor
               | None => d
               end in
      (n, set_m_device st (Some d))
  end.

Definition connectSubDevices (os : OS) (st : Spotlight) : Z * Spotlight :=
  match m_device st with
  | None => (-1, st)
  | Some d =>
      if (length (subDevices d) =? 0)%nat then (-1, st)
      else
        let '(connectedEventSubDevice, st) := ConnectEventSubDevices os st in
        let '(connectedHidrawSubDevice, st) := ConnectHidrawSubDevices os st in
        (* Ensures that at least one Event and Hidraw SubDevice are opened *)
        if (0 <? connectedEventSubDevice) && (0 <? connectedHidrawSubDevice)
        then (connectedEventSubDevice + connectedHidrawSubDevice, st)
        else (0, st)
  end.

Definition msg_connected : string := "Connected device: %1 (%2:%3)".

(** The first part of [connectDevice(id)], up to the call of
    [connectSubDevices]: [None] when the scan finds no device; else the
    state in which [m_device] is chosen (the scanned device with the id
    asked for, else the device already set, else the first scanned device)
    and has a fresh input mapper. Assigning the copy of the scanned device
    to [m_device] destroys the device set before. *)
Definition select_device (tree : DeviceTree) (id_ : DeviceId)
    (st : Spotlight) : option Spotlight :=
  let scanResult := scanForDevices tree (m_additionalDevices st) in
  match devices scanResult with
  | [] => None
  | first :: _ =>
      let st :=
        if negb (vendorId id_ =? 0) && negb (productId id_ =? 0) then
          match List.find (fun dev => DeviceId_eqb (id dev) id_)
                          (devices scanResult) with
          | Some dev => release_device (m_device st) (set_m_device st (Some dev))
          | None => st
          end
        else st in
      let st := match m_device st with
                | None => set_m_device st (Some first)
                | Some _ => st
                end in
      let '(mapper, st) := alloc_mapper st in
      Some (set_m_device st
              ((fun d => set_eventIM d (Some mapper)) <$> m_device st))
  end.

(** [connectDevice(id)]: the returned [int] and the new state. *)
Definition connectDevice (tree : DeviceTree) (os : OS) (id_ : DeviceId)
    (st : Spotlight) : Z * Spotlight :=
  let anyConnectedBefore := anySpotlightDeviceConnected st in
  match select_device tree id_ st with
  | None => (-1, st)
  | Some st =>
      let '(n, st) := connectSubDevices os st in
      let st :=
        if 0 <? n then
          match m_device st with
          | Some d =>
              let st := emit st (log LogInfo msg_connected) in
              let st := emit st (deviceConnected (id d) (name d)) in
              if negb anyConnectedBefore
              then emit st (anySpotlightDeviceConnectedChanged true)
              else st
          | None => st
          end
        else st in
      (0, st)
  end.

(* ------------------------------------------------------------------ *)
(** *** InputBuffer members *)

(** [current()] is [data_.at(pos_)]: it throws when [pos_] is not below
    the size of the array; [None] stands for the exception. *)
Definition current (buf : InputBuffer) : option input_event :=
  data_ buf !! pos_ buf.

(** Storing the record read into the slot [current()] refers to. *)
Definition store_current (buf : InputBuffer) (ev : input_event) : InputBuffer :=
  mk_InputBuffer (<[pos_ buf := ev]> (data_ buf)) (pos_ buf).

(** [operator++]. *)
Definition advance (buf : InputBuffer) : InputBuffer :=
  mk_InputBuffer (data_ buf) (S (pos_ buf)).

(** [reset()]. *)
Definition reset (buf : InputBuffer) : InputBuffer :=
  mk_InputBuffer (data_ buf) 0.

(** [size()]. *)
Definition size (buf : InputBuffer) : nat := length (data_ buf).

(** The range [(buf.data(), buf.pos())] handed to [emitEvents] and
    [addEvents]. *)
Definition frame (buf : InputBuffer) : list input_event :=
  take (pos_ buf) (data_ buf).

Definition set_inputBuffer (c : SubDeviceConnection) (b : InputBuffer)
    : SubDeviceConnection :=
  mk_SubDeviceConnection (mode c) (fd c) (grabbed c) b (im c) (notifier c).

Definition set_notifier (c : SubDeviceConnection) (n : option QSocketNotifier)
    : SubDeviceConnection :=
  mk_SubDeviceConnection (mode c) (fd c) (grabbed c) (inputBuffer c) (im c) n.

(** [first_ev.type == EV_REL && (first_ev.code == REL_X || first_ev.code == REL_Y)]. *)
Definition isMouseMoveEvent (first_ev : input_event) : bool :=
  (ie_type first_ev =? EV_REL)
  && ((ie_code first_ev =? REL_X) || (ie_code first_ev =? REL_Y)).

Definition msg_discarded : string := "Discarded %1 input events without EV_SYN.".

(** What one pass through the body of the [while (true)] loop decides. *)
Inductive LoopControl := Continue | Break.

(** The part of the loop body that follows a failed read. *)
Definition on_read_failure (errno : Z) (h : nat) (dev : SubDevice)
    (st : Spotlight) : option Spotlight :=
  if negb (errno =? EAGAIN) then
    c ← conns st !! h;
    n ← notifier c;
    let c := set_notifier c (Some (mk_QSocketNotifier (socket n) false)) in
    let st := set_conns st (<[h := c]> (conns st)) in
    let st := if negb (anySpotlightDeviceConnected st)
              then emit st (anySpotlightDeviceConnectedChanged false)
              else st in
    Some (set_pending st (pending st ++ [DeviceFile dev]))
  else Some st.

(** The part of the loop body that follows a successful read of [ev] into
    the current slot of the connection [h]: [++buf] and the two branches. *)
Definition on_read_success (ev : input_event) (h : nat) (st : Spotlight)
    : option Spotlight :=
  c ← conns st !! h;
  let buf := advance (store_current (inputBuffer c) ev) in
  if ie_type ev =? EV_SYN then
    first_ev ← data_ buf !! 0%nat;
    m ← im c;
    mapper ← mappers st !! m;
    let st :=
      if isMouseMoveEvent first_ev then
        let st :=
          if negb (recordingMode mapper) then
            let st := if negb (m_activeTimer st)
                      then emit (set_m_spotActive st true) (spotActiveChanged true)
                      else st in
            set_m_activeTimer st true
          else st in
        if m_virtualDevice st then emit st (call_emitEvents (frame buf)) else st
      else
        let st := set_mappers st (<[m := addEvents mapper (frame buf)]> (mappers st)) in
        emit st (call_addEvents m (frame buf)) in
    Some (set_conns st (<[h := set_inputBuffer c (reset buf)]> (conns st)))
  else if (size buf <=? pos_ buf)%nat then
    m ← im c;
    mapper ← mappers st !! m;
    let st := emit st (log LogWarning msg_discarded) in
    let st := set_mappers st (<[m := resetState mapper]> (mappers st)) in
    let st := emit st (call_resetState m) in
    Some (set_conns st (<[h := set_inputBuffer c (reset buf)]> (conns st)))
  else
    Some (set_conns st (<[h := set_inputBuffer c buf]> (conns st))).

(** [onEventSubDeviceDataAvailable(fd, connection, dev)] for the connection
    with handle [h]. [reads] lists what the successive [::read] calls on
    the descriptor yield; when the list is used up there is nothing more to
    read and the [::read] fails with [EAGAIN]. (Without [O_NONBLOCK] the
    loop reads once per activation, and the notifier is activated only when
    there is something to read.) The result is [None] when the source
    throws (the [at()] of [current()]) or dereferences a null pointer;
    otherwise the new state and the reads not consumed. *)
Fixpoint onEventSubDeviceDataAvailable (reads : list read_result) (h : nat)
    (dev : SubDevice) (st : Spotlight)
    : option (Spotlight * list read_result) :=
  let isNonBlocking := negb (Z.land (deviceFlags dev) NonBlocking =? 0) in
  c ← conns st !! h;
  _ ← current (inputBuffer c);
  match reads with
  | [] => Some (st, [])
  | read_fail errno :: rest =>
      st ← on_read_failure errno h dev st;
      Some (st, rest)
  | read_ok ev :: rest =>
      st ← on_read_success ev h st;
      if negb isNonBlocking then Some (st, rest)
      else onEventSubDeviceDataAvailable rest h dev st
  end.

(** The timeout of [m_activeTimer], connected in the constructor. *)
Definition activeTimer_timeout (st : Spotlight) : Spotlight :=
  emit (set_m_spotActive (set_m_activeTimer st false) false)
       (spotActiveChanged false).

(** The reactor delivers [activated] of a notifier: the callback connected
    by [addInputEventHandler] runs when the notifier is still enabled. [k]
    selects the callback. *)
Definition deliver_activated (k : nat) (reads : list read_result)
    (st : Spotlight) : option (Spotlight * list read_result) :=
  match activated st !! k with
  | Some (h, dev) =>
      if notifier_enabled st (Some h)
      then onEventSubDeviceDataAvailable reads h dev st
      else Some (st, reads)
  | None => Some (st, reads)
  end.

(* ------------------------------------------------------------------ *)
(** *** removeSubDeviceConnection *)

(** The [while (it != m_device->subDevices.end())] loop, one iteration at
    a time. The loop state is the position of the iterator [it]; an
    iteration either ends the loop with the entry [erase] has destroyed,
    if any, and the new list ([inr]), or hands the iterator to the next
    iteration ([inl]). The body has no statement that moves [it] when the
    entry does not match. *)
Definition removeSubDeviceConnection_iteration (file : string)
    (subs : list SubDevice) (it : nat)
    : nat + (option SubDevice * list SubDevice) :=
  match subs !! it with
  | None => inr (None, subs)
  | Some entry =>
      if String.eqb (DeviceFile entry) file
      then inr (Some entry, delete it subs)
      else inl it
  end.

(** At most [fuel] iterations from the iterator position [it]; [None] when
    the loop is still running after them. *)
Fixpoint removeSubDeviceConnection_loop (fuel : nat) (file : string)
    (subs : list SubDevice) (it : nat)
    : option (option SubDevice * list SubDevice) :=
  match fuel with
  | O => None
  | S fuel' =>
      match removeSubDeviceConnection_iteration file subs it with
      | inr result => Some result
      | inl it' => removeSubDeviceConnection_loop fuel' file subs it'
      end
  end.

(** [removeSubDeviceConnection(DeviceFile)], with a bound on the number of
    loop iterations: [None] when the bound is reached. The erased entry
    gives up its connection. *)
Definition removeSubDeviceConnection (fuel : nat) (file : string)
    (st : Spotlight) : option Spotlight :=
  match m_device st with
  | None => Some st
  | Some d =>
      if (length (subDevices d) =? 0)%nat then Some st
      else
        '(erased, subs) ← removeSubDeviceConnection_loop fuel file (subDevices d) 0;
        Some (release_connection (erased ≫= connection)
                (set_m_device st (Some (set_subDevices d subs))))
  end.

(** The next reactor iteration runs the oldest [singleShot(0, ...)] call. *)
Definition run_pending (fuel : nat) (st : Spotlight) : option Spotlight :=
  match pending st with
  | [] => Some st
  | file :: rest => removeSubDeviceConnection fuel file (set_pending st rest)
  end.

(* ------------------------------------------------------------------ *)
(** *** vibrateDevice and sendDatatoDevice *)

Definition msg_write_failed : string := "Failed to write on the hidraw device.".

(** [sendDatatoDevice(data, data_len)]. *)
Definition sendDatatoDevice (os : OS) (data : list Z) (data_len : nat)
    (st : Spotlight) : Z * Spotlight :=
  match m_device st with
  | None => (-1, st)
  | Some d =>
      if negb (hidrwNode d =? 0) then
        let bytes := take data_len data in
        let res := sys_write os (hidrwNode d) bytes in
        let st := emit st (call_write (hidrwNode d) bytes res) in
        let st := if res <? 0 then emit st (log LogError msg_write_failed) else st in
        (res, st)
      else (-1, st)
  end.

(** The array [vibration_data] built by [vibrateDevice(strength)], after
    the assignment [strength = (strength < 64) ? 64 : strength]. *)
Definition vibration_data (strength : Z) : list Z :=
  let strength := if strength <? 64 then 64 else strength in
  [0x10; 0x01; 0x09; 0x11; 0x03; 0xe8; strength].

Definition vibrateDevice (os : OS) (strength : Z) (st : Spotlight)
    : Z * Spotlight :=
  sendDatatoDevice os (vibration_data strength) 7 st.

End Manager.

(* ================================================================== *)
(** ** The frame discipline as the specification words it *)

Module Spec.

(** A frame is a motion frame when its first record is a relative-motion
    record on the X or the Y axis. *)
Definition is_motion_frame (fr : list input_event) : bool :=
  match fr with
  | first_ev :: _ =>
      (ie_type first_ev =? EV_REL)
      && ((ie_code first_ev =? REL_X) || (ie_code first_ev =? REL_Y))
  | [] => false
  end.

(** The calls the demultiplexer owes for a stream of records [evs] read
    after the records [acc] that are buffered already: a record with the
    synchronization marker completes a frame, which goes to the virtual
    device (when there is one) if it is a motion frame and to the
    recorder [m] otherwise; when the buffer of [capacity] records fills up
    without a marker the recorder is reset and the records are dropped. *)
Fixpoint demux_calls (capacity : nat) (virtualDevice : bool) (m : nat)
    (acc evs : list input_event) : list Effect :=
  match evs with
  | [] => []
  | ev :: rest =>
      let fr := acc ++ [ev] in
      if ie_type ev =? EV_SYN then
        (if is_motion_frame fr
         then (if virtualDevice then [call_emitEvents fr] else [])
         else [call_addEvents m fr])
        ++ demux_calls capacity virtualDevice m [] rest
      else if (capacity <=? length fr)%nat then
        call_resetState m :: demux_calls capacity virtualDevice m [] rest
      else demux_calls capacity virtualDevice m fr rest
  end.

(** The records left in the buffer after the stream [evs]. *)
Fixpoint demux_rest (capacity : nat) (acc evs : list input_event)
    : list input_event :=
  match evs with
  | [] => acc
  | ev :: rest =>
      let fr := acc ++ [ev] in
      if ie_type ev =? EV_SYN then demux_rest capacity [] rest
      else if (capacity <=? length fr)%nat then demux_rest capacity [] rest
      else demux_rest capacity fr rest
  end.

End Spec.

(** The calls into the recorder and into the virtual device in a trace. *)
Definition is_frame_call (e : Effect) : bool :=
  match e with
  | call_emitEvents _ | call_addEvents _ _ | call_resetState _ => true
  | _ => false
  end.

Definition frame_calls (t : list Effect) : list Effect :=
  List.filter is_frame_call t.

(** The records among the results of a sequence of reads. *)
Fixpoint records (reads : list read_result) : list input_event :=
  match reads with
  | [] => []
  | read_ok ev :: rest => ev :: records rest
  | read_fail _ :: rest => records rest
  end.

(** The effects of the two loops over the sub-devices: opening and closing
    nodes, log lines and [subDeviceConnected]. *)
Definition is_connection_effect (e : Effect) : bool :=
  match e with
  | call_open _ _ _ | call_close _ | log _ _ | subDeviceConnected _ _ _ => true
  | _ => false
  end.

(** The effects of the loop over the hidraw sub-devices. *)
Definition is_hidraw_effect (e : Effect) : bool :=
  match e with
  | call_open _ ReadWrite _ | call_close _ | log _ _ => true
  | _ => false
  end.

(** The effects that must not occur when nothing is connected anew: an
    event node opened, a sub-device or a presence change announced. *)
Definition is_new_connection (e : Effect) : bool :=
  match e with
  | call_open _ ReadOnly _ | subDeviceConnected _ _ _
  | anySpotlightDeviceConnectedChanged _ => true
  | _ => false
  end.

(** A connection as [ConnectEventSubDevices] leaves it when it connects a
    callback: the buffer has its twelve slots and a write position inside
    them, [im] points to one of [n] input mappers and the notifier exists. *)
Definition conn_ok (n : nat) (c : SubDeviceConnection) : Prop :=
  length (data_ (inputBuffer c)) = InputBuffer_Size
  ∧ (pos_ (inputBuffer c) < InputBuffer_Size)%nat
  ∧ (∃ m, im c = Some m ∧ (m < n)%nat)
  ∧ is_Some (notifier c).

(* ================================================================== *)
(** ** The reactor: what can happen to a [Spotlight] object *)

Section Reactor.
Context `{Externals} `{InputMapperModel}.

(** Every connected callback refers to a connection that is [conn_ok]. *)
Definition handlers_ok (st : Spotlight) : Prop :=
  Forall (fun cb => ∃ c, conns st !! cb.1 = Some c
                         ∧ conn_ok (length (mappers st)) c)
         (activated st).

(** What does not change in the loop body after a successful read. *)
Definition same_outside (st st' : Spotlight) : Prop :=
  length (mappers st') = length (mappers st)
  ∧ activated st' = activated st
  ∧ m_device st' = m_device st
  ∧ m_virtualDevice st' = m_virtualDevice st
  ∧ pending st' = pending st.

(** One event of the single-threaded loop: a call of [connectDevice] (from
    the constructor or from the connection timer) on whatever device tree
    and system-call results are there at that moment, the delivery of a
    notifier activation with whatever the reads yield, the timeout of the
    activity timer, a deferred removal, or a call of [vibrateDevice]. *)
Inductive reactor_step : Spotlight → Spotlight → Prop :=
| step_connectDevice tree os i st :
    reactor_step st (connectDevice tree os i st).2
| step_activated k reads st st' rest :
    deliver_activated k reads st = Some (st', rest) →
    reactor_step st st'
| step_activeTimer st :
    m_activeTimer st = true →
    reactor_step st (activeTimer_timeout st)
| step_pending fuel st st' :
    run_pending fuel st = Some st' →
    reactor_step st st'
| step_vibrateDevice os strength st :
    reactor_step st (vibrateDevice os strength st).2.

(** The states a [Spotlight] object can be in. *)
Definition reachable (st : Spotlight) : Prop :=
  ∃ additionalDevices virtualDevice,
    rtc reactor_step (initial_Spotlight additionalDevices virtualDevice) st.

End Reactor.

(* ================================================================== *)
(** ** Relations between device trees used in the statements *)

(** [dir'] is [dir] after a read error: its [uevent] file has vanished or
    cannot be opened any more, the rest is unchanged. *)
Inductive dir_degraded : HidDir → HidDir → Prop :=
| degraded_none dir : dir_degraded dir dir
| degraded_missing dir dir' :
    hd_uevent_exists dir' = false → dir_degraded dir dir'
| degraded_unreadable dir dir' :
    hd_uevent dir' = None → dir_degraded dir dir'.

(* ================================================================== *)
(** ** Further members of spotlight.h and notions used in the statements *)

(** [DeviceId::operator!=]: [std::tie(...) != std::tie(...)]. *)
Definition DeviceId_neqb (a b : DeviceId) : bool :=
  negb ((vendorId a =? vendorId b) && (productId a =? productId b)
        && String.eqb (phys a) (phys b)).

(** [DeviceId::operator<]: the lexicographic order of the three members,
    as [std::tuple] compares; texts compare by their characters' codes. *)
Definition DeviceId_ltb (a b : DeviceId) : bool :=
  if vendorId a <? vendorId b then true
  else if vendorId b <? vendorId a then false
  else if productId a <? productId b then true
  else if productId b <? productId a then false
  else String.ltb (phys a) (phys b).

(** [!!(flags & flag)]: the test the sources apply to a flag word. *)
Definition has_flag (flags flag : Z) : bool := negb (Z.land flags flag =? 0).

(** The body of the [while (!in.atEnd())] loop of [deviceFromUEventFile]
    for one line: the three properties are tried in order. *)
Definition line_properties `{Externals} (line : string) (d : Device) : Device :=
  fold_left (apply_property line) uevent_properties d.

(** The test that ends the [inputIt] loop of [scanForDevices]. *)
Definition id_mismatch `{Externals} (root : DeviceId) (e : InputDir) : bool :=
  negb (readUShortFromDeviceFile (in_id_vendor e) =? vendorId root)
  || negb (readUShortFromDeviceFile (in_id_product e) =? productId root).

(** A sub-device as the scanner creates it: its device file is an absolute
    path, it has no connection and no flags, its access bits are those of
    the node, and a hidraw node has neither [phys] nor relative events. *)
Definition scanned_SubDevice (tree : DeviceTree) (sd : SubDevice) : Prop :=
  String.prefix "/" (DeviceFile sd) = true
  ∧ connection sd = None
  ∧ deviceFlags sd = NoFlags
  ∧ DeviceReadable sd = node_readable tree (DeviceFile sd)
  ∧ DeviceWritable sd = node_writable tree (DeviceFile sd)
  ∧ (type sd = Hidraw → hasRelativeEvents sd = false ∧ sd_phys sd = EmptyString).

(** The [spotActiveChanged] signals of a trace, in order. *)
Definition spot_signals (t : list Effect) : list bool :=
  omap (fun e => match e with spotActiveChanged b => Some b | _ => None end) t.

(** The signals [l] alternate when the first one is emitted in the state
    [cur]: the state after the last one, [None] when a signal announces the
    state it is emitted in. *)
Fixpoint alternates (cur : bool) (l : list bool) : option bool :=
  match l with
  | [] => Some cur
  | b :: rest => if Bool.eqb b cur then None else alternates b rest
  end.

(** The paths announced by [subDeviceConnected] in a trace, in order. *)
Definition sub_paths (t : list Effect) : list string :=
  omap (fun e => match e with
                 | subDeviceConnected _ _ path => Some path
                 | _ => None
                 end) t.

(** The device files of the sub-devices captured by a list of callbacks. *)
Definition callback_paths (a : list (nat * SubDevice)) : list string :=
  (fun cb => DeviceFile cb.2) <$> a.

(** The effects of [connectDevice]. *)
Definition is_connect_effect (e : Effect) : bool :=
  match e with
  | call_open _ _ _ | call_close _ | log _ _ | subDeviceConnected _ _ _
  | deviceConnected _ _ | anySpotlightDeviceConnectedChanged true => true
  | _ => false
  end.

(** The signals that tell of a connection going away. *)
Definition is_disconnection (e : Effect) : bool :=
  match e with
  | deviceDisconnected _ _ | subDeviceDisconnected _ _ _
  | anySpotlightDeviceConnectedChanged false => true
  | _ => false
  end.


Section Lifecycle.
Context `{Externals} `{InputMapperModel}.

(** What [connectDevice] and the functions below it do to the object: the
    timers, the activity flag and the deferred calls are untouched, the
    stores and the list of callbacks grow at the end, the trace grows by
    effects of connecting, and each new callback is announced by one
    [subDeviceConnected] with its device file. *)
Definition extends (st st' : Spotlight) : Prop :=
  m_additionalDevices st' = m_additionalDevices st
  ∧ m_activeTimer st' = m_activeTimer st
  ∧ m_connectionTimer st' = m_connectionTimer st
  ∧ m_spotActive st' = m_spotActive st
  ∧ m_virtualDevice st' = m_virtualDevice st
  ∧ pending st' = pending st
  ∧ ∃ cs ms a delta,
      conns st' = conns st ++ cs
      ∧ mappers st' = mappers st ++ ms
      ∧ activated st' = activated st ++ a
      ∧ trace st' = trace st ++ delta
      ∧ sub_paths delta = callback_paths a
      ∧ Forall (fun e => is_connect_effect e = true) delta.

(** The descriptor [sendDatatoDevice] writes to is the value a default
    constructed [Device] holds or one that an [::open] with [O_RDWR] has
    returned. *)
Definition hidrwNode_known (t : list Effect) (node : Z) : Prop :=
  node = uninitialised_hidrwNode
  ∨ 0 < node ∧ ∃ path, call_open path ReadWrite node ∈ t.

End Lifecycle.

(* ================================================================== *)
(** ** deviceinput.h: the stream operators *)

(** A [QDataStream] over a byte array: [s << x] appends the bytes of [x],
    [s >> x] takes a value from the front and leaves the rest. *)
Definition QDataStream := list Z.

(** The two stream operators of a type: the bytes [operator<<] appends and
    what [operator>>] reads. *)
Record StreamOps (T : Type) := mk_StreamOps {
  put : T → list Z;
  get : QDataStream → T * QDataStream
}.
Arguments mk_StreamOps {T} _ _.
Arguments put {T} _ _.
Arguments get {T} _ _.

(** [quint32(container.size())]. *)
Definition quint32 (n : Z) : Z := n `mod` 2 ^ 32.

(** [struct DeviceInputEvent]. *)
Record DeviceInputEvent := mk_DeviceInputEvent {
  die_type : Z;
  die_code : Z;
  die_value : Z
}.

Section VectorStream.
Context {T : Type}.
(** [QDataStream]'s operators for [quint32] (Qt) and those of the element
    type. *)
Variable u32 : StreamOps Z.
Variable item : StreamOps T.

(** The [for (const auto& item : container) s << item] loop. *)
Fixpoint put_items (container : list T) : list Z :=
  match container with
  | [] => []
  | x :: rest => put item x ++ put_items rest
  end.

(** [operator<<(QDataStream&, const std::vector<T>&)]. *)
Definition vector_put (container : list T) : list Z :=
  put u32 (quint32 (Z.of_nat (length container))) ++ put_items container.

(** [container.resize(size)] followed by the loop
    [for (quint64 i = 0; i < size; ++i) s >> container[i]]. *)
Fixpoint get_items (size : nat) (s : QDataStream) : list T * QDataStream :=
  match size with
  | O => ([], s)
  | S size' =>
      let '(x, s) := get item s in
      let '(rest, s) := get_items size' s in
      (x :: rest, s)
  end.

(** [operator>>(QDataStream&, std::vector<T>&)]. *)
Definition vector_get (s : QDataStream) : list T * QDataStream :=
  let '(size, s) := get u32 s in
  get_items (Z.to_nat size) s.

Definition vector_ops : StreamOps (list T) := mk_StreamOps vector_put vector_get.

End VectorStream.

(** [class NativeKeySequence]: the three members its stream operators
    handle. [QKeySequence] is Qt's. *)
Record NativeKeySequence (QKeySequence : Type) := mk_NativeKeySequence {
  m_keySequence : QKeySequence;
  m_nativeSequence : list (list DeviceInputEvent);
  m_nativeModifiers : list Z
}.
Arguments mk_NativeKeySequence {QKeySequence} _ _ _.
Arguments m_keySequence {QKeySequence} _.
Arguments m_nativeSequence {QKeySequence} _.
Arguments m_nativeModifiers {QKeySequence} _.

Section NativeKeySequenceStream.
Context {QKeySequence : Type}.
(** Qt's operators for [quint32], [quint16] and [QKeySequence];
    deviceinput.cc's for [DeviceInputEvent]. *)
Variable u32 u16 : StreamOps Z.
Variable keys : StreamOps QKeySequence.
Variable event : StreamOps DeviceInputEvent.

(** The friend [operator<<]:
    [s << ks.m_keySequence << ks.m_nativeSequence << ks.m_nativeModifiers]. *)
Definition NativeKeySequence_put (ks : NativeKeySequence QKeySequence) : list Z :=
  put keys (m_keySequence ks)
  ++ vector_put u32 (vector_ops u32 event) (m_nativeSequence ks)
  ++ vector_put u32 u16 (m_nativeModifiers ks).

(** The friend [operator>>]:
    [s >> ks.m_keySequence >> ks.m_nativeSequence >> ks.m_nativeModifiers]. *)
Definition NativeKeySequence_get (s : QDataStream)
    : NativeKeySequence QKeySequence * QDataStream :=
  let '(k, s) := get keys s in
  let '(n, s) := vector_get u32 (vector_ops u32 event) s in
  let '(m, s) := vector_get u32 u16 s in
  (mk_NativeKeySequence k n m, s).

Definition NativeKeySequence_ops : StreamOps (NativeKeySequence QKeySequence) :=
  mk_StreamOps NativeKeySequence_put NativeKeySequence_get.

End NativeKeySequenceStream.

(** Reading back what was written: [operator>>] applied to the bytes of a
    valid [x], followed by anything, yields [x] and leaves what follows. *)
Definition round_trips {T} (ops : StreamOps T) (valid : T → Prop) : Prop :=
  ∀ x rest, valid x → get ops (put ops x ++ rest) = (x, rest).

Definition fits_quint32 (n : Z) : Prop := 0 ≤ n < 2 ^ 32.

(* ================================================================== *)
(** ** deviceswidget.cc: the items of the device combo box *)

(** An item of the [QComboBox]: its text and its data, a [DeviceId]. *)
Definition ComboItem : Type := string * DeviceId.

Section DevicesCombo.
(** [descriptionString(name, id)], built with [QString::arg]. *)
Variable descriptionString : string → DeviceId → string.

(** [devicesCombo->findData(QVariant::fromValue(id))]: the index of the
    first item with this data, [None] for -1. The comparison is the
    registered one, [DeviceId::operator==]. *)
Definition findData (items : list ComboItem) (i : DeviceId) : option nat :=
  find_if (fun it => DeviceId_eqb it.2 i) items.

(** [if (findData(data) < 0) addItem(descriptionString(name, id), data)]:
    the body shared by the loop of [createDeviceComboBox] and by the slot
    of [deviceConnected]. *)
Definition add_device (items : list ComboItem) (i : DeviceId) (n : string)
    : list ComboItem :=
  match findData items i with
  | None => items ++ [(descriptionString n i, i)]
  | Some _ => items
  end.

(** The items [createDeviceComboBox] creates from a scan result. *)
Definition createDeviceComboBox (scanned : list Device) : list ComboItem :=
  fold_left (fun items dev => add_device items (id dev) (name dev)) scanned [].

(** The slot connected to [deviceDisconnected]. *)
Definition on_deviceDisconnected (items : list ComboItem) (i : DeviceId)
    : list ComboItem :=
  match findData items i with
  | Some idx => delete idx items
  | None => items
  end.

(** The combo box after the signals of a trace have been delivered. *)
Definition deliver_signal (items : list ComboItem) (e : Effect) : list ComboItem :=
  match e with
  | deviceConnected i n => add_device items i n
  | deviceDisconnected i _ => on_deviceDisconnected items i
  | _ => items
  end.

Definition combo_after (items : list ComboItem) (t : list Effect)
    : list ComboItem :=
  fold_left deliver_signal t items.

End DevicesCombo.

(* ================================================================== *)
(** ** A concrete instance of the parameters and a concrete device tree *)

Module Example.

(** Value of a hexadecimal digit. *)
Definition hex_digit (c : ascii) : option Z :=
  let n := Z.of_nat (nat_of_ascii c) in
  if (48 <=? n) && (n <=? 57) then Some (n - 48)
  else if (97 <=? n) && (n <=? 102) then Some (n - 87)
  else if (65 <=? n) && (n <=? 70) then Some (n - 55)
  else None.

Fixpoint hex_value (acc : Z) (s : string) : option Z :=
  match s with
  | EmptyString => Some acc
  | String c rest =>
      match hex_digit c with
      | Some d => hex_value (16 * acc + d) rest
      | None => None
      end
  end.

(** Text to number in base 16 for plain digit strings: 0 when the text is
    empty, has another character or the value does not fit. *)
Definition parse_hex (limit : Z) (s : string) : Z :=
  match s with
  | EmptyString => 0
  | _ => match hex_value 0 s with
         | Some v => if v <? limit then v else 0
         | None => 0
         end
  end.

(** An input mapper that only stores what it is given. *)
Record Recorder := mk_Recorder {
  rec_recording : bool;
  rec_frames : list (list input_event)
}.

#[export] Instance externals : Externals := {|
  isExtraDeviceSupported := fun _ _ => false;
  getExtraDeviceName := fun _ _ => EmptyString;
  trimmed := fun s => s;
  toUShort16 := parse_hex 65536;
  toULongLong16 := parse_hex 18446744073709551616;
  uninitialised_hidrwNode := 0
|}.

#[export] Instance recorder : InputMapperModel := {|
  InputMapper := Recorder;
  InputMapper_new := fun _ => mk_Recorder false [];
  recordingMode := rec_recording;
  addEvents := fun r evs => mk_Recorder (rec_recording r) (rec_frames r ++ [evs]);
  resetState := fun r => mk_Recorder (rec_recording r) []
|}.

Definition spotlight_uevent : TextFile :=
  Some ["DRIVER=hid-generic";
        "HID_ID=0003:0000046D:0000C53E";
        "HID_NAME=Logitech USB Receiver";
        "HID_PHYS=usb-0000:00:14.0-2/input0";
        "HID_UNIQ="].

(** Interface with an input sub-tree: one event node with relative motion. *)
Definition dir_input : HidDir :=
  mk_HidDir true spotlight_uevent true true
    [mk_InputDir (Some "046d") (Some "c53e")
       [mk_EventDir "capabilities" None;
        mk_EventDir "event5" (Some ["MAJOR=13"; "MINOR=69"; "DEVNAME=input/event5"])]
       (Some "usb-0000:00:14.0-2/input0") (Some "17") (Some "3")]
    false false [].

(** Interface of the same device without an input sub-tree: one hidraw node. *)
Definition dir_hidraw : HidDir :=
  mk_HidDir true spotlight_uevent false false []
    true true
    [mk_HidrawDir "hidraw1" (Some ["MAJOR=243"; "MINOR=1"; "DEVNAME=hidraw1"])].

(** A keyboard that is not in any supported-device list. *)
Definition dir_other : HidDir :=
  mk_HidDir true
    (Some ["HID_ID=0003:000004F2:00000112"; "HID_NAME=Keyboard";
           "HID_PHYS=usb-0000:00:14.0-1/input0"])
    false false [] false false [].

Definition all_access : string → bool := fun _ => true.

(** The device exposes an event interface and a hidraw interface. *)
Definition tree_full : DeviceTree :=
  mk_DeviceTree true true [dir_other; dir_input; dir_hidraw] all_access all_access.

(** The device exposes an event interface only. *)
Definition tree_event_only : DeviceTree :=
  mk_DeviceTree true true [dir_other; dir_input] all_access all_access.

(** The hidraw interface is enumerated before the event interface. *)
Definition tree_hidraw_first : DeviceTree :=
  mk_DeviceTree true true [dir_hidraw; dir_input] all_access all_access.

(** [tree_full] after the [uevent] file of the event interface has become
    unreadable. *)
Definition dir_input_unreadable : HidDir :=
  mk_HidDir true None true true (hd_input dir_input) false false [].

Definition tree_degraded : DeviceTree :=
  mk_DeviceTree true true [dir_other; dir_input_unreadable; dir_hidraw]
                all_access all_access.

Definition tree_missing : DeviceTree :=
  mk_DeviceTree false false [] all_access all_access.

Definition tree_unlistable : DeviceTree :=
  mk_DeviceTree true false [dir_input] all_access all_access.

Definition spotlight_id : DeviceId :=
  mk_DeviceId 0x46d 0xc53e "usb-0000:00:14.0-2".

(** Every open succeeds: the event node on descriptor 7, the hidraw node
    on descriptor 8; the event node reports EV_SYN, EV_KEY, EV_REL with
    both axes; nothing is grabbed by someone else; writes succeed. *)
Definition os_ok : OS :=
  mk_OS (fun path m => if String.eqb path "/dev/input/event5" then 7 else 8)
        (fun _ => Some 0x17) (fun _ => 3) (fun _ => 0) (fun _ => true)
        (fun _ bytes => Z.of_nat (length bytes)).

(** As [os_ok], but the hidraw node cannot be opened. *)
Definition os_no_hidraw : OS :=
  mk_OS (fun path m => if String.eqb path "/dev/input/event5" then 7 else -1)
        (fun _ => Some 0x17) (fun _ => 3) (fun _ => 0) (fun _ => true)
        (fun _ bytes => -1).

(** As [os_ok] at a later moment, when other descriptors are free: the
    event node opens as [event] and the hidraw node as [hidraw]. *)
Definition os_next (event hidraw : Z) : OS :=
  mk_OS (fun path m => if String.eqb path "/dev/input/event5" then event
                       else hidraw)
        (fun _ => Some 0x17) (fun _ => 3) (fun _ => 0) (fun _ => true)
        (fun _ bytes => Z.of_nat (length bytes)).

Definition ev (t c v : Z) : input_event := mk_input_event (0, 0) t c v.

(** The state in which [connectDevice()] on [tree_full] calls
    [connectSubDevices]. *)
Definition selected : Spotlight :=
  default (initial_Spotlight [] true)
          (select_device tree_full default_DeviceId (initial_Spotlight [] true)).

(** The object after the constructor's [connectDevice()] on [tree_full]:
    the event node and the hidraw node are connected. *)
Definition connected : Spotlight :=
  (connectDevice tree_full os_ok default_DeviceId (initial_Spotlight [] true)).2.

Definition connected_device : Device :=
  default default_Device (m_device connected).

(** The callback connected for the event node: its connection handle, the
    sub-device it captured and the connection. *)
Definition handler_conn : nat := 0.

Definition handler_dev : SubDevice :=
  default (mk_SubDevice EmptyString EmptyString Event 0 None false false false)
          (snd <$> activated connected !! 0%nat).


(** The same device when its hidraw interface is enumerated first: the
    sub-device list is [/dev/hidraw1; /dev/input/event5]. *)
Definition connected_hidraw_first : Spotlight :=
  (connectDevice tree_hidraw_first os_ok default_DeviceId
     (initial_Spotlight [] true)).2.

(** A pointer movement, then a key press: two frames. *)
Definition motion_frame : list input_event :=
  [ev EV_REL REL_X 5; ev EV_REL REL_Y (-3); ev EV_SYN 0 0].

Definition key_frame : list input_event :=
  [ev 4 4 0x70028; ev 1 28 1; ev EV_SYN 0 0].

Definition sample_reads : list read_result :=
  read_ok <$> (motion_frame ++ key_frame).

(** Eleven records without a synchronization marker, and the state of
    [connected] after the handler has read them. *)
Definition eleven_keys : list read_result :=
  read_ok <$> replicate 11 (ev 1 30 1).

Definition almost_full : Spotlight :=
  default connected
    (fst <$> onEventSubDeviceDataAvailable eleven_keys handler_conn handler_dev
               connected).

Definition almost_full_conn : SubDeviceConnection :=
  default default_SubDeviceConnection (conns almost_full !! handler_conn).

(** [errno] of a read on a device that has been unplugged. *)
Definition ENODEV : Z := 19.

(** The state of [connected] after the read on the event node has failed
    with [ENODEV]. *)
Definition after_read_error : Spotlight :=
  default connected
    (fst <$> deliver_activated 0 [read_fail ENODEV] connected).

(** The same failed read when the hidraw interface was enumerated first. *)
Definition after_read_error_hidraw_first : Spotlight :=
  default connected_hidraw_first
    (fst <$> deliver_activated 0 [read_fail ENODEV] connected_hidraw_first).

(** A HID directory whose [uevent] file names no id. *)
Definition dir_no_id : HidDir :=
  mk_HidDir true (Some ["DRIVER=hid-generic"; "HID_NAME=Logitech USB Receiver"])
            false false [] false false [].

(** An input directory of another device. *)
Definition input_other : InputDir :=
  mk_InputDir (Some "04f2") (Some "0112")
    [mk_EventDir "event3" (Some ["DEVNAME=input/event3"])]
    (Some "usb-0000:00:14.0-1/input0") (Some "120013") (Some "0").

(** [connected] after a pointer movement and a key press have been read. *)
Definition moved : Spotlight :=
  default connected (fst <$> deliver_activated 0 sample_reads connected).

(** [connected] after [vibrateDevice(10)]. *)
Definition vibrated : Spotlight := (vibrateDevice os_ok 10 connected).2.

(** The state in which [connectSubDevices] calls [ConnectHidrawSubDevices]. *)
Definition event_connected : Spotlight := (ConnectEventSubDevices os_ok selected).2.

Definition event_connected_device : Device :=
  default default_Device (m_device event_connected).

(** Qt's big-endian encoding of [quint16] and [quint32]; a read past the
    end yields 0. *)
Definition qt_u16 : StreamOps Z :=
  mk_StreamOps
    (fun v => [(v / 256) `mod` 256; v `mod` 256])
    (fun s => match s with
              | a :: b :: rest => (a * 256 + b, rest)
              | _ => (0, [])
              end).

Definition qt_u32 : StreamOps Z :=
  mk_StreamOps
    (fun v => [(v / 16777216) `mod` 256; (v / 65536) `mod` 256;
               (v / 256) `mod` 256; v `mod` 256])
    (fun s => match s with
              | a :: b :: c :: d :: rest =>
                  (((a * 256 + b) * 256 + c) * 256 + d, rest)
              | _ => (0, [])
              end).

(** [qint32] as Qt writes it: the two's complement in four bytes. *)
Definition qt_i32 : StreamOps Z :=
  mk_StreamOps
    (fun v => put qt_u32 (v `mod` 2 ^ 32))
    (fun s => let '(u, rest) := get qt_u32 s in
              (if u <? 2 ^ 31 then u else u - 2 ^ 32, rest)).

(** Stream operators of [DeviceInputEvent] that write the three members
    in order. *)
Definition event_ops : StreamOps DeviceInputEvent :=
  mk_StreamOps
    (fun die => put qt_u16 (die_type die) ++ put qt_u16 (die_code die)
                ++ put qt_i32 (die_value die))
    (fun s => let '(t, s) := get qt_u16 s in
              let '(c, s) := get qt_u16 s in
              let '(v, s) := get qt_i32 s in
              (mk_DeviceInputEvent t c v, s)).

Definition fits_quint16 (n : Z) : Prop := 0 ≤ n < 65536.

Definition valid_event (die : DeviceInputEvent) : Prop :=
  fits_quint16 (die_type die) ∧ fits_quint16 (die_code die)
  ∧ - 2 ^ 31 ≤ die_value die < 2 ^ 31.

(** A key sequence as the list of its key codes. *)
Definition key_ops : StreamOps (list Z) := vector_ops qt_u32 qt_u32.

Definition valid_keys (ks : list Z) : Prop :=
  Forall fits_quint32 ks ∧ Z.of_nat (length ks) < 2 ^ 32.

(** Alt+Tab: the key sequence, the events of press and release and the
    modifier bits. *)
Definition alt_tab : NativeKeySequence (list Z) :=
  mk_NativeKeySequence [0x08000001]
    [[mk_DeviceInputEvent 1 56 1; mk_DeviceInputEvent 0 0 0];
     [mk_DeviceInputEvent 1 15 1; mk_DeviceInputEvent 0 0 0];
     [mk_DeviceInputEvent 1 15 0; mk_DeviceInputEvent 0 0 0];
     [mk_DeviceInputEvent 1 56 0; mk_DeviceInputEvent 0 0 0]]
    [4].

End Example.

(* ================================================================== *)
(** * Properties of the scanner *)

Section ScannerProofs.
Context `{Externals}.

Lemma DeviceId_eqb_eq a b : DeviceId_eqb a b = true ↔ a = b.
Proof.
  destruct a as [v1 p1 s1], b as [v2 p2 s2]; unfold DeviceId_eqb; simpl.
  rewrite !andb_true_iff, !Z.eqb_eq, String.eqb_eq.
  split; [intros [[-> ->] ->]; reflexivity | intros [= -> -> ->]; auto].
Qed.

Lemma DeviceId_eqb_refl a : DeviceId_eqb a a = true.
Proof. apply DeviceId_eqb_eq; reflexivity. Qed.

Lemma find_if_None {A} (p : A → bool) l :
  find_if p l = None ↔ Forall (fun x => p x = false) l.
Proof.
  induction l as [|x l IH]; simpl.
  - split; auto.
  - destruct (p x) eqn:Hp.
    + split; [discriminate | intros Hf; inversion Hf; congruence].
    + rewrite fmap_None, IH. split.
      * intros Hl; constructor; assumption.
      * intros Hf; inversion Hf; assumption.
Qed.

Lemma find_if_Some {A} (p : A → bool) l k :
  find_if p l = Some k → ∃ x, l !! k = Some x ∧ p x = true.
Proof.
  revert k; induction l as [|x l IH]; simpl; intros k; [discriminate|].
  destruct (p x) eqn:Hp.
  - intros [= <-]. exists x; auto.
  - intros Hk. apply fmap_Some in Hk as (k' & Hk' & ->).
    apply IH in Hk'. exact Hk'.
Qed.

Lemma id_append_subDevices l d : id (append_subDevices l d) = id d.
Proof. reflexivity. Qed.

(** Altering a device with a function that keeps ids keeps the id list. *)
Lemma ids_alter (f : Device → Device) k (devs : list Device) :
  (∀ d, id (f d) = id d) → id <$> alter f k devs = id <$> devs.
Proof.
  intros Hf. revert k; induction devs as [|d devs IH]; intros [|k]; simpl;
    try reflexivity.
  - rewrite Hf; reflexivity.
  - f_equal. apply IH.
Qed.

(** The ids after one iteration of the directory loop. *)
Lemma scan_dir_ids additional tree devs dir :
  id <$> scan_dir additional tree devs dir =
  if dir_accepted additional dir then
    let i := id (deviceFromUEventFile (hd_uevent dir)) in
    if bool_decide (i ∈ id <$> devs) then id <$> devs
    else (id <$> devs) ++ [i]
  else id <$> devs.
Proof.
  unfold scan_dir. destruct (dir_accepted additional dir); simpl; [|reflexivity].
  set (newDevice := deviceFromUEventFile (hd_uevent dir)).
  destruct (find_if _ devs) as [k|] eqn:Hfind.
  - rewrite ids_alter by (intros; apply id_append_subDevices).
    apply find_if_Some in Hfind as (x & Hx & Heq).
    apply DeviceId_eqb_eq in Heq.
    rewrite bool_decide_eq_true_2; [reflexivity|].
    rewrite <- Heq. apply list_elem_of_fmap. exists x; split; [reflexivity|].
    eapply list_elem_of_lookup_2; eassumption.
  - rewrite ids_alter by (intros; apply id_append_subDevices).
    rewrite fmap_app; simpl.
    rewrite bool_decide_eq_false_2; [reflexivity|].
    intros Hin. apply list_elem_of_fmap in Hin as (x & Hx & Hin).
    apply find_if_None in Hfind. rewrite Forall_forall in Hfind.
    specialize (Hfind x Hin). simpl in Hfind.
    rewrite <- Hx in Hfind. rewrite DeviceId_eqb_refl in Hfind. discriminate.
Qed.

Lemma scan_dir_NoDup additional tree devs dir :
  NoDup (id <$> devs) → NoDup (id <$> scan_dir additional tree devs dir).
Proof.
  intros Hnd. rewrite scan_dir_ids.
  destruct (dir_accepted additional dir); [|assumption]. simpl.
  case_bool_decide as Hin; [assumption|].
  apply NoDup_app. split; [assumption|]. split.
  - intros x Hx Hx'. apply list_elem_of_singleton in Hx'. subst. contradiction.
  - apply NoDup_singleton.
Qed.

Lemma scan_fold_NoDup additional tree dirs devs :
  NoDup (id <$> devs) →
  NoDup (id <$> fold_left (scan_dir additional tree) dirs devs).
Proof.
  revert devs; induction dirs as [|dir dirs IH]; simpl; intros devs Hnd;
    [assumption|].
  apply IH, scan_dir_NoDup, Hnd.
Qed.

(** Which ids the directory loop collects. *)
Lemma scan_fold_ids additional tree dirs devs i :
  i ∈ id <$> fold_left (scan_dir additional tree) dirs devs ↔
  i ∈ id <$> devs
  ∨ ∃ dir, dir ∈ dirs ∧ dir_accepted additional dir = true
           ∧ id (deviceFromUEventFile (hd_uevent dir)) = i.
Proof.
  revert devs; induction dirs as [|dir dirs IH]; simpl; intros devs.
  - split; [auto|]. intros [Hin|(dir & Hdir & _)]; [assumption|].
    apply elem_of_nil in Hdir; contradiction.
  - rewrite IH, scan_dir_ids. split.
    + intros [Hin|(dir' & Hdir' & Hacc & Hid)].
      * destruct (dir_accepted additional dir) eqn:Hacc; [|auto]. simpl in Hin.
        case_bool_decide; [auto|].
        apply elem_of_app in Hin as [Hin|Hin]; [auto|].
        apply list_elem_of_singleton in Hin. right. exists dir.
        split; [left|]; auto.
      * right. exists dir'. split; [right|]; auto.
    + intros [Hin|(dir' & Hdir' & Hacc & Hid)].
      * left. destruct (dir_accepted additional dir); [|assumption]. simpl.
        case_bool_decide; [assumption|]. apply elem_of_app; auto.
      * apply elem_of_cons in Hdir' as [->|Hdir'].
        -- left. rewrite Hacc. simpl. case_bool_decide as Hin.
           ++ rewrite <- Hid; assumption.
           ++ apply elem_of_app; right. apply list_elem_of_singleton; auto.
        -- right. exists dir'; auto.
Qed.

Lemma alter_as_insert {A} (f : A → A) k (l : list A) x :
  l !! k = Some x → alter f k l = <[k := f x]> l.
Proof.
  revert k; induction l as [|y l IH]; intros [|k]; simpl; try discriminate.
  - intros [= ->]; reflexivity.
  - intros Hk. f_equal. apply IH, Hk.
Qed.

(** A directory whose [uevent] file is gone or unreadable is skipped. *)
Lemma degraded_accepted additional dir dir' :
  dir_degraded dir dir' → dir_accepted additional dir' = true → dir' = dir.
Proof.
  intros Hdeg Hacc. destruct Hdeg as [dir|dir dir' Hmiss|dir dir' Hunr].
  - reflexivity.
  - unfold dir_accepted in Hacc. rewrite Hmiss in Hacc. discriminate.
  - unfold dir_accepted in Hacc. rewrite Hunr in Hacc. simpl in Hacc.
    rewrite andb_false_r in Hacc. discriminate.
Qed.

(** C7: the result of [scanForDevices] holds at most one [Device] per
    [DeviceId], and it holds one for the id of every HID directory that
    passes the filters; an iteration of the directory loop on a directory
    whose id is already in the list keeps the list's length and appends
    the directory's sub-device nodes to the entry with that id. *)
Theorem scanForDevices_one_device_per_id
    (tree : DeviceTree) (additional : list SupportedDevice)
    (devs : list Device) (dir : HidDir) :
  NoDup (id <$> devices (scanForDevices tree additional))
  ∧ (root_exists tree = true → root_executable tree = true →
     ∀ i, i ∈ id <$> devices (scanForDevices tree additional) ↔
          ∃ d, d ∈ hid_dirs tree ∧ dir_accepted additional d = true
               ∧ id (deviceFromUEventFile (hd_uevent d)) = i)
  ∧ (dir_accepted additional dir = true →
     id (deviceFromUEventFile (hd_uevent dir)) ∈ id <$> devs →
     ∃ k rootDevice,
       devs !! k = Some rootDevice
       ∧ id rootDevice = id (deviceFromUEventFile (hd_uevent dir))
       ∧ scan_dir additional tree devs dir =
         <[k := set_subDevices rootDevice
                  (subDevices rootDevice ++ dir_subDevices tree dir rootDevice)]> devs
       ∧ length (scan_dir additional tree devs dir) = length devs).
Proof.
  split; [|split].
  - unfold scanForDevices.
    destruct (root_exists tree); simpl; [|constructor].
    destruct (root_executable tree); simpl; [|constructor].
    apply scan_fold_NoDup. constructor.
  - intros Hex Hls i. unfold scanForDevices. rewrite Hex, Hls. simpl.
    rewrite scan_fold_ids. simpl. split; [|auto].
    intros [Hin|Hdir]; [|assumption]. apply elem_of_nil in Hin; contradiction.
  - intros Hacc Hin. unfold scan_dir. rewrite Hacc. simpl.
    destruct (find_if _ devs) as [k|] eqn:Hfind.
    + destruct (find_if_Some _ _ _ Hfind) as (rootDevice & Hk & Heq).
      apply DeviceId_eqb_eq in Heq. exists k, rootDevice.
      split; [assumption|]. split; [assumption|].
      rewrite (alter_as_insert _ _ _ _ Hk). split; [reflexivity|].
      apply length_insert.
    + exfalso. apply find_if_None in Hfind. rewrite Forall_forall in Hfind.
      apply list_elem_of_fmap in Hin as (x & Hx & Hin).
      specialize (Hfind x Hin). simpl in Hfind.
      rewrite <- Hx, DeviceId_eqb_refl in Hfind. discriminate.
Qed.

(** C8: without a device-tree root, or with a root that cannot be listed,
    [scanForDevices] returns no device and one message that says so; with
    a listable root it returns no message, and a tree in which [uevent]
    files have become unreadable or have vanished yields a subset of the
    device ids. ([scanForDevices] is a total function of the tree: there
    is no input on which it fails.) *)
Theorem scanForDevices_errors_not_fatal
    (tree tree' : DeviceTree) (additional : list SupportedDevice) :
  (root_exists tree = false →
   scanForDevices tree additional = mk_ScanResult [] 0 0 [err_not_exist])
  ∧ (root_exists tree = true → root_executable tree = false →
     scanForDevices tree additional = mk_ScanResult [] 0 0 [err_cannot_list])
  ∧ (root_exists tree = true → root_executable tree = true →
     errorMessages (scanForDevices tree additional) = []
     ∧ (Forall2 dir_degraded (hid_dirs tree) (hid_dirs tree') →
        id <$> devices (scanForDevices tree' additional)
        ⊆ id <$> devices (scanForDevices tree additional))).
Proof.
  split; [|split].
  - intros Hex. unfold scanForDevices. rewrite Hex. reflexivity.
  - intros Hex Hls. unfold scanForDevices. rewrite Hex, Hls. reflexivity.
  - intros Hex Hls. unfold scanForDevices at 1. rewrite Hex, Hls. simpl.
    split; [reflexivity|]. intros Hdeg i Hin.
    unfold scanForDevices. rewrite Hex, Hls. simpl.
    apply scan_fold_ids. right.
    unfold scanForDevices in Hin.
    destruct (root_exists tree'); simpl in Hin;
      [|apply elem_of_nil in Hin; contradiction].
    destruct (root_executable tree'); simpl in Hin;
      [|apply elem_of_nil in Hin; contradiction].
    apply scan_fold_ids in Hin as [Hin|(d' & Hd' & Hacc & Hid)];
      [apply elem_of_nil in Hin; contradiction|].
    apply list_elem_of_lookup in Hd' as (k & Hk).
    destruct (Forall2_lookup_r _ _ _ _ _ Hdeg Hk) as (d & Hd & Hdd).
    apply degraded_accepted with (additional := additional) in Hdd;
      [|assumption]. subst d'.
    exists d. split; [eapply list_elem_of_lookup_2; eassumption|]. auto.
Qed.

(** C10: every [Device] in the result of [scanForDevices] has a vendor id
    and a product id different from 0, and the pair is in
    [supportedDefaultDevices], accepted by [isExtraDeviceSupported] or in
    the list the caller supplied; so its id is never equal to the default
    [DeviceId(0, 0, "")]. *)
Theorem scanned_devices_are_supported
    (tree : DeviceTree) (additional : list SupportedDevice) :
  Forall (fun d =>
            vendorId (id d) ≠ 0 ∧ productId (id d) ≠ 0
            ∧ ((∃ s, s ∈ supportedDefaultDevices
                     ∧ sup_vendorId s = vendorId (id d)
                     ∧ sup_productId s = productId (id d))
               ∨ isExtraDeviceSupported (vendorId (id d)) (productId (id d)) = true
               ∨ (∃ s, s ∈ additional
                       ∧ sup_vendorId s = vendorId (id d)
                       ∧ sup_productId s = productId (id d)))
            ∧ DeviceId_eqb (id d) (mk_DeviceId 0 0 EmptyString) = false)
         (devices (scanForDevices tree additional)).
Proof.
  apply Forall_forall. intros d Hd.
  assert (Hin : id d ∈ id <$> devices (scanForDevices tree additional))
    by (apply list_elem_of_fmap; exists d; auto).
  unfold scanForDevices in Hin.
  destruct (root_exists tree); simpl in Hin;
    [|apply elem_of_nil in Hin; contradiction].
  destruct (root_executable tree); simpl in Hin;
    [|apply elem_of_nil in Hin; contradiction].
  apply scan_fold_ids in Hin as [Hin|(dir & _ & Hacc & Hid)];
    [apply elem_of_nil in Hin; contradiction|].
  unfold dir_accepted in Hacc. rewrite Hid in Hacc.
  apply andb_true_iff in Hacc as [Hacc Hsup].
  apply andb_true_iff in Hacc as [_ Hnz].
  apply negb_true_iff, orb_false_iff in Hnz as [Hv Hp].
  apply Z.eqb_neq in Hv, Hp.
  split; [assumption|]. split; [assumption|]. split.
  - apply negb_true_iff, andb_false_iff in Hsup as [Hs|Hs];
      apply negb_false_iff in Hs.
    + unfold isDeviceSupported in Hs. apply orb_true_iff in Hs as [Hs|Hs].
      * left. apply existsb_exists in Hs as (s & Hs & Hm).
        unfold matches_ids in Hm. apply andb_true_iff in Hm as [Hm1 Hm2].
        apply Z.eqb_eq in Hm1, Hm2. exists s.
        split; [apply list_elem_of_In; assumption|]. auto.
      * right; left; assumption.
    + right; right. unfold isAdditionallySupported in Hs.
      apply existsb_exists in Hs as (s & Hs & Hm).
      unfold matches_ids in Hm. apply andb_true_iff in Hm as [Hm1 Hm2].
      apply Z.eqb_eq in Hm1, Hm2. exists s.
      split; [apply list_elem_of_In; assumption|]. auto.
  - destruct (DeviceId_eqb (id d) (mk_DeviceId 0 0 EmptyString)) eqn:Heq;
      [|reflexivity].
    apply DeviceId_eqb_eq in Heq. rewrite Heq in Hv. simpl in Hv. congruence.
Qed.

End ScannerProofs.

(* ================================================================== *)
(** * Properties of the event demultiplexer and of the connected callbacks *)

(** Closes [Forall] goals over an explicit list whose elements satisfy
    one branch of a disjunction by computation. *)
Ltac delta_effects :=
  cbn [app];
  repeat match goal with
         | |- Forall _ (_ :: _) =>
             constructor;
             [first [ reflexivity | left; reflexivity
                    | right; left; reflexivity
                    | right; right; left; reflexivity
                    | right; right; right; reflexivity
                    | right; right; reflexivity ]|]
         | |- Forall _ [] => constructor
         end.

Section DemuxProofs.
Context `{Externals} `{InputMapperModel}.

Lemma frame_store_advance (buf : InputBuffer) ev :
  (pos_ buf < length (data_ buf))%nat →
  frame (advance (store_current buf ev)) = frame buf ++ [ev].
Proof.
  intros Hpos. unfold frame, advance, store_current; simpl.
  rewrite (take_S_r _ _ ev) by (apply list_lookup_insert_eq; assumption).
  rewrite take_insert_ge by lia. reflexivity.
Qed.

Lemma frame_length (buf : InputBuffer) :
  (pos_ buf ≤ length (data_ buf))%nat → length (frame buf) = pos_ buf.
Proof. intros Hpos. unfold frame. rewrite length_take. lia. Qed.

(** [buf[0]] after the store is the first record of the frame. *)
Lemma first_of_frame (buf : InputBuffer) ev :
  (pos_ buf < length (data_ buf))%nat →
  data_ (advance (store_current buf ev)) !! 0%nat = (frame buf ++ [ev]) !! 0%nat.
Proof.
  intros Hpos. rewrite <- frame_store_advance by assumption.
  unfold frame. rewrite lookup_take_lt; [reflexivity|]. simpl. lia.
Qed.

Lemma isMouseMoveEvent_frame first_ev fr :
  fr !! 0%nat = Some first_ev →
  isMouseMoveEvent first_ev = Spec.is_motion_frame fr.
Proof. destruct fr; [discriminate|]. intros [= ->]. reflexivity. Qed.

(** The loop body after a successful read, for a connection that is
    [conn_ok]: it does not fail, it leaves the buffer and the trace as the
    frame discipline says, and the connection stays [conn_ok]. *)
Lemma on_read_success_spec ev h st c m :
  conns st !! h = Some c →
  length (data_ (inputBuffer c)) = InputBuffer_Size →
  (pos_ (inputBuffer c) < InputBuffer_Size)%nat →
  im c = Some m → (m < length (mappers st))%nat →
  ∃ st' c' delta,
    on_read_success ev h st = Some st'
    ∧ conns st' = <[h := c']> (conns st)
    ∧ length (data_ (inputBuffer c')) = InputBuffer_Size
    ∧ im c' = im c ∧ notifier c' = notifier c
    ∧ frame (inputBuffer c')
      = Spec.demux_rest InputBuffer_Size (frame (inputBuffer c)) [ev]
    ∧ pos_ (inputBuffer c') = length (frame (inputBuffer c'))
    ∧ same_outside st st'
    ∧ trace st' = trace st ++ delta
    ∧ frame_calls delta
      = Spec.demux_calls InputBuffer_Size (m_virtualDevice st) m
          (frame (inputBuffer c)) [ev]
    ∧ Forall (fun e => is_frame_call e = true ∨ e = spotActiveChanged true
                       ∨ e = log LogWarning msg_discarded) delta.
Proof.
  intros Hc Hlen Hpos Him Hm.
  destruct (lookup_lt_is_Some_2 (mappers st) m Hm) as [mapper Hmapper].
  assert (Hpos' : (pos_ (inputBuffer c) < length (data_ (inputBuffer c)))%nat)
    by (rewrite Hlen; assumption).
  pose proof (frame_store_advance (inputBuffer c) ev Hpos') as Hfr.
  pose proof (first_of_frame (inputBuffer c) ev Hpos') as Hfirst.
  pose proof (frame_length (inputBuffer c) ltac:(lia)) as Hfl.
  assert (Hlen' : length (data_ (advance (store_current (inputBuffer c) ev)))
                  = InputBuffer_Size)
    by (simpl; rewrite length_insert; assumption).
  set (calls := Spec.demux_calls _ _ _ _ _).
  set (rst := Spec.demux_rest _ _ _).
  assert (Hfirst' : ∃ first_ev,
             (frame (inputBuffer c) ++ [ev]) !! 0%nat = Some first_ev).
  { destruct (frame (inputBuffer c)); simpl; eauto. }
  destruct Hfirst' as [first_ev Hfirst']. rewrite Hfirst' in Hfirst.
  pose proof (isMouseMoveEvent_frame _ _ Hfirst') as Hmotion.
  unfold on_read_success. rewrite Hc. simpl.
  destruct (ie_type ev =? EV_SYN) eqn:Hsyn.
  - (* a frame is complete *)
    simpl in Hfirst. rewrite Hfirst, Him. simpl. rewrite Hmapper. simpl.
    subst calls rst. cbn [Spec.demux_calls Spec.demux_rest].
    rewrite Hsyn, <- Hmotion, Hfr.
    destruct (isMouseMoveEvent first_ev).
    + destruct (recordingMode mapper), (m_activeTimer st) eqn:Htimer,
        (m_virtualDevice st) eqn:Hvd; simpl; rewrite ?Htimer, ?Hvd; simpl;
        eexists _, _, _; (split; [reflexivity|]); simpl;
        rewrite ?Hvd; unfold same_outside; simpl;
        repeat split;
        first [ reflexivity | assumption
              | rewrite length_insert; assumption
              | rewrite <- ?app_assoc; simpl; reflexivity
              | symmetry; apply app_nil_r
              | idtac ].
      all: try (rewrite app_nil_r; reflexivity).
      all: delta_effects.
    + eexists _, _, _; (split; [reflexivity|]); simpl;
        unfold same_outside; simpl;
        repeat split;
        first [ reflexivity | assumption
              | rewrite length_insert; assumption
              | apply length_insert | idtac ].
      all: delta_effects.
  - subst calls rst. cbn [Spec.demux_calls Spec.demux_rest]. rewrite Hsyn.
    match goal with
    | |- context [(size ?b <=? ?p)%nat] => destruct (size b <=? p)%nat eqn:Hfull
    end.
    + (* the buffer is full and no marker came *)
      assert (Hcap : (InputBuffer_Size <=? length (frame (inputBuffer c) ++ [ev]))%nat
                     = true).
      { apply Nat.leb_le. apply Nat.leb_le in Hfull. unfold size in Hfull.
        rewrite Hlen' in Hfull. simpl in Hfull.
        rewrite length_app, Hfl. simpl. lia. }
      rewrite Hcap, Him. simpl. rewrite Hmapper. simpl.
      eexists _, _, _; (split; [reflexivity|]); simpl;
        unfold same_outside; simpl;
        repeat split;
        first [ reflexivity | assumption
              | rewrite length_insert; assumption
              | apply length_insert
              | rewrite <- ?app_assoc; simpl; reflexivity | idtac ].
      all: delta_effects.
    + assert (Hcap : (InputBuffer_Size <=? length (frame (inputBuffer c) ++ [ev]))%nat
                     = false).
      { apply Nat.leb_gt. apply Nat.leb_gt in Hfull. unfold size in Hfull.
        rewrite Hlen' in Hfull. simpl in Hfull.
        rewrite length_app, Hfl. simpl. lia. }
      rewrite Hcap.
      eexists _, _, []; (split; [reflexivity|]); simpl;
        unfold same_outside; simpl;
        repeat split;
        first [ reflexivity | assumption | exact Hfr
              | rewrite length_insert; assumption
              | symmetry; apply app_nil_r | idtac ].
      * change (S (pos_ (inputBuffer c))
                = length (frame (advance (store_current (inputBuffer c) ev)))).
        rewrite Hfr, length_app, Hfl; simpl; lia.
      * delta_effects.
Qed.

Lemma demux_calls_cons cap vd m acc ev evs :
  Spec.demux_calls cap vd m acc (ev :: evs) =
  Spec.demux_calls cap vd m acc [ev]
  ++ Spec.demux_calls cap vd m (Spec.demux_rest cap acc [ev]) evs.
Proof.
  cbn [Spec.demux_calls Spec.demux_rest].
  destruct (ie_type ev =? EV_SYN).
  - rewrite app_nil_r. reflexivity.
  - destruct (cap <=? length (acc ++ [ev]))%nat; reflexivity.
Qed.

Lemma demux_rest_cons cap acc ev evs :
  Spec.demux_rest cap acc (ev :: evs) =
  Spec.demux_rest cap (Spec.demux_rest cap acc [ev]) evs.
Proof.
  cbn [Spec.demux_rest].
  destruct (ie_type ev =? EV_SYN); [reflexivity|].
  destruct (cap <=? length (acc ++ [ev]))%nat; reflexivity.
Qed.

(** The buffer never holds a full array between two loop iterations. *)
Lemma demux_rest_short cap acc evs :
  (length acc < cap)%nat →
  (length (Spec.demux_rest cap acc evs) < cap)%nat.
Proof.
  revert acc; induction evs as [|ev evs IH]; intros acc Hacc;
    cbn [Spec.demux_rest]; [assumption|].
  destruct (ie_type ev =? EV_SYN); [apply IH; simpl; lia|].
  destruct (cap <=? length (acc ++ [ev]))%nat eqn:Hcap.
  - apply IH; simpl; lia.
  - apply IH. apply Nat.leb_gt in Hcap. exact Hcap.
Qed.

Lemma frame_calls_app t1 t2 :
  frame_calls (t1 ++ t2) = frame_calls t1 ++ frame_calls t2.
Proof. apply List.filter_app. Qed.

(** The loop body after a failed read, for a connection with a notifier. *)
Lemma on_read_failure_spec errno h dev st c :
  conns st !! h = Some c → is_Some (notifier c) →
  ∃ st' c' delta,
    on_read_failure errno h dev st = Some st'
    ∧ conns st' = <[h := c']> (conns st)
    ∧ inputBuffer c' = inputBuffer c ∧ im c' = im c
    ∧ is_Some (notifier c')
    ∧ mappers st' = mappers st
    ∧ activated st' = activated st
    ∧ m_device st' = m_device st
    ∧ m_virtualDevice st' = m_virtualDevice st
    ∧ trace st' = trace st ++ delta
    ∧ delta = (if negb (errno =? EAGAIN) && negb (anySpotlightDeviceConnected st)
               then [anySpotlightDeviceConnectedChanged false] else []).
Proof.
  intros Hc [n Hn]. unfold on_read_failure.
  destruct (errno =? EAGAIN); simpl.
  - exists st, c, []. rewrite list_insert_id by assumption.
    rewrite app_nil_r. repeat split; eauto.
  - rewrite Hc. simpl. rewrite Hn. simpl.
    unfold anySpotlightDeviceConnected. simpl.
    destruct (m_device st) eqn:Hdev; simpl;
      eexists _, _, _; (split; [reflexivity|]); simpl;
      repeat split; eauto using app_nil_r.
Qed.

(** A run of the handler on a connection that is [conn_ok]: it returns,
    the reads it has consumed are a prefix of those offered, the connection
    stays [conn_ok], other connections are untouched, and the calls it made
    into the recorder and the virtual device are those of the frame
    discipline for the records it has read. *)
Lemma handler_spec reads h dev st c m :
  conns st !! h = Some c → conn_ok (length (mappers st)) c → im c = Some m →
  ∃ st' rest pre c' delta,
    onEventSubDeviceDataAvailable reads h dev st = Some (st', rest)
    ∧ reads = pre ++ rest
    ∧ conns st' !! h = Some c'
    ∧ conn_ok (length (mappers st')) c' ∧ im c' = Some m
    ∧ (∀ h', h' ≠ h → conns st' !! h' = conns st !! h')
    ∧ length (mappers st') = length (mappers st)
    ∧ activated st' = activated st
    ∧ m_device st' = m_device st
    ∧ m_virtualDevice st' = m_virtualDevice st
    ∧ frame (inputBuffer c')
      = Spec.demux_rest InputBuffer_Size (frame (inputBuffer c)) (records pre)
    ∧ trace st' = trace st ++ delta
    ∧ frame_calls delta
      = Spec.demux_calls InputBuffer_Size (m_virtualDevice st) m
          (frame (inputBuffer c)) (records pre)
    ∧ Forall (fun e => is_frame_call e = true ∨ e = spotActiveChanged true
                       ∨ e = log LogWarning msg_discarded
                       ∨ (e = anySpotlightDeviceConnectedChanged false
                          ∧ m_device st = None)) delta.
Proof.
  revert st c. induction reads as [|r reads IH]; intros st c Hc Hok Him.
  - destruct Hok as (Hlen & Hpos & Hm & Hn).
    cbn [onEventSubDeviceDataAvailable]. rewrite Hc. simpl.
    destruct (lookup_lt_is_Some_2 (data_ (inputBuffer c)) (pos_ (inputBuffer c))
                ltac:(lia)) as [x Hx].
    unfold current. rewrite Hx. simpl.
    exists st, [], [], c, [].
    repeat split; auto using app_nil_r.
  - pose proof Hok as (Hlen & Hpos & (m' & Hm' & Hmlt) & Hn).
    assert (m' = m) by congruence. subst m'.
    cbn [onEventSubDeviceDataAvailable]. rewrite Hc. simpl.
    destruct (lookup_lt_is_Some_2 (data_ (inputBuffer c)) (pos_ (inputBuffer c))
                ltac:(lia)) as [x Hx].
    unfold current. rewrite Hx. simpl.
    destruct r as [ev|errno].
    + destruct (on_read_success_spec ev h st c m Hc Hlen Hpos Him Hmlt)
        as (st1 & c1 & d1 & Hrun & Hconns & Hlen1 & Him1 & Hn1 & Hfr1 & Hpos1
            & (Hmap1 & Hact1 & Hdev1 & Hvd1 & Hpend1) & Htr1 & Hcalls1 & Hd1).
      rewrite Hrun. simpl.
      assert (Hh : (h < length (conns st))%nat)
        by (eapply lookup_lt_Some; eassumption).
      assert (Hc1 : conns st1 !! h = Some c1)
        by (rewrite Hconns; apply list_lookup_insert_eq; assumption).
      assert (Hok1 : conn_ok (length (mappers st1)) c1).
      { split; [assumption|]. split.
        - rewrite Hpos1, Hfr1. apply demux_rest_short.
          rewrite frame_length by lia. assumption.
        - split; [exists m; rewrite Him1, Hmap1; auto|]. rewrite Hn1; assumption. }
      assert (Hother : ∀ h', h' ≠ h → conns st1 !! h' = conns st !! h')
        by (intros h' Hne; rewrite Hconns; apply list_lookup_insert_ne; auto).
      assert (Hd1' : Forall (fun e => is_frame_call e = true
                                      ∨ e = spotActiveChanged true
                                      ∨ e = log LogWarning msg_discarded
                                      ∨ (e = anySpotlightDeviceConnectedChanged false
                                         ∧ m_device st = None)) d1).
      { eapply Forall_impl; [exact Hd1|]. simpl. intros e [He|[He|He]]; auto. }
      destruct (negb (negb (Z.land (deviceFlags dev) NonBlocking =? 0))).
      * exists st1, reads, [read_ok ev], c1, d1. simpl.
        split; [reflexivity|]. split; [reflexivity|].
        split; [assumption|]. split; [assumption|]. split; [congruence|].
        repeat split; auto.
      * destruct (IH st1 c1 Hc1 Hok1 ltac:(congruence))
          as (st2 & rest & pre & c2 & d2 & Hrun2 & Hpre & Hc2 & Hok2 & Him2
              & Hother2 & Hmap2 & Hact2 & Hdev2 & Hvd2 & Hfr2 & Htr2 & Hcalls2 & Hd2).
        exists st2, rest, (read_ok ev :: pre), c2, (d1 ++ d2).
        split; [exact Hrun2|]. split; [simpl; congruence|].
        split; [assumption|]. split; [assumption|]. split; [assumption|].
        split; [intros h' Hne; rewrite Hother2, Hother; auto|].
        split; [congruence|]. split; [congruence|]. split; [congruence|].
        split; [congruence|].
        split; [simpl records; rewrite demux_rest_cons, <- Hfr1; exact Hfr2|].
        split; [rewrite Htr2, Htr1, app_assoc; reflexivity|].
        split.
        2:{ apply Forall_app. split; [assumption|].
            eapply Forall_impl; [exact Hd2|]. simpl. intros e He.
            rewrite <- Hdev1. exact He. }
        simpl records. rewrite frame_calls_app, demux_calls_cons.
        rewrite Hcalls1, Hcalls2, Hvd1, Hfr1. reflexivity.
    + destruct (on_read_failure_spec errno h dev st c Hc Hn)
        as (st1 & c1 & d1 & Hrun & Hconns & Hbuf1 & Him1 & Hn1 & Hmap1 & Hact1
            & Hdev1 & Hvd1 & Htr1 & Hd1).
      rewrite Hrun. simpl.
      assert (Hh : (h < length (conns st))%nat)
        by (eapply lookup_lt_Some; eassumption).
      exists st1, reads, [read_fail errno], c1, d1. simpl.
      split; [reflexivity|]. split; [reflexivity|].
      split; [rewrite Hconns; apply list_lookup_insert_eq; assumption|].
      split; [unfold conn_ok; rewrite Hbuf1, Him1, Hmap1; repeat split; eauto|].
      split; [congruence|].
      split; [intros h' Hne; rewrite Hconns; apply list_lookup_insert_ne; auto|].
      split; [congruence|]. split; [assumption|]. split; [assumption|].
      split; [assumption|]. split; [rewrite Hbuf1; reflexivity|].
      split; [assumption|].
      subst d1. split.
      * destruct (negb (errno =? EAGAIN) && _); reflexivity.
      * destruct (negb (errno =? EAGAIN)
                  && negb (anySpotlightDeviceConnected st)) eqn:Hcond;
          [|constructor].
        constructor; [|constructor]. right; right; right.
        split; [reflexivity|].
        apply andb_true_iff in Hcond as [_ Hnone].
        unfold anySpotlightDeviceConnected in Hnone.
        destruct (m_device st); [discriminate|reflexivity].
Qed.


(** *** The invariant of the connected callbacks *)

Lemma conn_ok_mono n n' c : (n ≤ n')%nat → conn_ok n c → conn_ok n' c.
Proof.
  intros Hle (Hlen & Hpos & (m & Hm & Hlt) & Hn).
  repeat split; auto. exists m; split; [assumption|lia].
Qed.

(** Giving up a connection closes at most one descriptor and changes
    nothing else. *)
Lemma release_connection_cases c st :
  release_connection c st = st
  ∨ ∃ descriptor, release_connection c st = emit st (call_close descriptor).
Proof.
  unfold release_connection. destruct c as [h|]; [|auto].
  destruct (captured st h); [auto|].
  destruct (conns st !! h) as [conn|]; [|auto].
  destruct (notifier conn) as [n|]; eauto.
Qed.

Lemma release_connection_same c st :
  conns (release_connection c st) = conns st
  ∧ mappers (release_connection c st) = mappers st
  ∧ activated (release_connection c st) = activated st
  ∧ m_device (release_connection c st) = m_device st
  ∧ m_virtualDevice (release_connection c st) = m_virtualDevice st
  ∧ pending (release_connection c st) = pending st
  ∧ ∃ closes, trace (release_connection c st) = trace st ++ closes
              ∧ Forall (fun e => ∃ descriptor, e = call_close descriptor) closes.
Proof.
  destruct (release_connection_cases c st) as [->|(descriptor & ->)].
  - repeat split. exists []. rewrite app_nil_r. split; [reflexivity|constructor].
  - repeat split. exists [call_close descriptor]. split; [reflexivity|].
    constructor; [eauto|constructor].
Qed.

Lemma release_subDevices_same subs st :
  conns (release_subDevices subs st) = conns st
  ∧ mappers (release_subDevices subs st) = mappers st
  ∧ activated (release_subDevices subs st) = activated st
  ∧ m_device (release_subDevices subs st) = m_device st
  ∧ m_virtualDevice (release_subDevices subs st) = m_virtualDevice st
  ∧ pending (release_subDevices subs st) = pending st
  ∧ ∃ closes, trace (release_subDevices subs st) = trace st ++ closes
              ∧ Forall (fun e => ∃ descriptor, e = call_close descriptor) closes.
Proof.
  induction subs as [|subdev subs IH]; simpl.
  - repeat split. exists []. rewrite app_nil_r. split; [reflexivity|constructor].
  - destruct IH as (A1 & A2 & A3 & A4 & A5 & A6 & c1 & At & Ac).
    destruct (release_connection_same (connection subdev)
                (release_subDevices subs st))
      as (B1 & B2 & B3 & B4 & B5 & B6 & c2 & Bt & Bc).
    split; [congruence|]. split; [congruence|]. split; [congruence|].
    split; [congruence|]. split; [congruence|]. split; [congruence|].
    exists (c1 ++ c2). split; [rewrite Bt, At, app_assoc; reflexivity|].
    apply Forall_app. split; assumption.
Qed.

Lemma release_device_same d st :
  conns (release_device d st) = conns st
  ∧ mappers (release_device d st) = mappers st
  ∧ activated (release_device d st) = activated st
  ∧ m_device (release_device d st) = m_device st
  ∧ m_virtualDevice (release_device d st) = m_virtualDevice st
  ∧ pending (release_device d st) = pending st
  ∧ ∃ closes, trace (release_device d st) = trace st ++ closes
              ∧ Forall (fun e => ∃ descriptor, e = call_close descriptor) closes.
Proof.
  destruct d as [d|]; simpl; [apply release_subDevices_same|].
  repeat split. exists []. rewrite app_nil_r. split; [reflexivity|constructor].
Qed.

(** Which descriptors are closed: those watched by the notifiers of the
    connections given up that no callback holds. *)
Lemma release_connection_closes c st :
  ∃ closes, trace (release_connection c st) = trace st ++ closes
    ∧ ∀ e, e ∈ closes
           ↔ ∃ h conn n, c = Some h ∧ captured st h = false
                         ∧ conns st !! h = Some conn ∧ notifier conn = Some n
                         ∧ e = call_close (socket n).
Proof.
  assert (Hnil : (∀ e, ¬ ∃ h conn n, c = Some h ∧ captured st h = false
                         ∧ conns st !! h = Some conn ∧ notifier conn = Some n
                         ∧ e = call_close (socket n)) →
                 ∃ closes, trace st = trace st ++ closes
                   ∧ ∀ e, e ∈ closes
                          ↔ ∃ h conn n, c = Some h ∧ captured st h = false
                              ∧ conns st !! h = Some conn
                              ∧ notifier conn = Some n
                              ∧ e = call_close (socket n)).
  { intros Hno. exists []. rewrite app_nil_r. split; [reflexivity|].
    intros e. split; [intros Hin; apply elem_of_nil in Hin; destruct Hin|].
    intros Hex. destruct (Hno e Hex). }
  unfold release_connection. destruct c as [h|].
  2:{ apply Hnil. intros e (h & conn & n & Hc & _). discriminate. }
  destruct (captured st h) eqn:Hcap.
  { apply Hnil. intros e (h' & conn & n & [= <-] & Hc & _). congruence. }
  destruct (conns st !! h) as [conn|] eqn:Hconn.
  2:{ apply Hnil. intros e (h' & conn & n & [= <-] & _ & Hc & _). congruence. }
  destruct (notifier conn) as [n|] eqn:Hn.
  2:{ apply Hnil. intros e (h' & conn' & n & [= <-] & _ & Hc & Hn' & _).
      congruence. }
  exists [call_close (socket n)]. split; [reflexivity|].
  intros e. rewrite list_elem_of_singleton. split.
  - intros ->. exists h, conn, n. auto.
  - intros (h' & conn' & n' & [= <-] & _ & Hc & Hn' & ->). congruence.
Qed.

Lemma release_subDevices_closes subs st :
  ∃ closes, trace (release_subDevices subs st) = trace st ++ closes
    ∧ ∀ e, e ∈ closes
           ↔ ∃ sd h conn n, sd ∈ subs ∧ connection sd = Some h
                            ∧ captured st h = false
                            ∧ conns st !! h = Some conn
                            ∧ notifier conn = Some n
                            ∧ e = call_close (socket n).
Proof.
  induction subs as [|subdev subs (c1 & Ht1 & Hc1)]; simpl.
  - exists []. rewrite app_nil_r. split; [reflexivity|].
    intros e. split; [intros Hin; apply elem_of_nil in Hin; destruct Hin|].
    intros (sd & h & conn & n & Hin & _). apply elem_of_nil in Hin. destruct Hin.
  - destruct (release_connection_closes (connection subdev)
                (release_subDevices subs st)) as (c2 & Ht2 & Hc2).
    destruct (release_subDevices_same subs st) as (Sc & _ & Sa & _).
    exists (c1 ++ c2). split; [rewrite Ht2, Ht1, app_assoc; reflexivity|].
    intros e. rewrite elem_of_app, Hc1, Hc2. unfold captured.
    rewrite Sc, Sa. split.
    + intros [(sd & h & conn & n & Hin & Hrest)
             |(h & conn & n & Hrest)].
      * exists sd, h, conn, n. split; [apply list_elem_of_further, Hin|exact Hrest].
      * exists subdev, h, conn, n. split; [apply list_elem_of_here|exact Hrest].
    + intros (sd & h & conn & n & Hin & Hrest).
      apply elem_of_cons in Hin as [->|Hin].
      * right. exists h, conn, n. exact Hrest.
      * left. exists sd, h, conn, n. auto.
Qed.

(** [handlers_ok] only looks at three components of the state, and it
    survives when the two stores grow at their ends. *)
Lemma handlers_ok_grow st st' l1 l2 :
  conns st' = conns st ++ l1 → mappers st' = mappers st ++ l2 →
  activated st' = activated st →
  handlers_ok st → handlers_ok st'.
Proof.
  intros Hconns Hmap Hact Hok. unfold handlers_ok in *. rewrite Hact.
  eapply Forall_impl; [exact Hok|]. simpl. intros cb (c & Hc & Hcok).
  exists c. split.
  - rewrite Hconns. apply lookup_app_l_Some. assumption.
  - eapply conn_ok_mono; [|exact Hcok]. rewrite Hmap, length_app. lia.
Qed.

Lemma openEventSubDeviceConnection_grow os subdev st subdev' h st' :
  openEventSubDeviceConnection os subdev st = (subdev', h, st') →
  h = length (conns st)
  ∧ (∃ cnew, conns st' = conns st ++ [cnew]
             ∧ inputBuffer cnew = new_InputBuffer)
  ∧ mappers st' = mappers st ∧ activated st' = activated st
  ∧ m_device st' = m_device st.
Proof.
  unfold openEventSubDeviceConnection.
  destruct (sys_open os (DeviceFile subdev) ReadOnly <? 0).
  - intros [= <- <- <-]. simpl. repeat split; eauto.
  - destruct (sys_EVIOCGBIT_ev os _) as [bitmask|].
    + destruct (m_virtualDevice _); [destruct (sys_EVIOCGRAB os _ =? 0)|];
        intros [= <- <- <-]; simpl; repeat split; eauto.
    + intros [= <- <- <-]. simpl. repeat split; eauto.
Qed.

Lemma openHidrawSubDeviceConnection_grow os subdev st subdev' h st' :
  openHidrawSubDeviceConnection os subdev st = (subdev', h, st') →
  h = length (conns st)
  ∧ (∃ cnew, conns st' = conns st ++ [cnew])
  ∧ mappers st' = mappers st ∧ activated st' = activated st
  ∧ m_device st' = m_device st.
Proof.
  unfold openHidrawSubDeviceConnection.
  destruct (sys_open os (DeviceFile subdev) ReadWrite <? 0);
    intros [= <- <- <-]; simpl; repeat split; eauto.
Qed.

Lemma handlers_ok_same st st' :
  conns st' = conns st → mappers st' = mappers st →
  activated st' = activated st →
  handlers_ok st → handlers_ok st'.
Proof.
  intros Hc Hm Ha. apply (handlers_ok_grow st st' [] []);
    rewrite ?app_nil_r; assumption.
Qed.

Lemma ConnectEventSubDevices_body_ok os d subdev st subdev' st' counted m :
  ConnectEventSubDevices_body os d subdev st = (subdev', st', counted) →
  eventIM d = Some m → (m < length (mappers st))%nat →
  handlers_ok st →
  handlers_ok st' ∧ mappers st' = mappers st ∧ m_device st' = m_device st.
Proof.
  unfold ConnectEventSubDevices_body. intros Hbody Him Hm Hok.
  destruct (event_candidate subdev);
    [|injection Hbody as <- <- <-; auto].
  destruct (notifier_enabled st (connection subdev));
    [injection Hbody as <- <- <-; auto|].
  destruct (openEventSubDeviceConnection os subdev st) as [[subdev1 h] st1] eqn:Hopen.
  apply openEventSubDeviceConnection_grow in Hopen
    as (-> & (cnew & Hconns & Hbuf) & Hmap & Hact & Hdev).
  destruct (release_connection_same (connection subdev) st1)
    as (Rc & Rm & Ra & Rd & _).
  rewrite <- Rc in Hconns. rewrite <- Rm in Hmap. rewrite <- Ra in Hact.
  rewrite <- Rd in Hdev. clear Rc Rm Ra Rd.
  set (st1r := release_connection (connection subdev) st1) in *.
  clearbody st1r. clear st1. rename st1r into st1.
  set (st2 := set_conns st1 _) in Hbody.
  assert (Hconns2 : conns st2 = conns st ++ [set_im cnew (eventIM d)]).
  { subst st2. simpl. rewrite Hconns.
    rewrite <- (Nat.add_0_r (length (conns st))) at 1.
    rewrite alter_app_r. reflexivity. }
  assert (Hmap2 : mappers st2 = mappers st) by exact Hmap.
  assert (Hact2 : activated st2 = activated st) by exact Hact.
  assert (Hdev2 : m_device st2 = m_device st) by exact Hdev.
  clearbody st2.
  assert (Hok2 : handlers_ok st2).
  { eapply (handlers_ok_grow st st2 _ []); eauto.
    rewrite app_nil_r. exact Hmap2. }
  destruct (notifier_enabled st2 (Some (length (conns st)))) eqn:Hen.
  - unfold addInputEventHandler in Hbody.
    cbn [connection set_connection type] in Hbody.
    rewrite Hen in Hbody.
    destruct (is_Event (type subdev1)); cbn [negb orb] in Hbody;
      injection Hbody as <- <- <-; simpl; [|auto].
    split; [|auto].
    unfold handlers_ok. simpl. apply Forall_app. split; [exact Hok2|].
    constructor; [|constructor]. simpl.
    exists (set_im cnew (eventIM d)). split.
    + rewrite Hconns2. apply list_lookup_middle. reflexivity.
    + unfold notifier_enabled in Hen. rewrite Hconns2 in Hen.
      rewrite list_lookup_middle in Hen by reflexivity. simpl in Hen.
      unfold conn_ok. simpl. rewrite Hbuf, Him, Hmap2. simpl.
      repeat split; [unfold InputBuffer_Size; lia | eauto |].
      destruct (notifier cnew); [eauto | discriminate].
  - injection Hbody as <- <- <-. simpl. auto.
Qed.

Lemma ConnectEventSubDevices_loop_ok os d subs st n subs' st' n' m :
  ConnectEventSubDevices_loop os d subs st n = (subs', st', n') →
  eventIM d = Some m → (m < length (mappers st))%nat →
  handlers_ok st →
  handlers_ok st' ∧ mappers st' = mappers st ∧ m_device st' = m_device st.
Proof.
  revert st n subs' st' n'.
  induction subs as [|subdev subs IH]; intros st n subs' st' n' Hloop Him Hm Hok.
  - injection Hloop as <- <- <-. auto.
  - cbn [ConnectEventSubDevices_loop] in Hloop.
    destruct (ConnectEventSubDevices_body os d subdev st)
      as [[subdev1 st1] counted] eqn:Hbody.
    destruct (ConnectEventSubDevices_loop os d subs st1 _)
      as [[rest st2] n2] eqn:Hrest.
    injection Hloop as <- <- <-.
    destruct (ConnectEventSubDevices_body_ok _ _ _ _ _ _ _ _ Hbody Him Hm Hok)
      as (Hok1 & Hmap1 & Hdev1).
    destruct (IH _ _ _ _ _ Hrest Him ltac:(rewrite Hmap1; assumption) Hok1)
      as (Hok2 & Hmap2 & Hdev2).
    split; [assumption|]. split; congruence.
Qed.

Lemma ConnectHidrawSubDevices_loop_ok os d subs st subs' st' n node :
  ConnectHidrawSubDevices_loop os d subs st = (subs', st', n, node) →
  handlers_ok st →
  handlers_ok st' ∧ mappers st' = mappers st ∧ m_device st' = m_device st.
Proof.
  revert st subs' st' n node.
  induction subs as [|subdev subs IH]; intros st subs' st' n node Hloop Hok.
  - injection Hloop as <- <- <- <-. auto.
  - cbn [ConnectHidrawSubDevices_loop] in Hloop.
    destruct (is_Hidraw (type subdev) && DeviceWritable subdev
              && DeviceReadable subdev
              && (0 <? String.length (DeviceFile subdev))%nat).
    + destruct (openHidrawSubDeviceConnection os subdev st)
        as [[subdev1 h] st1] eqn:Hopen.
      apply openHidrawSubDeviceConnection_grow in Hopen
        as (-> & (cnew & Hconns) & Hmap & Hact & Hdev).
      destruct (release_connection_same (connection subdev) st1)
        as (Rc & Rm & Ra & Rd & _).
      rewrite <- Rc in Hconns. rewrite <- Rm in Hmap. rewrite <- Ra in Hact.
      rewrite <- Rd in Hdev. clear Rc Rm Ra Rd.
      set (st1r := release_connection (connection subdev) st1) in *.
      clearbody st1r. clear st1. rename st1r into st1.
      assert (Hok1 : handlers_ok st1).
      { eapply (handlers_ok_grow st st1 _ []); eauto.
        rewrite app_nil_r. exact Hmap. }
      destruct (notifier_enabled st1 _ && _).
      * unfold addInputHidrawHandler in Hloop. simpl in Hloop.
        destruct (negb (is_Hidraw (type subdev1)) || _).
        -- destruct (ConnectHidrawSubDevices_loop os d subs _)
             as [[[rest st2] n2] node2] eqn:Hrest.
           injection Hloop as <- <- <- <-.
           apply IH in Hrest as (Hok2 & Hmap2 & Hdev2); [|exact Hok1].
           split; [assumption|]. simpl in *. split; congruence.
        -- injection Hloop as <- <- <- <-. auto.
      * destruct (ConnectHidrawSubDevices_loop os d subs _)
          as [[[rest st2] n2] node2] eqn:Hrest.
        injection Hloop as <- <- <- <-.
        apply IH in Hrest as (Hok2 & Hmap2 & Hdev2); [|exact Hok1].
        split; [assumption|]. simpl in *. split; congruence.
    + destruct (ConnectHidrawSubDevices_loop os d subs st)
        as [[[rest st2] n2] node2] eqn:Hrest.
      injection Hloop as <- <- <- <-.
      apply IH in Hrest; assumption.
Qed.

Lemma connectSubDevices_ok os st n st' m :
  connectSubDevices os st = (n, st') →
  (∀ d, m_device st = Some d → eventIM d = Some m) →
  (m < length (mappers st))%nat →
  handlers_ok st →
  handlers_ok st' ∧ mappers st' = mappers st.
Proof.
  unfold connectSubDevices. intros Hrun Him Hm Hok.
  destruct (m_device st) as [d|] eqn:Hdev; [|injection Hrun as <- <-; auto].
  destruct (length (subDevices d) =? 0)%nat; [injection Hrun as <- <-; auto|].
  unfold ConnectEventSubDevices in Hrun. rewrite Hdev in Hrun.
  destruct (ConnectEventSubDevices_loop os d (subDevices d) st 0)
    as [[subs1 st1] n1] eqn:Hev.
  destruct (ConnectEventSubDevices_loop_ok _ _ _ _ _ _ _ _ _ Hev (Him d eq_refl) Hm Hok)
    as (Hok1 & Hmap1 & Hdev1).
  unfold ConnectHidrawSubDevices in Hrun. simpl in Hrun.
  destruct (ConnectHidrawSubDevices_loop os _ _ _)
    as [[[subs2 st2] n2] node] eqn:Hhid.
  apply ConnectHidrawSubDevices_loop_ok in Hhid as (Hok2 & Hmap2 & Hdev2);
    [|exact Hok1].
  simpl in Hmap2.
  destruct ((0 <? n1) && (0 <? n2)); injection Hrun as <- <-; simpl;
    (split; [exact Hok2 | congruence]).
Qed.

(** The state [select_device] yields: the stores of connections and of
    callbacks are those of before, there is one more input mapper, and the
    device chosen points to it. *)
Lemma select_device_spec tree i st st1 :
  select_device tree i st = Some st1 →
  conns st1 = conns st ∧ activated st1 = activated st
  ∧ (∃ closes, trace st1 = trace st ++ closes
               ∧ Forall (fun e => ∃ descriptor, e = call_close descriptor) closes
               ∧ (vendorId i = 0 ∨ productId i = 0 → closes = []))
  ∧ pending st1 = pending st
  ∧ m_virtualDevice st1 = m_virtualDevice st
  ∧ mappers st1 = mappers st ++ [InputMapper_new (m_virtualDevice st)]
  ∧ ∃ d, m_device st1 = Some d ∧ eventIM d = Some (length (mappers st))
         ∧ (vendorId i = 0 ∨ productId i = 0 →
            ∀ d0, m_device st = Some d0 →
                  d = set_eventIM d0 (Some (length (mappers st)))).
Proof.
  unfold select_device.
  destruct (devices (scanForDevices tree (m_additionalDevices st)))
    as [|first others]; [discriminate|].
  set (found := List.find _ (first :: others)). clearbody found.
  set (st_a := if negb (vendorId i =? 0) && negb (productId i =? 0)
               then match found with
                    | Some dev =>
                        release_device (m_device st) (set_m_device st (Some dev))
                    | None => st
                    end
               else st).
  assert (Ha : conns st_a = conns st ∧ mappers st_a = mappers st
               ∧ activated st_a = activated st
               ∧ m_virtualDevice st_a = m_virtualDevice st
               ∧ pending st_a = pending st
               ∧ (∃ closes, trace st_a = trace st ++ closes
                    ∧ Forall (fun e => ∃ descriptor, e = call_close descriptor)
                             closes
                    ∧ (vendorId i = 0 ∨ productId i = 0 → closes = []))
               ∧ (vendorId i = 0 ∨ productId i = 0 → st_a = st)).
  { subst st_a.
    destruct (negb (vendorId i =? 0) && negb (productId i =? 0)) eqn:Hid.
    - assert (Hnz : ¬ (vendorId i = 0 ∨ productId i = 0)).
      { apply andb_true_iff in Hid as [Hv Hp].
        apply negb_true_iff, Z.eqb_neq in Hv, Hp. tauto. }
      destruct found as [dev|].
      + destruct (release_device_same (m_device st) (set_m_device st (Some dev)))
          as (A1 & A2 & A3 & _ & A5 & A6 & closes & At & Ac).
        repeat split; try assumption; [|tauto].
        exists closes. repeat split; [exact At|exact Ac|tauto].
      + repeat split. exists []. rewrite app_nil_r. repeat split. constructor.
    - repeat split. exists []. rewrite app_nil_r. repeat split. constructor. }
  clearbody st_a.
  destruct Ha as (Hc & Hm & Hact & Hvd & Hp & Htr & Hzero).
  intros [= <-].
  destruct (m_device st_a) as [da|] eqn:Hda; cbn; rewrite ?Hda; cbn;
    rewrite ?Hc, ?Hm, ?Hact, ?Hvd, ?Hp;
    (split; [reflexivity|]); (split; [reflexivity|]); (split; [exact Htr|]);
    (split; [reflexivity|]); (split; [reflexivity|]); (split; [reflexivity|]);
    eexists; (split; [reflexivity|]); (split; [reflexivity|]);
    intros Hz d0 Hd0; rewrite (Hzero Hz) in Hda; congruence.
Qed.

(** [connectDevice] keeps the invariant of the connected callbacks. *)
Lemma connectDevice_handlers_ok tree os i st :
  handlers_ok st → handlers_ok (connectDevice tree os i st).2.
Proof.
  intros Hok. unfold connectDevice.
  destruct (select_device tree i st) as [st1|] eqn:Hsel; [|exact Hok].
  apply select_device_spec in Hsel
    as (Hc1 & Ha1 & _ & _ & _ & Hm1 & d & Hd & Him & _).
  assert (Hok1 : handlers_ok st1).
  { apply (handlers_ok_grow st st1 [] [InputMapper_new (m_virtualDevice st)]);
      rewrite ?app_nil_r; auto. }
  destruct (connectSubDevices os st1) as [n st2] eqn:Hsub.
  assert (Him1 : ∀ d', m_device st1 = Some d'
                       → eventIM d' = Some (length (mappers st)))
    by (intros d' Hd'; congruence).
  assert (Hlt : (length (mappers st) < length (mappers st1))%nat)
    by (rewrite Hm1, length_app; simpl; lia).
  destruct (connectSubDevices_ok os st1 n st2 _ Hsub Him1 Hlt Hok1) as (Hok2 & _).
  destruct (0 <? n); [|exact Hok2].
  destruct (m_device st2); [|exact Hok2].
  destruct (negb (anySpotlightDeviceConnected st)); exact Hok2.
Qed.

(** A notifier activation keeps the invariant. *)
Lemma deliver_activated_handlers_ok k reads st :
  handlers_ok st →
  ∃ st' rest, deliver_activated k reads st = Some (st', rest)
              ∧ handlers_ok st'.
Proof.
  intros Hok. unfold deliver_activated.
  destruct (activated st !! k) as [[h dev]|] eqn:Hk; [|eauto].
  destruct (notifier_enabled st (Some h)); [|eauto].
  pose proof Hok as Hall. unfold handlers_ok in Hall.
  rewrite Forall_forall in Hall.
  destruct (Hall (h, dev)) as (c & Hc & Hcok);
    [eapply list_elem_of_lookup_2; eassumption|]. simpl in Hc.
  pose proof Hcok as (_ & _ & (m & Him & _) & _).
  destruct (handler_spec reads h dev st c m Hc Hcok Him)
    as (st' & rest & pre & c' & delta & Hrun & _ & Hc' & Hcok' & _ & Hother
        & Hmap & Hact & _).
  exists st', rest. split; [exact Hrun|].
  unfold handlers_ok. rewrite Hact. apply Forall_forall.
  intros [h' dev'] Hin. simpl.
  destruct (decide (h' = h)) as [->|Hne].
  - exists c'. auto.
  - destruct (Hall (h', dev') Hin) as (c'' & Hc'' & Hcok''). simpl in Hc''.
    exists c''. rewrite Hother by assumption. rewrite Hmap. auto.
Qed.

Lemma removeSubDeviceConnection_same fuel file st st' :
  removeSubDeviceConnection fuel file st = Some st' →
  conns st' = conns st ∧ mappers st' = mappers st
  ∧ activated st' = activated st
  ∧ ∃ closes, trace st' = trace st ++ closes
              ∧ Forall (fun e => ∃ descriptor, e = call_close descriptor) closes.
Proof.
  unfold removeSubDeviceConnection.
  assert (Hnil : ∃ closes, trace st = trace st ++ closes
                   ∧ Forall (fun e => ∃ descriptor, e = call_close descriptor)
                            closes).
  { exists []. rewrite app_nil_r. split; [reflexivity|constructor]. }
  destruct (m_device st) as [d|]; [|intros [= <-]; auto].
  destruct (length (subDevices d) =? 0)%nat; [intros [= <-]; auto|].
  destruct (removeSubDeviceConnection_loop fuel file (subDevices d) 0)
    as [[erased subs]|]; simpl; [|discriminate].
  intros [= <-].
  destruct (release_connection_same (erased ≫= connection)
              (set_m_device st (Some (set_subDevices d subs))))
    as (A1 & A2 & A3 & _ & _ & _ & Ht).
  auto.
Qed.

Lemma sendDatatoDevice_same os data len st :
  conns (sendDatatoDevice os data len st).2 = conns st
  ∧ mappers (sendDatatoDevice os data len st).2 = mappers st
  ∧ activated (sendDatatoDevice os data len st).2 = activated st.
Proof.
  unfold sendDatatoDevice. destruct (m_device st) as [d|]; [|auto].
  destruct (negb (hidrwNode d =? 0)); [|auto]. simpl.
  destruct (sys_write os _ _ <? 0); auto.
Qed.

(** Every state the object can be in satisfies the invariant. *)
Lemma reachable_handlers_ok st : reachable st → handlers_ok st.
Proof.
  intros (additional & vd & Hrtc). revert st Hrtc.
  apply (rtc_ind_r (fun st => handlers_ok st)).
  - constructor.
  - intros st1 st2 _ Hstep IH.
    destruct Hstep as [tree os i st1|k reads st1 st2 rest Hrun|st1 Htimer
                       |fuel st1 st2 Hrun|os strength st1].
    + apply connectDevice_handlers_ok, IH.
    + destruct (deliver_activated_handlers_ok k reads st1 IH)
        as (st2' & rest' & Hrun' & Hok').
      rewrite Hrun in Hrun'. injection Hrun' as <- <-. exact Hok'.
    + exact IH.
    + unfold run_pending in Hrun. destruct (pending st1) as [|file rest].
      * injection Hrun as <-. exact IH.
      * apply removeSubDeviceConnection_same in Hrun as (Hc & Hm & Ha & _).
        eapply handlers_ok_same; [exact Hc|exact Hm|exact Ha|]. exact IH.
    + unfold vibrateDevice.
      destruct (sendDatatoDevice_same os (vibration_data strength) 7 st1)
        as (Hc & Hm & Ha).
      eapply handlers_ok_same; [exact Hc|exact Hm|exact Ha|]. exact IH.
Qed.



(** The loop body when the record read fills the last slot and is not a
    synchronization marker. *)
Lemma on_read_success_overflow ev h st c m mapper :
  conns st !! h = Some c →
  S (pos_ (inputBuffer c)) = size (inputBuffer c) →
  im c = Some m → mappers st !! m = Some mapper →
  ie_type ev ≠ EV_SYN →
  ∃ st' c',
    on_read_success ev h st = Some st'
    ∧ trace st' = trace st ++ [log LogWarning msg_discarded; call_resetState m]
    ∧ mappers st' = <[m := resetState mapper]> (mappers st)
    ∧ conns st' !! h = Some c'
    ∧ pos_ (inputBuffer c') = 0%nat.
Proof.
  intros Hc Hfull Him Hmapper Hsyn.
  unfold on_read_success. rewrite Hc. simpl.
  apply Z.eqb_neq in Hsyn. rewrite Hsyn.
  unfold size in *. simpl. rewrite length_insert, <- Hfull, Nat.leb_refl.
  rewrite Him. simpl. rewrite Hmapper. simpl.
  eexists _, _. split; [reflexivity|]. simpl.
  split; [rewrite <- app_assoc; reflexivity|]. split; [reflexivity|].
  split; [apply list_lookup_insert_eq; eapply lookup_lt_Some; eassumption|].
  reflexivity.
Qed.


(** C5: in every state the object can be in, a notifier activation runs
    the handler to its end whatever the reads yield (the bounds check of
    [current()] never fails, no null pointer is used); the write position
    of every connected buffer is below the size of its array; and when a
    record that is not a synchronization marker fills the last slot, the
    handler logs the warning, calls [resetState] on the connection's
    recorder and sets the write position to zero. *)
Theorem demux_buffer_never_overflows
    (st : Spotlight) (k : nat) (reads : list read_result) :
  reachable st →
  (∃ st' rest, deliver_activated k reads st = Some (st', rest)
               ∧ reachable st')
  ∧ (∀ h dev, activated st !! k = Some (h, dev) →
       ∃ c, conns st !! h = Some c
            ∧ size (inputBuffer c) = InputBuffer_Size
            ∧ (pos_ (inputBuffer c) < size (inputBuffer c))%nat
            ∧ is_Some (current (inputBuffer c))
            ∧ ∀ ev, S (pos_ (inputBuffer c)) = size (inputBuffer c) →
                    ie_type ev ≠ EV_SYN →
                    ∃ st' c' m,
                      on_read_success ev h st = Some st'
                      ∧ im c = Some m
                      ∧ trace st' = trace st
                                    ++ [log LogWarning msg_discarded; call_resetState m]
                      ∧ mappers st' = alter resetState m (mappers st)
                      ∧ conns st' !! h = Some c'
                      ∧ pos_ (inputBuffer c') = 0%nat).
Proof.
  intros Hreach. pose proof (reachable_handlers_ok st Hreach) as Hok. split.
  - destruct (deliver_activated_handlers_ok k reads st Hok)
      as (st' & rest & Hrun & _).
    exists st', rest. split; [assumption|].
    destruct Hreach as (additional & vd & Hrtc). exists additional, vd.
    eapply rtc_r; [exact Hrtc|]. eapply step_activated. exact Hrun.
  - intros h dev Hk. unfold handlers_ok in Hok. rewrite Forall_forall in Hok.
    destruct (Hok (h, dev)) as (c & Hc & Hlen & Hpos & (m & Him & Hm) & Hn);
      [eapply list_elem_of_lookup_2; eassumption|]. simpl in Hc.
    exists c. unfold size. rewrite Hlen.
    split; [assumption|]. split; [reflexivity|]. split; [assumption|].
    split; [apply lookup_lt_is_Some_2; rewrite Hlen; assumption|].
    intros ev Hfull Hsyn.
    destruct (lookup_lt_is_Some_2 (mappers st) m Hm) as [mapper Hmapper].
    destruct (on_read_success_overflow ev h st c m mapper Hc
                ltac:(unfold size; rewrite Hlen; exact Hfull) Him Hmapper Hsyn)
      as (st' & c' & Hrun & Htr & Hmap & Hc' & Hpos').
    exists st', c', m. repeat (split; [assumption|]).
    split; [|auto]. rewrite Hmap. symmetry. apply alter_as_insert. assumption.
Qed.

End DemuxProofs.

(* ================================================================== *)
(** * Properties of the connection manager *)

Section ManagerProofs.
Context `{Externals} `{InputMapperModel}.

Lemma hidraw_effect_connection e :
  is_hidraw_effect e = true → is_connection_effect e = true.
Proof. destruct e; try discriminate; reflexivity. Qed.

Lemma hidraw_effect_not_new e :
  is_hidraw_effect e = true → is_new_connection e = false.
Proof. destruct e as [| | | | | | | ? [] ?| | | | |]; try discriminate; reflexivity. Qed.

Lemma closes_are_connection_effects closes :
  Forall (fun e => ∃ descriptor, e = call_close descriptor) closes →
  Forall (fun e => is_connection_effect e = true) closes
  ∧ Forall (fun e => is_hidraw_effect e = true) closes.
Proof.
  intros Hc. split; (eapply Forall_impl; [exact Hc|]);
    intros e (descriptor & ->); reflexivity.
Qed.

Lemma openEventSubDeviceConnection_trace os subdev st subdev' h st' :
  openEventSubDeviceConnection os subdev st = (subdev', h, st') →
  ∃ delta, trace st' = trace st ++ delta
           ∧ Forall (fun e => is_connection_effect e = true) delta.
Proof.
  unfold openEventSubDeviceConnection.
  destruct (sys_open os (DeviceFile subdev) ReadOnly <? 0).
  - intros [= <- <- <-]. simpl. eexists. rewrite <- app_assoc.
    split; [reflexivity|]. delta_effects.
  - destruct (sys_EVIOCGBIT_ev os _) as [bitmask|].
    + destruct (m_virtualDevice _); [destruct (sys_EVIOCGRAB os _ =? 0)|];
        intros [= <- <- <-]; simpl; eexists; rewrite <- ?app_assoc;
        (split; [reflexivity|]); delta_effects.
    + intros [= <- <- <-]. simpl. eexists. rewrite <- !app_assoc.
      split; [reflexivity|]. delta_effects.
Qed.

Lemma openHidrawSubDeviceConnection_trace os subdev st subdev' h st' :
  openHidrawSubDeviceConnection os subdev st = (subdev', h, st') →
  type subdev' = type subdev
  ∧ ∃ delta, trace st' = trace st ++ delta
             ∧ Forall (fun e => is_hidraw_effect e = true) delta.
Proof.
  unfold openHidrawSubDeviceConnection.
  destruct (sys_open os (DeviceFile subdev) ReadWrite <? 0);
    intros [= <- <- <-]; simpl.
  - split; [reflexivity|]. eexists. rewrite <- app_assoc.
    split; [reflexivity|]. delta_effects.
  - split; [unfold or_flag; destruct (sys_nonblock os _); reflexivity|].
    eexists. split; [reflexivity|]. delta_effects.
Qed.

Lemma ConnectEventSubDevices_body_trace os d subdev st subdev' st' counted :
  ConnectEventSubDevices_body os d subdev st = (subdev', st', counted) →
  ∃ delta, trace st' = trace st ++ delta
           ∧ Forall (fun e => is_connection_effect e = true) delta.
Proof.
  unfold ConnectEventSubDevices_body. intros Hbody.
  destruct (event_candidate subdev);
    [|injection Hbody as <- <- <-; exists []; rewrite app_nil_r; auto].
  destruct (notifier_enabled st (connection subdev));
    [injection Hbody as <- <- <-; exists []; rewrite app_nil_r; auto|].
  destruct (openEventSubDeviceConnection os subdev st) as [[subdev1 h] st1] eqn:Hopen.
  apply openEventSubDeviceConnection_trace in Hopen as (d1 & Htr1 & Hd1).
  destruct (release_connection_same (connection subdev) st1)
    as (_ & _ & _ & _ & _ & _ & closes & Rt & Rc).
  apply closes_are_connection_effects in Rc as [Rc _].
  rewrite Htr1, <- app_assoc in Rt.
  assert (Hd1' : Forall (fun e => is_connection_effect e = true) (d1 ++ closes))
    by (apply Forall_app; split; assumption).
  clear Htr1 Hd1 Rc.
  set (st1r := release_connection (connection subdev) st1) in *.
  set (d1r := d1 ++ closes) in *.
  clearbody st1r d1r. clear st1 d1. rename st1r into st1. rename d1r into d1.
  rename Rt into Htr1. rename Hd1' into Hd1.
  set (st2 := set_conns st1 _) in Hbody.
  assert (Htr2 : trace st2 = trace st ++ d1) by exact Htr1.
  clearbody st2.
  destruct (notifier_enabled st2 (Some h)).
  - unfold addInputEventHandler in Hbody.
    cbn [connection set_connection type] in Hbody.
    destruct (negb (is_Event (type subdev1)) || _);
      injection Hbody as <- <- <-; simpl; rewrite Htr2, <- ?app_assoc;
      eexists; (split; [reflexivity|]); apply Forall_app; split; auto;
      delta_effects.
  - injection Hbody as <- <- <-; simpl; rewrite Htr2, <- ?app_assoc;
      eexists; (split; [reflexivity|]); apply Forall_app; split; auto;
      delta_effects.
Qed.

Lemma ConnectEventSubDevices_loop_trace os d subs st n subs' st' n' :
  ConnectEventSubDevices_loop os d subs st n = (subs', st', n') →
  ∃ delta, trace st' = trace st ++ delta
           ∧ Forall (fun e => is_connection_effect e = true) delta.
Proof.
  revert st n subs' st' n'.
  induction subs as [|subdev subs IH]; intros st n subs' st' n' Hloop.
  - injection Hloop as <- <- <-. exists []. rewrite app_nil_r. auto.
  - cbn [ConnectEventSubDevices_loop] in Hloop.
    destruct (ConnectEventSubDevices_body os d subdev st)
      as [[subdev1 st1] counted] eqn:Hbody.
    destruct (ConnectEventSubDevices_loop os d subs st1 _)
      as [[rest st2] n2] eqn:Hrest.
    injection Hloop as <- <- <-.
    apply ConnectEventSubDevices_body_trace in Hbody as (d1 & Htr1 & Hd1).
    apply IH in Hrest as (d2 & Htr2 & Hd2).
    exists (d1 ++ d2). rewrite Htr2, Htr1, app_assoc.
    split; [reflexivity|]. apply Forall_app; auto.
Qed.

(** The loop over the hidraw sub-devices leaves the event sub-devices and
    the connected callbacks alone. *)
Lemma ConnectHidrawSubDevices_loop_trace os d subs st subs' st' n node :
  ConnectHidrawSubDevices_loop os d subs st = (subs', st', n, node) →
  Forall2 (fun sd sd' => is_Event (type sd) = true → sd' = sd) subs subs'
  ∧ activated st' = activated st
  ∧ ∃ delta, trace st' = trace st ++ delta
             ∧ Forall (fun e => is_hidraw_effect e = true) delta.
Proof.
  revert st subs' st' n node.
  induction subs as [|subdev subs IH]; intros st subs' st' n node Hloop.
  - injection Hloop as <- <- <- <-.
    split; [constructor|]. split; [reflexivity|].
    exists []. rewrite app_nil_r. auto.
  - cbn [ConnectHidrawSubDevices_loop] in Hloop.
    destruct (is_Hidraw (type subdev) && DeviceWritable subdev
              && DeviceReadable subdev
              && (0 <? String.length (DeviceFile subdev))%nat) eqn:Hcond.
    + assert (Hnot : is_Event (type subdev) = true → False).
      { rewrite !andb_true_iff in Hcond.
        destruct (type subdev); simpl in *; intuition discriminate. }
      destruct (openHidrawSubDeviceConnection os subdev st)
        as [[subdev1 h] st1] eqn:Hopen.
      pose proof (openHidrawSubDeviceConnection_grow _ _ _ _ _ _ Hopen)
        as (_ & _ & _ & Hact1 & _).
      apply openHidrawSubDeviceConnection_trace in Hopen
        as (Hty & d1 & Htr1 & Hd1).
      destruct (release_connection_same (connection subdev) st1)
        as (_ & _ & Ra & _ & _ & _ & closes & Rt & Rc).
      apply closes_are_connection_effects in Rc as [_ Rc].
      rewrite Htr1, <- app_assoc in Rt. rewrite <- Ra in Hact1.
      assert (Hd1' : Forall (fun e => is_hidraw_effect e = true) (d1 ++ closes))
        by (apply Forall_app; split; assumption).
      clear Htr1 Hd1 Rc Ra.
      set (st1r := release_connection (connection subdev) st1) in *.
      set (d1r := d1 ++ closes) in *.
      clearbody st1r d1r. clear st1 d1. rename st1r into st1. rename d1r into d1.
      rename Rt into Htr1. rename Hd1' into Hd1.
      assert (Hsame : ∀ rest, Forall2 (fun sd sd' => is_Event (type sd) = true → sd' = sd)
                                subs rest →
                Forall2 (fun sd sd' => is_Event (type sd) = true → sd' = sd)
                        (subdev :: subs) (set_connection subdev1 (Some h) :: rest)).
      { intros rest Hrest. constructor; [|exact Hrest].
        intros Hev. exfalso. auto. }
      destruct (notifier_enabled st1 _ && _).
      * unfold addInputHidrawHandler in Hloop.
        cbn [connection set_connection type] in Hloop.
        destruct (negb (is_Hidraw (type subdev1)) || _).
        -- destruct (ConnectHidrawSubDevices_loop os d subs _)
             as [[[rest st2] n2] node2] eqn:Hrest.
           injection Hloop as <- <- <- <-.
           apply IH in Hrest as (Hf2 & Hact2 & d2 & Htr2 & Hd2).
           split; [auto|]. split; [simpl in *; congruence|].
           exists (d1 ++ [log LogError msg_hidraw_failed] ++ d2).
           simpl in Htr2. rewrite Htr2, Htr1, <- !app_assoc.
           split; [reflexivity|].
           apply Forall_app; split; [assumption|].
           constructor; [reflexivity|assumption].
        -- injection Hloop as <- <- <- <-.
           split; [apply Hsame; apply Forall2_same_length_lookup_2;
                   [reflexivity|intros; congruence]|].
           split; [assumption|]. exists d1. auto.
      * destruct (ConnectHidrawSubDevices_loop os d subs _)
          as [[[rest st2] n2] node2] eqn:Hrest.
        injection Hloop as <- <- <- <-.
        apply IH in Hrest as (Hf2 & Hact2 & d2 & Htr2 & Hd2).
        split; [auto|]. split; [simpl in *; congruence|].
        exists (d1 ++ [log LogError msg_hidraw_failed] ++ d2).
        simpl in Htr2. rewrite Htr2, Htr1, <- !app_assoc.
        split; [reflexivity|].
        apply Forall_app; split; [assumption|].
        constructor; [reflexivity|assumption].
    + destruct (ConnectHidrawSubDevices_loop os d subs st)
        as [[[rest st2] n2] node2] eqn:Hrest.
      injection Hloop as <- <- <- <-.
      apply IH in Hrest as (Hf2 & Hact2 & d2 & Htr2 & Hd2).
      split; [constructor; auto|]. split; [assumption|]. eauto.
Qed.

(** An event sub-device whose connection has an enabled notifier is
    counted and left alone. *)
Lemma ConnectEventSubDevices_loop_skip os d subs st n :
  Forall (fun sd => event_candidate sd = true
                    → notifier_enabled st (connection sd) = true) subs →
  ∃ n', ConnectEventSubDevices_loop os d subs st n = (subs, st, n').
Proof.
  revert n. induction subs as [|subdev subs IH]; intros n Hall.
  - eexists; reflexivity.
  - inversion Hall as [|? ? Hsd Hrest]; subst.
    cbn [ConnectEventSubDevices_loop]. unfold ConnectEventSubDevices_body.
    destruct (event_candidate subdev).
    + rewrite (Hsd eq_refl).
      destruct (IH (n + 1) Hrest) as (n' & ->). eexists; reflexivity.
    + destruct (IH n Hrest) as (n' & ->). eexists; reflexivity.
Qed.

(** What [connectDevice] returns and adds to the trace. *)
Lemma connectDevice_trace
    (tree : DeviceTree) (os : OS) (i : DeviceId) (st : Spotlight) :
  match select_device tree i st with
  | None => connectDevice tree os i st = (-1, st)
  | Some st1 =>
      let connectedEventSubDevice := (ConnectEventSubDevices os st1).1 in
      let connectedHidrawSubDevice :=
        (ConnectHidrawSubDevices os (ConnectEventSubDevices os st1).2).1 in
      ∃ d delta,
        m_device st1 = Some d
        ∧ (connectDevice tree os i st).1 = 0
        ∧ Forall (fun e => is_connection_effect e = true) delta
        ∧ trace (connectDevice tree os i st).2
          = trace st ++ delta
            ++ (if (0 <? connectedEventSubDevice) && (0 <? connectedHidrawSubDevice)
                then [log LogInfo msg_connected; deviceConnected (id d) (name d)]
                     ++ (if anySpotlightDeviceConnected st then []
                         else [anySpotlightDeviceConnectedChanged true])
                else [])
  end.
Proof.
  unfold connectDevice.
  destruct (select_device tree i st) as [st1|] eqn:Hsel; [|reflexivity].
  apply select_device_spec in Hsel
    as (_ & _ & (closes & Htr1 & Hcl & _) & _ & _ & _ & d & Hd & _ & _).
  apply closes_are_connection_effects in Hcl as [Hcl _].
  exists d. unfold connectSubDevices, ConnectEventSubDevices,
    ConnectHidrawSubDevices. rewrite Hd.
  destruct (ConnectEventSubDevices_loop os d (subDevices d) st1 0)
    as [[subs1 st2] n1] eqn:Hev.
  cbn [fst snd m_device set_m_device].
  set (st2' := set_m_device st2 _).
  assert (Htr2' : trace st2' = trace st2) by reflexivity. clearbody st2'.
  destruct (ConnectHidrawSubDevices_loop os (set_subDevices d subs1)
              (subDevices (set_subDevices d subs1)) st2')
    as [[[subs2 st3] n2] node] eqn:Hhid.
  cbn [fst snd].
  destruct (length (subDevices d) =? 0)%nat eqn:Hempty.
  - (* no sub-device: both loops run over the empty list *)
    apply Nat.eqb_eq in Hempty.
    destruct (subDevices d) as [|? ?] eqn:Hsubs; [|discriminate].
    injection Hev as <- <- <-. simpl in Hhid. injection Hhid as <- <- <- <-.
    exists closes. cbn [app fst snd].
    split; [reflexivity|]. split; [reflexivity|]. split; [exact Hcl|].
    simpl. rewrite app_nil_r. congruence.
  - pose proof (ConnectEventSubDevices_loop_trace _ _ _ _ _ _ _ _ Hev)
      as (d1 & Htr2 & Hd1).
    pose proof (ConnectHidrawSubDevices_loop_trace _ _ _ _ _ _ _ _ Hhid)
      as (_ & _ & d2 & Htr3 & Hd2).
    exists (closes ++ d1 ++ d2).
    assert (Hconn : Forall (fun e => is_connection_effect e = true)
                           (closes ++ d1 ++ d2)).
    { apply Forall_app. split; [assumption|].
      apply Forall_app. split; [assumption|].
      eapply Forall_impl; [exact Hd2|]. apply hidraw_effect_connection. }
    destruct ((0 <? n1) && (0 <? n2)) eqn:Hboth; cbn [fst snd].
    + assert (Hpos : (0 <? n1 + n2) = true).
      { apply andb_true_iff in Hboth as [H1 H2].
        apply Z.ltb_lt in H1, H2. apply Z.ltb_lt. lia. }
      rewrite Hpos. cbn [m_device set_m_device].
      split; [reflexivity|]. split; [reflexivity|]. split; [assumption|].
      unfold anySpotlightDeviceConnected.
      destruct node, (m_device st); simpl;
        rewrite Htr3, Htr2', Htr2, Htr1, <- !app_assoc; reflexivity.
    + split; [reflexivity|]. split; [reflexivity|]. split; [assumption|].
      simpl. rewrite Htr3, Htr2', Htr2, Htr1, <- !app_assoc, app_nil_r.
      reflexivity.
Qed.

(** C1, as the code has it: [connectDevice] returns 0 once the scan has
    found a device, and it announces the connection exactly when both
    [ConnectEventSubDevices] and [ConnectHidrawSubDevices] report at least
    one connected sub-device: then, and only then, the call emits
    [deviceConnected], and it emits
    [anySpotlightDeviceConnectedChanged(true)] exactly when, in addition,
    no device was set before the call. *)
Theorem connectDevice_needs_event_and_hidraw
    (tree : DeviceTree) (os : OS) (i : DeviceId) (st : Spotlight) :
  match select_device tree i st with
  | None => connectDevice tree os i st = (-1, st)
  | Some st1 =>
      let connectedEventSubDevice := (ConnectEventSubDevices os st1).1 in
      let connectedHidrawSubDevice :=
        (ConnectHidrawSubDevices os (ConnectEventSubDevices os st1).2).1 in
      ∃ emitted,
        (connectDevice tree os i st).1 = 0
        ∧ trace (connectDevice tree os i st).2 = trace st ++ emitted
        ∧ ((∃ i' n, deviceConnected i' n ∈ emitted)
           ↔ 0 < connectedEventSubDevice ∧ 0 < connectedHidrawSubDevice)
        ∧ (anySpotlightDeviceConnectedChanged true ∈ emitted
           ↔ 0 < connectedEventSubDevice ∧ 0 < connectedHidrawSubDevice
             ∧ anySpotlightDeviceConnected st = false)
  end.
Proof.
  pose proof (connectDevice_trace tree os i st) as Htr.
  destruct (select_device tree i st) as [st1|]; [|exact Htr].
  cbv zeta in Htr |- *.
  destruct Htr as (d & delta & _ & Hres & Hdelta & Htrace).
  set (announced := if (0 <? _) && (0 <? _) then _ else _) in Htrace.
  exists (delta ++ announced).
  split; [exact Hres|]. split; [exact Htrace|].
  assert (Hquiet : ∀ e, e ∈ delta → is_connection_effect e = true)
    by (apply Forall_forall; exact Hdelta).
  assert (Hboth : (0 <? (ConnectEventSubDevices os st1).1)
                  && (0 <? (ConnectHidrawSubDevices os
                              (ConnectEventSubDevices os st1).2).1) = true
                  ↔ 0 < (ConnectEventSubDevices os st1).1
                    ∧ 0 < (ConnectHidrawSubDevices os
                             (ConnectEventSubDevices os st1).2).1)
    by (rewrite andb_true_iff, !Z.ltb_lt; reflexivity).
  subst announced.
  destruct ((0 <? (ConnectEventSubDevices os st1).1)
            && (0 <? (ConnectHidrawSubDevices os
                        (ConnectEventSubDevices os st1).2).1)).
  - assert (Hyes : 0 < (ConnectEventSubDevices os st1).1
                   ∧ 0 < (ConnectHidrawSubDevices os
                            (ConnectEventSubDevices os st1).2).1)
      by (apply Hboth; reflexivity).
    split.
    + split; [intros _; exact Hyes|]. intros _.
      exists (id d), (name d). apply elem_of_app. right.
      apply list_elem_of_further, list_elem_of_here.
    + destruct (anySpotlightDeviceConnected st); split.
      * intros Hin. apply elem_of_app in Hin as [Hin|Hin].
        -- apply Hquiet in Hin. discriminate.
        -- simpl in Hin.
           repeat (apply elem_of_cons in Hin as [Hin|Hin]; [discriminate|]).
           apply elem_of_nil in Hin. contradiction.
      * intros (_ & _ & Hfalse). discriminate.
      * intros _. destruct Hyes. auto.
      * intros _. apply elem_of_app. right. simpl.
        do 2 apply list_elem_of_further. apply list_elem_of_here.
  - assert (Hno : ¬ (0 < (ConnectEventSubDevices os st1).1
                     ∧ 0 < (ConnectHidrawSubDevices os
                              (ConnectEventSubDevices os st1).2).1))
      by (intros Hyes; apply Hboth in Hyes; discriminate).
    rewrite app_nil_r. split; split.
    + intros (i' & n & Hin). apply Hquiet in Hin. discriminate.
    + intros Hyes. contradiction.
    + intros Hin. apply Hquiet in Hin. discriminate.
    + intros (H1 & H2 & _). exfalso. apply Hno. auto.
Qed.

(** C6: [vibrateDevice(strength)] builds the seven bytes
    [0x10, 0x01, 0x09, 0x11, 0x03, 0xE8, s], where [s] is 64 when
    [strength] is below 64 and [strength] otherwise, and hands them to
    [sendDatatoDevice], which writes exactly these bytes to the descriptor
    [hidrwNode] of the connected device. *)
Theorem vibrateDevice_payload (os : OS) (strength : Z) (st : Spotlight) :
  (∃ s, vibration_data strength = [0x10; 0x01; 0x09; 0x11; 0x03; 0xE8; s]
        ∧ (strength < 64 → s = 64) ∧ (64 ≤ strength → s = strength))
  ∧ vibrateDevice os strength st
    = sendDatatoDevice os (vibration_data strength) 7 st
  ∧ (∀ d, m_device st = Some d → hidrwNode d ≠ 0 →
     let res := sys_write os (hidrwNode d) (vibration_data strength) in
     (vibrateDevice os strength st).1 = res
     ∧ trace (vibrateDevice os strength st).2
       = trace st
         ++ call_write (hidrwNode d) (vibration_data strength) res
            :: (if res <? 0 then [log LogError msg_write_failed] else [])).
Proof.
  split; [|split; [reflexivity|]].
  - unfold vibration_data. eexists. split; [reflexivity|].
    destruct (strength <? 64) eqn:Hlt.
    + apply Z.ltb_lt in Hlt. split; [reflexivity|lia].
    + apply Z.ltb_ge in Hlt. split; [lia|reflexivity].
  - intros d Hd Hnode. unfold vibrateDevice, sendDatatoDevice. rewrite Hd.
    apply Z.eqb_neq in Hnode. rewrite Hnode.
    assert (Htake : take 7 (vibration_data strength) = vibration_data strength)
      by reflexivity.
    cbn [negb]. rewrite Htake. cbn [fst snd].
    split; [reflexivity|].
    destruct (sys_write os (hidrwNode d) (vibration_data strength) <? 0);
      simpl; rewrite <- ?app_assoc; reflexivity.
Qed.

(** The loop of [removeSubDeviceConnection] never ends when the list is
    not empty and its first entry is for another device file: each
    iteration leaves the iterator where it was. *)
Lemma removeSubDeviceConnection_loop_spins fuel file entry subs :
  String.eqb (DeviceFile entry) file = false →
  removeSubDeviceConnection_loop fuel file (entry :: subs) 0 = None.
Proof.
  intros Hne. induction fuel as [|fuel IH]; [reflexivity|].
  cbn [removeSubDeviceConnection_loop].
  unfold removeSubDeviceConnection_iteration. simpl. rewrite Hne. exact IH.
Qed.

(** It ends with its first iteration when the first entry matches. *)
Lemma removeSubDeviceConnection_loop_first fuel file entry subs :
  String.eqb (DeviceFile entry) file = true →
  removeSubDeviceConnection_loop (S fuel) file (entry :: subs) 0
  = Some (Some entry, subs).
Proof.
  intros Heq. cbn [removeSubDeviceConnection_loop].
  unfold removeSubDeviceConnection_iteration. simpl. rewrite Heq. reflexivity.
Qed.

(** The handler emits no presence change after a failed read while a
    device is set. *)
Lemma on_read_failure_silent errno h dev st st' d :
  m_device st = Some d →
  on_read_failure errno h dev st = Some st' →
  trace st' = trace st ∧ m_device st' = m_device st.
Proof.
  intros Hd. unfold on_read_failure.
  destruct (negb (errno =? EAGAIN)); [|intros [= <-]; auto].
  destruct (conns st !! h) as [c|]; [|discriminate]. simpl.
  destruct (notifier c) as [n|]; [|discriminate]. simpl.
  unfold anySpotlightDeviceConnected. simpl. rewrite Hd. simpl.
  intros [= <-]. auto.
Qed.


(** [removeSubDeviceConnection] does not return when the first sub-device
    of the device set is for another device file. *)
Lemma removeSubDeviceConnection_never_returns fuel file st d entry subs :
  m_device st = Some d → subDevices d = entry :: subs →
  String.eqb (DeviceFile entry) file = false →
  removeSubDeviceConnection fuel file st = None.
Proof.
  intros Hd Hsubs Hne. unfold removeSubDeviceConnection.
  rewrite Hd, Hsubs. cbn [length Nat.eqb].
  rewrite removeSubDeviceConnection_loop_spins by exact Hne. reflexivity.
Qed.

(** It returns in all other cases: no device, no sub-device, or a first
    sub-device for the file asked for, which is erased and gives up its
    connection. *)
Lemma removeSubDeviceConnection_returns fuel file st :
  match m_device st with
  | None => removeSubDeviceConnection fuel file st = Some st
  | Some d =>
      match subDevices d with
      | [] => removeSubDeviceConnection fuel file st = Some st
      | entry :: subs =>
          String.eqb (DeviceFile entry) file = true →
          removeSubDeviceConnection (S fuel) file st
          = Some (release_connection (connection entry)
                    (set_m_device st (Some (set_subDevices d subs))))
      end
  end.
Proof.
  unfold removeSubDeviceConnection.
  destruct (m_device st) as [d|]; [|reflexivity].
  destruct (subDevices d) as [|entry subs]; [reflexivity|].
  intros Heq. cbn [length Nat.eqb].
  rewrite removeSubDeviceConnection_loop_first by exact Heq. reflexivity.
Qed.

(** *** A callback is only connected while a device is set *)

Lemma connectSubDevices_device os st n st' d :
  m_device st = Some d → connectSubDevices os st = (n, st') →
  ∃ d', m_device st' = Some d' ∧ id d' = id d ∧ name d' = name d.
Proof.
  intros Hd. unfold connectSubDevices, ConnectEventSubDevices,
    ConnectHidrawSubDevices. rewrite Hd.
  destruct (length (subDevices d) =? 0)%nat; [intros [= <- <-]; eauto|].
  destruct (ConnectEventSubDevices_loop os d (subDevices d) st 0)
    as [[subs1 st1] n1].
  cbn [m_device set_m_device].
  destruct (ConnectHidrawSubDevices_loop os _ _ _) as [[[subs2 st2] n2] node].
  destruct ((0 <? n1) && (0 <? n2)); intros [= <- <-];
    destruct node; simpl; eauto.
Qed.

Lemma connectDevice_device tree os i st :
  (m_device st = None → activated st = []) →
  m_device (connectDevice tree os i st).2 = None →
  activated (connectDevice tree os i st).2 = [].
Proof.
  intros Hinv. unfold connectDevice.
  destruct (select_device tree i st) as [st1|] eqn:Hsel; [|exact Hinv].
  apply select_device_spec in Hsel as (_ & _ & _ & _ & _ & _ & d & Hd & _).
  destruct (connectSubDevices os st1) as [n st2] eqn:Hsub.
  destruct (connectSubDevices_device _ _ _ _ _ Hd Hsub) as (d' & Hd' & _).
  cbn [snd]. rewrite Hd'.
  destruct (0 <? n); [destruct (negb (anySpotlightDeviceConnected st))|];
    simpl; rewrite Hd'; discriminate.
Qed.

Lemma reachable_device_set st :
  reachable st → m_device st = None → activated st = [].
Proof.
  intros (additional & vd & Hrtc). revert st Hrtc.
  apply (rtc_ind_r (fun st => m_device st = None → activated st = [])).
  - reflexivity.
  - intros st1 st2 Hreach Hstep IH.
    assert (Hok : handlers_ok st1)
      by (apply reachable_handlers_ok; exists additional, vd; exact Hreach).
    destruct Hstep as [tree os i st1|k reads st1 st2 rest Hrun|st1 Htimer
                       |fuel st1 st2 Hrun|os strength st1].
    + apply connectDevice_device, IH.
    + unfold deliver_activated in Hrun.
      destruct (activated st1 !! k) as [[h dev]|] eqn:Hk;
        [|injection Hrun as <- <-; exact IH].
      destruct (notifier_enabled st1 (Some h));
        [|injection Hrun as <- <-; exact IH].
      unfold handlers_ok in Hok. rewrite Forall_forall in Hok.
      destruct (Hok (h, dev)) as (c & Hc & Hcok);
        [eapply list_elem_of_lookup_2; eassumption|]. simpl in Hc.
      pose proof Hcok as (_ & _ & (m & Him & _) & _).
      destruct (handler_spec reads h dev st1 c m Hc Hcok Him)
        as (st' & rest' & pre & c' & delta & Hrun' & _ & _ & _ & _ & _ & _
            & Hact & Hdev & _).
      rewrite Hrun in Hrun'. injection Hrun' as <- <-.
      rewrite Hact, Hdev. exact IH.
    + exact IH.
    + unfold run_pending in Hrun. destruct (pending st1) as [|file rest].
      * injection Hrun as <-. exact IH.
      * unfold removeSubDeviceConnection in Hrun. simpl in Hrun.
        destruct (m_device st1) as [d|] eqn:Hd.
        -- destruct (length (subDevices d) =? 0)%nat;
             [injection Hrun as <-; simpl; rewrite Hd; discriminate|].
           destruct (removeSubDeviceConnection_loop fuel file (subDevices d) 0)
             as [[erased subs]|]; simpl in Hrun; [|discriminate].
           injection Hrun as <-.
           destruct (release_connection_same (erased ≫= connection)
                       (set_m_device (set_pending st1 rest)
                                     (Some (set_subDevices d subs))))
             as (_ & _ & _ & Hdev & _).
           rewrite Hdev. discriminate.
        -- injection Hrun as <-. simpl. rewrite Hd. intros _. auto.
    + unfold vibrateDevice, sendDatatoDevice.
      destruct (m_device st1) as [d|] eqn:Hd; [|simpl; rewrite Hd; exact IH].
      destruct (negb (hidrwNode d =? 0)); [|simpl; rewrite Hd; discriminate].
      simpl. destruct (sys_write os _ _ <? 0); simpl; rewrite Hd; discriminate.
Qed.

(** In no state the object can be in does a notifier activation emit
    [anySpotlightDeviceConnectedChanged(false)], whatever the reads yield:
    the handler tests [anySpotlightDeviceConnected()] while the device is
    still set. *)
Lemma activation_never_announces_absence st k reads st' rest :
  reachable st →
  deliver_activated k reads st = Some (st', rest) →
  ∃ delta, trace st' = trace st ++ delta
           ∧ anySpotlightDeviceConnectedChanged false ∉ delta.
Proof.
  intros Hreach Hrun.
  pose proof (reachable_handlers_ok st Hreach) as Hok.
  pose proof (reachable_device_set st Hreach) as Hset.
  unfold deliver_activated in Hrun.
  destruct (activated st !! k) as [[h dev]|] eqn:Hk.
  2:{ injection Hrun as <- <-. exists []. rewrite app_nil_r.
      split; [reflexivity|apply not_elem_of_nil]. }
  destruct (notifier_enabled st (Some h)).
  2:{ injection Hrun as <- <-. exists []. rewrite app_nil_r.
      split; [reflexivity|apply not_elem_of_nil]. }
  unfold handlers_ok in Hok. rewrite Forall_forall in Hok.
  destruct (Hok (h, dev)) as (c & Hc & Hcok);
    [eapply list_elem_of_lookup_2; eassumption|]. simpl in Hc.
  pose proof Hcok as (_ & _ & (m & Him & _) & _).
  destruct (handler_spec reads h dev st c m Hc Hcok Him)
    as (st1 & rest1 & pre & c' & delta & Hrun' & _ & _ & _ & _ & _ & _
        & _ & _ & _ & _ & Htr & _ & Hdelta).
  rewrite Hrun in Hrun'. injection Hrun' as <- <-.
  exists delta. split; [exact Htr|]. intros Hin.
  rewrite Forall_forall in Hdelta.
  destruct (Hdelta _ Hin) as [Hcall|[Heq|[Heq|[_ Hnone]]]];
    try discriminate.
  apply Hset in Hnone. rewrite Hnone in Hk. discriminate.
Qed.


(** Nothing ever emits [anySpotlightDeviceConnectedChanged(false)]: the
    only [emit] of it in the sources is the one in the handler. *)
Lemma reachable_never_announces_absence st :
  reachable st → anySpotlightDeviceConnectedChanged false ∉ trace st.
Proof.
  intros (additional & vd & Hrtc). revert st Hrtc.
  apply (rtc_ind_r (fun st => anySpotlightDeviceConnectedChanged false ∉ trace st)).
  - apply not_elem_of_nil.
  - intros st1 st2 Hreach Hstep IH.
    destruct Hstep as [tree os i st1|k reads st1 st2 rest Hrun|st1 Htimer
                       |fuel st1 st2 Hrun|os strength st1].
    + pose proof (connectDevice_trace tree os i st1) as Htr.
      destruct (select_device tree i st1) as [st'|]; [|rewrite Htr; exact IH].
      destruct Htr as (d & delta & _ & _ & Hdelta & ->).
      rewrite !elem_of_app. intros [Hin|[Hin|Hin]]; [auto| |].
      * rewrite Forall_forall in Hdelta. specialize (Hdelta _ Hin).
        discriminate.
      * destruct ((0 <? _) && (0 <? _)); [|apply elem_of_nil in Hin; exact Hin].
        destruct (anySpotlightDeviceConnected st1); simpl in Hin;
          repeat (apply elem_of_cons in Hin as [Hin|Hin]; [discriminate|]);
          apply elem_of_nil in Hin; exact Hin.
    + destruct (activation_never_announces_absence st1 k reads st2 rest)
        as (delta & -> & Hdelta); [exists additional, vd; exact Hreach|exact Hrun|].
      rewrite elem_of_app. tauto.
    + simpl. rewrite elem_of_app, list_elem_of_singleton.
      intros [Hin|Hin]; [auto|discriminate].
    + unfold run_pending in Hrun. destruct (pending st1) as [|file rest].
      * injection Hrun as <-. exact IH.
      * apply removeSubDeviceConnection_same in Hrun
          as (_ & _ & _ & closes & Htr & Hcl).
        simpl in Htr. rewrite Htr, elem_of_app. intros [Hin|Hin]; [auto|].
        rewrite Forall_forall in Hcl.
        destruct (Hcl _ Hin) as (descriptor & Heq). discriminate.
    + unfold vibrateDevice, sendDatatoDevice.
      destruct (m_device st1) as [d|]; [|exact IH].
      destruct (negb (hidrwNode d =? 0)); [|exact IH]. simpl.
      destruct (sys_write os _ _ <? 0); simpl;
        rewrite ?elem_of_app, ?list_elem_of_singleton;
        intuition discriminate.
Qed.

End ManagerProofs.

(* ================================================================== *)
(** * Further properties of the scanner *)

Section ScanResultProofs.
Context `{Externals}.

Lemma substring_all s : String.substring 0 (String.length s) s = s.
Proof. induction s as [|c s IH]; simpl; [reflexivity|]. rewrite IH. reflexivity. Qed.

Lemma property_value_Some line property v :
  property_value line property = Some v ↔ line = property +:+ "=" +:+ v.
Proof.
  unfold property_value, mid. revert line.
  induction property as [|c p IH]; intros line.
  - destruct line as [|c' line']; simpl.
    + split; [discriminate|]. discriminate.
    + rewrite Nat.sub_0_r, substring_all.
      destruct (decide (Some c' = Some "="%char)) as [Heq|Hne].
      * injection Heq as ->. rewrite bool_decide_eq_true_2 by reflexivity.
        simpl. split; [intros [= ->]; reflexivity|intros [= ->]; reflexivity].
      * rewrite bool_decide_eq_false_2 by exact Hne. simpl.
        split; [discriminate|]. intros [= -> ->]. contradiction Hne. reflexivity.
  - destruct line as [|c' line']; simpl.
    + split; discriminate.
    + destruct (ascii_dec c c') as [->|Hne].
      * specialize (IH line'). simpl in IH.
        change (S (String.length p) <? S (String.length line'))%nat
          with (String.length p <? String.length line')%nat.
        rewrite IH. split; [intros ->; reflexivity|intros [= ->]; reflexivity].
      * simpl. split; [discriminate|]. intros [= -> _]. contradiction Hne. reflexivity.
Qed.


(** X1: [readPropertyFromDeviceFile] yields the value of the first line
    of the form [property=value]; it yields the empty text when the file
    cannot be opened or holds no such line, and only then or when that
    first line has an empty value. *)
Theorem readPropertyFromDeviceFile_first_match
    (f : TextFile) (property v : string) :
  readPropertyFromDeviceFile f property = v ↔
  (∃ pre line post,
      f = Some (pre ++ line :: post)
      ∧ line = property +:+ "=" +:+ v
      ∧ Forall (fun l => ∀ w, l ≠ property +:+ "=" +:+ w) pre)
  ∨ (v = EmptyString
     ∧ (f = None
        ∨ ∃ lines, f = Some lines
                   ∧ Forall (fun l => ∀ w, l ≠ property +:+ "=" +:+ w) lines)).
Proof.
  destruct f as [lines|]; simpl.
  2:{ split.
      - intros <-. right. split; [reflexivity|]. left; reflexivity.
      - intros [(pre & line & post & Hf & _)|[-> _]]; [discriminate|reflexivity]. }
  assert (Hgen : ∀ lines,
    (∃ pre line post, lines = pre ++ line :: post
       ∧ line = property +:+ "=" +:+ first_property lines property
       ∧ Forall (fun l => ∀ w, l ≠ property +:+ "=" +:+ w) pre)
    ∨ (first_property lines property = EmptyString
       ∧ Forall (fun l => ∀ w, l ≠ property +:+ "=" +:+ w) lines)).
  { clear lines. induction lines as [|line rest IH]; simpl.
    - right. split; [reflexivity|constructor].
    - destruct (property_value line property) as [w|] eqn:Hpv.
      + apply property_value_Some in Hpv. left. exists [], line, rest.
        split; [reflexivity|]. split; [exact Hpv|constructor].
      + assert (Hno : ∀ w, line ≠ property +:+ "=" +:+ w).
        { intros w Hw. apply property_value_Some in Hw. congruence. }
        destruct IH as [(pre & l & post & -> & Hl & Hpre)|[He Hall]].
        * left. exists (line :: pre), l, post.
          split; [reflexivity|]. split; [exact Hl|]. constructor; assumption.
        * right. split; [exact He|]. constructor; assumption. }
  split.
  - intros <-. destruct (Hgen lines) as [(pre & l & post & -> & Hl & Hpre)|[He Hall]].
    + left. exists pre, l, post. split; [reflexivity|]. split; assumption.
    + right. split; [exact He|]. right. exists lines. split; [reflexivity|assumption].
  - intros [(pre & line & post & [= ->] & -> & Hpre)|[-> [Hf|(lines' & [= <-] & Hall)]]];
      [|discriminate|].
    + clear Hgen. induction Hpre as [|l pre Hl Hpre IH]; simpl.
      * assert (Hpv : property_value (property +:+ "=" +:+ v) property = Some v)
          by (apply property_value_Some; reflexivity).
        rewrite Hpv. reflexivity.
      * destruct (property_value l property) as [w|] eqn:Hpv.
        -- apply property_value_Some in Hpv. destruct (Hl w Hpv).
        -- exact IH.
    + clear Hgen. induction Hall as [|l rest Hl Hall IH]; simpl; [reflexivity|].
      destruct (property_value l property) as [w|] eqn:Hpv.
      * apply property_value_Some in Hpv. destruct (Hl w Hpv).
      * exact IH.
Qed.

(** *** deviceFromUEventFile *)

Lemma apply_property_other line d property :
  String.eqb property "HID_ID" = false →
  vendorId (id (apply_property line d property)) = vendorId (id d)
  ∧ productId (id (apply_property line d property)) = productId (id d)
  ∧ busType (apply_property line d property) = busType d.
Proof.
  intros Hp. unfold apply_property.
  destruct (property_value line property); [|auto].
  rewrite Hp.
  destruct (String.eqb property "HID_NAME"); [auto|].
  destruct (String.eqb property "HID_PHYS"); auto.
Qed.

(** What no property touches: the members the scanner and the connection
    manager fill in later. *)
Lemma apply_property_rest line d property :
  userName (apply_property line d property) = userName d
  ∧ subDevices (apply_property line d property) = subDevices d
  ∧ eventIM (apply_property line d property) = eventIM d
  ∧ hidrwNode (apply_property line d property) = hidrwNode d.
Proof.
  unfold apply_property.
  destruct (property_value line property); [|auto].
  destruct (String.eqb property "HID_ID").
  { destruct (_ =? BUS_USB); [auto|].
    destruct (_ =? BUS_BLUETOOTH); auto. }
  destruct (String.eqb property "HID_NAME"); [auto|].
  destruct (String.eqb property "HID_PHYS"); auto.
Qed.

Lemma line_properties_rest line d :
  userName (line_properties line d) = userName d
  ∧ subDevices (line_properties line d) = subDevices d
  ∧ eventIM (line_properties line d) = eventIM d
  ∧ hidrwNode (line_properties line d) = hidrwNode d.
Proof.
  unfold line_properties, uevent_properties. cbn [fold_left].
  pose proof (apply_property_rest line d "HID_ID") as (A1 & A2 & A3 & A4).
  pose proof (apply_property_rest line (apply_property line d "HID_ID") "HID_NAME")
    as (B1 & B2 & B3 & B4).
  pose proof (apply_property_rest line
                (apply_property line (apply_property line d "HID_ID") "HID_NAME")
                "HID_PHYS") as (C1 & C2 & C3 & C4).
  repeat split; congruence.
Qed.

Lemma deviceFromUEventFile_rest f :
  userName (deviceFromUEventFile f) = EmptyString
  ∧ subDevices (deviceFromUEventFile f) = []
  ∧ eventIM (deviceFromUEventFile f) = None
  ∧ hidrwNode (deviceFromUEventFile f) = uninitialised_hidrwNode.
Proof.
  destruct f as [lines|]; simpl; [|auto].
  change (fun d line => fold_left (apply_property line) uevent_properties d)
    with (fun d line => line_properties line d).
  assert (Hgen : ∀ d,
    userName (fold_left (fun d line => line_properties line d) lines d) = userName d
    ∧ subDevices (fold_left (fun d line => line_properties line d) lines d) = subDevices d
    ∧ eventIM (fold_left (fun d line => line_properties line d) lines d) = eventIM d
    ∧ hidrwNode (fold_left (fun d line => line_properties line d) lines d) = hidrwNode d).
  { induction lines as [|line rest IH]; intros d; simpl; [auto|].
    destruct (IH (line_properties line d)) as (A1 & A2 & A3 & A4).
    destruct (line_properties_rest line d) as (B1 & B2 & B3 & B4).
    repeat split; congruence. }
  apply (Hgen default_Device).
Qed.

Lemma line_properties_no_HID_ID line d :
  property_value line "HID_ID" = None →
  vendorId (id (line_properties line d)) = vendorId (id d)
  ∧ productId (id (line_properties line d)) = productId (id d)
  ∧ busType (line_properties line d) = busType d.
Proof.
  intros Hno. unfold line_properties, uevent_properties. cbn [fold_left].
  assert (H0 : apply_property line d "HID_ID" = d).
  { unfold apply_property. rewrite Hno. reflexivity. }
  rewrite H0.
  pose proof (apply_property_other line d "HID_NAME" eq_refl) as (B1 & B2 & B3).
  pose proof (apply_property_other line (apply_property line d "HID_NAME")
                "HID_PHYS" eq_refl) as (C1 & C2 & C3).
  repeat split; congruence.
Qed.

Lemma fold_no_HID_ID lines d :
  Forall (fun l => property_value l "HID_ID" = None) lines →
  vendorId (id (fold_left (fun d line => line_properties line d) lines d))
  = vendorId (id d)
  ∧ productId (id (fold_left (fun d line => line_properties line d) lines d))
    = productId (id d)
  ∧ busType (fold_left (fun d line => line_properties line d) lines d) = busType d.
Proof.
  intros Hall. revert d. induction Hall as [|l rest Hl Hall IH]; intros d; simpl; [auto|].
  destruct (IH (line_properties l d)) as (A1 & A2 & A3).
  destruct (line_properties_no_HID_ID l d Hl) as (B1 & B2 & B3).
  repeat split; congruence.
Qed.

(** X2: a HID directory whose [uevent] file cannot be opened or holds no
    [HID_ID=] line gets vendor id 0, product id 0 and an unknown bus from
    [deviceFromUEventFile], and the directory loop of [scanForDevices]
    skips it whatever the lists of supported devices hold. *)
Theorem uevent_without_HID_ID_is_skipped
    (additional : list SupportedDevice) (tree : DeviceTree)
    (devs : list Device) (dir : HidDir) :
  (hd_uevent dir = None
   ∨ ∃ lines, hd_uevent dir = Some lines
              ∧ Forall (fun l => ∀ w, l ≠ "HID_ID=" +:+ w) lines) →
  id (deviceFromUEventFile (hd_uevent dir))
  = mk_DeviceId 0 0 (phys (id (deviceFromUEventFile (hd_uevent dir))))
  ∧ busType (deviceFromUEventFile (hd_uevent dir)) = Unknown
  ∧ dir_accepted additional dir = false
  ∧ scan_dir additional tree devs dir = devs.
Proof.
  intros Hf.
  assert (Hids : vendorId (id (deviceFromUEventFile (hd_uevent dir))) = 0
                 ∧ productId (id (deviceFromUEventFile (hd_uevent dir))) = 0
                 ∧ busType (deviceFromUEventFile (hd_uevent dir)) = Unknown).
  { destruct Hf as [->|(lines & -> & Hall)]; simpl; [auto|].
    change (fun d line => fold_left (apply_property line) uevent_properties d)
      with (fun d line => line_properties line d).
    apply (fold_no_HID_ID lines default_Device).
    eapply Forall_impl; [exact Hall|]. intros l Hl. simpl in Hl.
    destruct (property_value l "HID_ID") as [w|] eqn:Hpv; [|reflexivity].
    apply property_value_Some in Hpv. destruct (Hl w). exact Hpv. }
  destruct Hids as (Hv & Hp & Hb).
  assert (Hacc : dir_accepted additional dir = false).
  { unfold dir_accepted. rewrite Hv. simpl. rewrite andb_false_r. reflexivity. }
  split.
  { destruct (id (deviceFromUEventFile (hd_uevent dir))) as [v p s].
    simpl in *. subst. reflexivity. }
  split; [exact Hb|]. split; [exact Hacc|].
  unfold scan_dir. rewrite Hacc. reflexivity.
Qed.


(** X3: when a [uevent] file holds several [HID_ID=] lines the last one
    decides the vendor and the product id; it decides the bus type too
    when it names USB or Bluetooth, otherwise the bus type is what the
    lines before it have set. *)
Theorem deviceFromUEventFile_last_HID_ID_wins
    (pre post : list string) (value : string) :
  Forall (fun l => ∀ w, l ≠ "HID_ID=" +:+ w) post →
  let ids := split ":" value in
  let d := deviceFromUEventFile (Some (pre ++ ("HID_ID=" +:+ value) :: post)) in
  vendorId (id d) = match ids with _ :: v :: _ => toUShort16 v | _ => 0 end
  ∧ productId (id d) = match ids with _ :: _ :: p :: _ => toUShort16 p | _ => 0 end
  ∧ busType d
    = let bus := match ids with b :: _ => toUShort16 b | [] => 0 end in
      if bus =? BUS_USB then Usb
      else if bus =? BUS_BLUETOOTH then Bluetooth
      else busType (deviceFromUEventFile (Some pre)).
Proof.
  intros Hpost ids d. subst d. unfold deviceFromUEventFile.
  change (fun d line => fold_left (apply_property line) uevent_properties d)
    with (fun d line => line_properties line d).
  rewrite fold_left_app. cbn [fold_left].
  set (d0 := fold_left (fun d line => line_properties line d) pre default_Device).
  assert (Hpost' : Forall (fun l => property_value l "HID_ID" = None) post).
  { eapply Forall_impl; [exact Hpost|]. intros l Hl. simpl in Hl.
    destruct (property_value l "HID_ID") as [w|] eqn:Hpv; [|reflexivity].
    apply property_value_Some in Hpv. destruct (Hl w). exact Hpv. }
  destruct (fold_no_HID_ID post (line_properties ("HID_ID=" +:+ value) d0) Hpost')
    as (-> & -> & ->).
  unfold line_properties, uevent_properties. cbn [fold_left].
  set (d1 := apply_property ("HID_ID=" +:+ value) d0 "HID_ID").
  pose proof (apply_property_other ("HID_ID=" +:+ value) d1 "HID_NAME" eq_refl)
    as (B1 & B2 & B3).
  pose proof (apply_property_other ("HID_ID=" +:+ value)
                (apply_property ("HID_ID=" +:+ value) d1 "HID_NAME")
                "HID_PHYS" eq_refl) as (C1 & C2 & C3).
  rewrite C1, C2, C3, B1, B2, B3. subst d1. unfold apply_property.
  assert (Hpv : property_value ("HID_ID=" +:+ value) "HID_ID" = Some value)
    by (apply property_value_Some; reflexivity).
  rewrite Hpv. cbn [String.eqb Ascii.eqb Bool.eqb].
  fold ids.
  destruct (_ =? BUS_USB); [auto|].
  destruct (_ =? BUS_BLUETOOTH); auto.
Qed.

(** *** The sub-devices and the devices of a scan result *)

Lemma filePath_dev_absolute f : String.prefix "/" (filePath "/dev" f) = true.
Proof.
  unfold filePath. destruct (String.prefix "/" f) eqn:Hf; [exact Hf|reflexivity].
Qed.

Lemma isEmpty_false_prefix s : String.prefix "/" s = true → isEmpty s = false.
Proof. destruct s; [discriminate|reflexivity]. Qed.

Lemma event_DeviceFile_absolute entries :
  isEmpty (event_DeviceFile entries) = false →
  String.prefix "/" (event_DeviceFile entries) = true.
Proof.
  induction entries as [|e rest IH]; simpl; [discriminate|].
  destruct (negb (String.prefix "event" (ed_fileName e))); [exact IH|].
  destruct (negb (isEmpty (readPropertyFromDeviceFile (ed_uevent e) "DEVNAME")));
    [intros _; apply filePath_dev_absolute|exact IH].
Qed.

Lemma input_subDevices_scanned tree root entries :
  Forall (fun sd => scanned_SubDevice tree sd ∧ type sd = Event)
         (input_subDevices tree root entries).
Proof.
  induction entries as [|e rest IH]; simpl; [constructor|].
  destruct (_ || _); [constructor|].
  destruct (isEmpty (event_DeviceFile (in_entries e))) eqn:He; [exact IH|].
  constructor; [|exact IH].
  split; [|reflexivity].
  unfold scanned_SubDevice, event_SubDevice. cbn.
  split; [apply event_DeviceFile_absolute; exact He|].
  repeat split; discriminate.
Qed.

Lemma hidraw_subDevices_scanned tree entries :
  Forall (fun sd => scanned_SubDevice tree sd ∧ type sd = Hidraw)
         (hidraw_subDevices tree entries).
Proof.
  induction entries as [|e rest IH]; simpl; [constructor|].
  destruct (negb (String.prefix "hidraw" (hr_fileName e))); [exact IH|].
  destruct (negb (isEmpty (readPropertyFromDeviceFile (hr_uevent e) "DEVNAME")));
    [|exact IH].
  constructor; [|exact IH].
  split; [|reflexivity].
  unfold scanned_SubDevice. cbn.
  split; [apply filePath_dev_absolute|]. repeat split; reflexivity.
Qed.

Lemma dir_subDevices_scanned tree dir rootDevice :
  Forall (scanned_SubDevice tree) (dir_subDevices tree dir rootDevice)
  ∧ Forall (fun sd => type sd = if hd_input_exists dir || hd_input_executable dir
                                then Event else Hidraw)
           (dir_subDevices tree dir rootDevice).
Proof.
  unfold dir_subDevices.
  destruct (hd_input_exists dir || hd_input_executable dir).
  - split; (eapply Forall_impl; [apply input_subDevices_scanned|]);
      intros sd [? ?]; assumption.
  - destruct (hd_hidraw_exists dir || hd_hidraw_executable dir);
      [|split; constructor].
    split; (eapply Forall_impl; [apply hidraw_subDevices_scanned|]);
      intros sd [? ?]; assumption.
Qed.

(** An invariant of the [hidIt] loop on [result.devices]. *)
Lemma scan_dir_Forall (P : Device → Prop) additional tree devs dir :
  (P (set_userName (deviceFromUEventFile (hd_uevent dir))
        (getUserDeviceName (vendorId (id (deviceFromUEventFile (hd_uevent dir))))
           (productId (id (deviceFromUEventFile (hd_uevent dir)))) additional))) →
  (∀ d, P d → P (append_subDevices (dir_subDevices tree dir d) d)) →
  Forall P devs → Forall P (scan_dir additional tree devs dir).
Proof.
  intros Hnew Happ Hdevs. unfold scan_dir.
  destruct (negb (dir_accepted additional dir)); [exact Hdevs|].
  destruct (find_if _ devs) as [k|].
  - apply Forall_alter; [exact Hdevs|]. intros d _ Hd. apply Happ, Hd.
  - apply Forall_alter; [|intros d _ Hd; apply Happ, Hd].
    apply Forall_app. split; [exact Hdevs|]. constructor; [exact Hnew|constructor].
Qed.

Lemma scan_fold_Forall (P : Device → Prop) additional tree dirs devs :
  (∀ dir, P (set_userName (deviceFromUEventFile (hd_uevent dir))
        (getUserDeviceName (vendorId (id (deviceFromUEventFile (hd_uevent dir))))
           (productId (id (deviceFromUEventFile (hd_uevent dir)))) additional))) →
  (∀ dir d, P d → P (append_subDevices (dir_subDevices tree dir d) d)) →
  Forall P devs → Forall P (fold_left (scan_dir additional tree) dirs devs).
Proof.
  intros Hnew Happ. revert devs.
  induction dirs as [|dir dirs IH]; intros devs Hdevs; simpl; [exact Hdevs|].
  apply IH. apply scan_dir_Forall; [apply Hnew|apply Happ|exact Hdevs].
Qed.

Lemma scanForDevices_Forall (P : Device → Prop) tree additional :
  (∀ dir, P (set_userName (deviceFromUEventFile (hd_uevent dir))
        (getUserDeviceName (vendorId (id (deviceFromUEventFile (hd_uevent dir))))
           (productId (id (deviceFromUEventFile (hd_uevent dir)))) additional))) →
  (∀ dir d, P d → P (append_subDevices (dir_subDevices tree dir d) d)) →
  Forall P (devices (scanForDevices tree additional)).
Proof.
  intros Hnew Happ. unfold scanForDevices.
  destruct (negb (root_exists tree)); [constructor|].
  destruct (negb (root_executable tree)); [constructor|].
  simpl. apply scan_fold_Forall; [exact Hnew|exact Happ|constructor].
Qed.

(** X4: every sub-device of a scan result names its device node by an
    absolute path, has no connection and no flags, and carries the access
    bits of that node; hence the tests for an empty [DeviceFile] in the
    two [std::all_of] calls never decide, and a device is counted readable
    exactly when all its nodes are. *)
Theorem scanned_subDevices_are_unconnected_nodes
    (tree : DeviceTree) (additional : list SupportedDevice) :
  Forall (fun d =>
            Forall (scanned_SubDevice tree) (subDevices d)
            ∧ allReadable d = forallb DeviceReadable (subDevices d)
            ∧ allWriteable d = forallb DeviceWritable (subDevices d))
         (devices (scanForDevices tree additional)).
Proof.
  eapply Forall_impl.
  - apply (scanForDevices_Forall
             (fun d => Forall (scanned_SubDevice tree) (subDevices d))).
    + intros dir. simpl. rewrite (proj1 (proj2 (deviceFromUEventFile_rest _))).
      constructor.
    + intros dir d Hd. simpl. apply Forall_app. split; [exact Hd|].
      apply dir_subDevices_scanned.
  - intros d Hd. simpl in *. split; [exact Hd|].
    unfold allReadable, allWriteable.
    split; induction Hd as [|sd l Hsd Hl IH]; simpl; try reflexivity;
      rewrite IH; destruct Hsd as (Habs & _);
      rewrite (isEmpty_false_prefix _ Habs); reflexivity.
Qed.

Lemma found_name_default s :
  s ∈ supportedDefaultDevices →
  found_name (sup_vendorId s) (sup_productId s) supportedDefaultDevices
  = Some (sup_name s).
Proof.
  unfold supportedDefaultDevices. intros Hs.
  apply elem_of_cons in Hs as [->|Hs]; [reflexivity|].
  apply elem_of_cons in Hs as [->|Hs]; [reflexivity|].
  apply elem_of_nil in Hs. destruct Hs.
Qed.

(** X5: every device of a scan result has the user name
    [getUserDeviceName] gives for its ids, which is the built-in name for
    a built-in device whatever the other lists say; its [eventIM] is null
    and its [hidrwNode] is the value of a default-constructed [Device]. *)
Theorem scanned_devices_carry_no_connection
    (tree : DeviceTree) (additional : list SupportedDevice) :
  Forall (fun d =>
            userName d
            = getUserDeviceName (vendorId (id d)) (productId (id d)) additional
            ∧ (∀ s, s ∈ supportedDefaultDevices →
                    sup_vendorId s = vendorId (id d) →
                    sup_productId s = productId (id d) →
                    userName d = sup_name s)
            ∧ eventIM d = None
            ∧ hidrwNode d = uninitialised_hidrwNode)
         (devices (scanForDevices tree additional)).
Proof.
  eapply Forall_impl.
  - apply (scanForDevices_Forall
             (fun d => userName d
                       = getUserDeviceName (vendorId (id d)) (productId (id d))
                                           additional
                       ∧ eventIM d = None
                       ∧ hidrwNode d = uninitialised_hidrwNode)).
    + intros dir. simpl.
      destruct (deviceFromUEventFile_rest (hd_uevent dir)) as (_ & _ & -> & ->).
      auto.
    + intros dir d Hd. exact Hd.
  - intros d (Hn & Hi & Hh). simpl. split; [exact Hn|]. split; [|auto].
    intros s Hs Hv Hp. rewrite Hn, <- Hv, <- Hp. unfold getUserDeviceName.
    rewrite (found_name_default s Hs). reflexivity.
Qed.

(** *** The two counters *)

Lemma count_u16_fold (p : Device → bool) devs n :
  fold_left (fun n dev => (n + (if p dev then 1 else 0)) `mod` 65536) devs
            (n `mod` 65536)
  = (n + Z.of_nat (length (List.filter p devs))) `mod` 65536.
Proof.
  revert n. induction devs as [|d devs IH]; intros n; simpl.
  - rewrite Z.add_0_r. reflexivity.
  - rewrite Zplus_mod_idemp_l, IH. destruct (p d); simpl length.
    + f_equal. lia.
    + f_equal. lia.
Qed.

(** X6: [numDevicesReadable] and [numDevicesWritable] are the numbers of
    devices all of whose sub-devices are readable, respectively writable,
    modulo 65536; they lie between 0 and the number of devices, and a
    device without sub-devices counts for both. *)
Theorem scanForDevices_counters
    (tree : DeviceTree) (additional : list SupportedDevice) :
  let r := scanForDevices tree additional in
  numDevicesReadable r
  = Z.of_nat (length (List.filter allReadable (devices r))) `mod` 65536
  ∧ numDevicesWritable r
    = Z.of_nat (length (List.filter allWriteable (devices r))) `mod` 65536
  ∧ 0 ≤ numDevicesReadable r ≤ Z.of_nat (length (devices r))
  ∧ 0 ≤ numDevicesWritable r ≤ Z.of_nat (length (devices r))
  ∧ (∀ d, subDevices d = [] → allReadable d = true ∧ allWriteable d = true).
Proof.
  intros r.
  assert (Hr : numDevicesReadable r = count_u16 allReadable (devices r)
               ∧ numDevicesWritable r = count_u16 allWriteable (devices r)).
  { subst r. unfold scanForDevices.
    destruct (negb (root_exists tree)); [split; reflexivity|].
    destruct (negb (root_executable tree)); split; reflexivity. }
  destruct Hr as (Hr & Hw).
  assert (Heq : ∀ p, count_u16 p (devices r)
                     = Z.of_nat (length (List.filter p (devices r))) `mod` 65536).
  { intros p. unfold count_u16. apply (count_u16_fold p (devices r) 0). }
  assert (Hle : ∀ p, 0 ≤ Z.of_nat (length (List.filter p (devices r))) `mod` 65536
                     ≤ Z.of_nat (length (devices r))).
  { intros p. pose proof (List.filter_length_le p (devices r)) as Hl.
    pose proof (Z.mod_pos_bound (Z.of_nat (length (List.filter p (devices r)))) 65536
                  ltac:(lia)) as Hb.
    pose proof (Z.mod_le (Z.of_nat (length (List.filter p (devices r)))) 65536
                  ltac:(lia) ltac:(lia)) as Hm.
    lia. }
  rewrite Hr, Hw, !Heq.
  split; [reflexivity|]. split; [reflexivity|].
  split; [apply Hle|]. split; [apply Hle|].
  intros d Hnil. unfold allReadable, allWriteable. rewrite Hnil. split; reflexivity.
Qed.

(** X7: an input directory whose vendor or product id differs from the
    root device's ends the enumeration of input directories: the
    directories after it contribute no sub-device, whatever they hold. *)
Theorem input_subDevices_stops_at_mismatch
    (tree : DeviceTree) (root : DeviceId) (pre post : list InputDir)
    (e : InputDir) :
  id_mismatch root e = true →
  input_subDevices tree root (pre ++ e :: post) = input_subDevices tree root pre.
Proof.
  intros He. induction pre as [|e0 pre IH]; simpl.
  - unfold id_mismatch in He. rewrite He. reflexivity.
  - rewrite IH. reflexivity.
Qed.

End ScanResultProofs.

(* ================================================================== *)
(** * The life of the connections *)

Section LifecycleProofs.
Context `{Externals} `{InputMapperModel}.

Lemma sub_paths_app t1 t2 : sub_paths (t1 ++ t2) = sub_paths t1 ++ sub_paths t2.
Proof. apply omap_app. Qed.

Lemma spot_signals_app t1 t2 :
  spot_signals (t1 ++ t2) = spot_signals t1 ++ spot_signals t2.
Proof. apply omap_app. Qed.

Lemma extends_refl st : extends st st.
Proof.
  unfold extends. repeat split.
  exists [], [], [], []. rewrite !app_nil_r. repeat split. constructor.
Qed.

Lemma extends_trans st1 st2 st3 :
  extends st1 st2 → extends st2 st3 → extends st1 st3.
Proof.
  intros (A1 & A2 & A3 & A4 & A5 & A6 & cs & ms & a & delta & Ac & Am & Aa & At & Ap & Ad)
         (B1 & B2 & B3 & B4 & B5 & B6 & cs' & ms' & a' & delta' & Bc & Bm & Ba & Bt & Bp & Bd).
  unfold extends.
  split; [congruence|]. split; [congruence|]. split; [congruence|].
  split; [congruence|]. split; [congruence|]. split; [congruence|].
  exists (cs ++ cs'), (ms ++ ms'), (a ++ a'), (delta ++ delta').
  rewrite Bc, Bm, Ba, Bt, Ac, Am, Aa, At, <- !app_assoc.
  repeat split.
  - rewrite sub_paths_app, Ap, Bp. unfold callback_paths. rewrite fmap_app. reflexivity.
  - apply Forall_app. split; assumption.
Qed.

Lemma extends_emit st e :
  is_connect_effect e = true → sub_paths [e] = [] → extends st (emit st e).
Proof.
  intros He Hp. unfold extends. simpl. repeat split.
  exists [], [], [], [e]. rewrite !app_nil_r. repeat split; [exact Hp|].
  constructor; [exact He|constructor].
Qed.

Lemma extends_alloc_conn st c : extends st (alloc_conn st c).2.
Proof.
  unfold extends. simpl. repeat split.
  exists [c], [], [], []. rewrite !app_nil_r. repeat split. constructor.
Qed.

Lemma extends_set_m_device st d : extends st (set_m_device st d).
Proof.
  unfold extends. simpl. repeat split.
  exists [], [], [], []. rewrite !app_nil_r. repeat split. constructor.
Qed.

Lemma release_connection_extends c st : extends st (release_connection c st).
Proof.
  destruct (release_connection_cases c st) as [->|(descriptor & ->)];
    [apply extends_refl|apply extends_emit; reflexivity].
Qed.

Lemma release_device_extends d st : extends st (release_device d st).
Proof.
  destruct d as [d|]; [|apply extends_refl]. simpl.
  induction (subDevices d) as [|subdev subs IH]; [apply extends_refl|].
  simpl. eapply extends_trans; [exact IH|]. apply release_connection_extends.
Qed.

Lemma openEventSubDeviceConnection_extends os subdev st :
  extends st (openEventSubDeviceConnection os subdev st).2.
Proof.
  unfold openEventSubDeviceConnection.
  destruct (sys_open os (DeviceFile subdev) ReadOnly <? 0).
  { cbn [snd alloc_conn].
    eapply extends_trans; [|apply extends_alloc_conn].
    eapply extends_trans; apply extends_emit; reflexivity. }
  destruct (sys_EVIOCGBIT_ev os _) as [bitmask|].
  2:{ cbn [snd alloc_conn].
      eapply extends_trans; [|apply extends_alloc_conn].
      eapply extends_trans; [|apply extends_emit; reflexivity].
      eapply extends_trans; apply extends_emit; reflexivity. }
  cbn [m_virtualDevice emit].
  destruct (m_virtualDevice st); [destruct (sys_EVIOCGRAB os _ =? 0)|];
    cbn [snd alloc_conn];
    (eapply extends_trans; [|apply extends_alloc_conn]);
    repeat (first [ apply extends_emit; reflexivity
                  | eapply extends_trans; [|apply extends_emit; reflexivity] ]).
Qed.


Lemma openHidrawSubDeviceConnection_extends os subdev st :
  extends st (openHidrawSubDeviceConnection os subdev st).2.
Proof.
  unfold openHidrawSubDeviceConnection.
  destruct (sys_open os (DeviceFile subdev) ReadWrite <? 0);
    cbn [snd alloc_conn];
    (eapply extends_trans; [|apply extends_alloc_conn]);
    repeat (first [ apply extends_emit; reflexivity
                  | eapply extends_trans; [|apply extends_emit; reflexivity] ]).
Qed.

Lemma extends_set_conns_last st st1 cnew f :
  extends st st1 → conns st1 = conns st ++ [cnew] →
  extends st (set_conns st1 (alter f (length (conns st)) (conns st1))).
Proof.
  intros (A1 & A2 & A3 & A4 & A5 & A6 & cs & ms & a & delta & Ac & Am & Aa & At & Ap & Ad)
         Hconns.
  unfold extends. simpl. repeat split; try assumption.
  exists [f cnew], ms, a, delta. repeat split; try assumption.
  rewrite Hconns. rewrite <- (Nat.add_0_r (length (conns st))) at 1.
  rewrite alter_app_r. reflexivity.
Qed.

Lemma extends_add_handler st cb i n msg :
  extends st (emit (emit (set_activated st (activated st ++ [cb])) (log LogDebug msg))
                   (subDeviceConnected i n (DeviceFile cb.2))).
Proof.
  unfold extends. simpl. repeat split.
  exists [], [], [cb], [log LogDebug msg; subDeviceConnected i n (DeviceFile cb.2)].
  rewrite !app_nil_r, <- app_assoc. repeat split.
  repeat constructor.
Qed.

Lemma ConnectEventSubDevices_body_extends os d subdev st :
  extends st (ConnectEventSubDevices_body os d subdev st).1.2.
Proof.
  unfold ConnectEventSubDevices_body.
  destruct (event_candidate subdev); [|apply extends_refl].
  destruct (notifier_enabled st (connection subdev)); [apply extends_refl|].
  pose proof (openEventSubDeviceConnection_extends os subdev st) as Hext.
  destruct (openEventSubDeviceConnection os subdev st) as [[subdev1 h] st1] eqn:Hopen.
  apply openEventSubDeviceConnection_grow in Hopen
    as (-> & (cnew & Hconns & Hbuf) & Hmap & Hact & Hdev).
  cbn [snd] in Hext.
  pose proof (extends_trans _ _ _ Hext
                (release_connection_extends (connection subdev) st1)) as Hext1.
  destruct (release_connection_same (connection subdev) st1) as (Rc & _).
  rewrite <- Rc in Hconns. clear Rc Hext Hmap Hact Hdev.
  set (st1r := release_connection (connection subdev) st1) in *.
  clearbody st1r. clear st1. rename st1r into st1. rename Hext1 into Hext.
  pose proof (extends_set_conns_last st st1 cnew (fun c => set_im c (eventIM d))
                Hext Hconns) as Hext2.
  set (st2 := set_conns st1 _) in *. clearbody st2.
  destruct (notifier_enabled st2 (Some (length (conns st)))) eqn:Hen.
  - unfold addInputEventHandler.
    cbn [connection set_connection type].
    rewrite Hen.
    destruct (is_Event (type subdev1)); cbn [negb orb fst snd].
    + eapply extends_trans; [exact Hext2|].
      apply (extends_add_handler st2
               (length (conns st), set_connection subdev1 (Some (length (conns st))))).
    + eapply extends_trans; [exact Hext2|]. apply extends_emit; reflexivity.
  - cbn [fst snd]. eapply extends_trans; [exact Hext2|].
    apply extends_emit; reflexivity.
Qed.

Lemma ConnectEventSubDevices_loop_extends os d subs st n :
  extends st (ConnectEventSubDevices_loop os d subs st n).1.2.
Proof.
  revert st n. induction subs as [|subdev subs IH]; intros st n.
  - apply extends_refl.
  - cbn [ConnectEventSubDevices_loop].
    pose proof (ConnectEventSubDevices_body_extends os d subdev st) as Hb.
    destruct (ConnectEventSubDevices_body os d subdev st)
      as [[subdev1 st1] counted].
    specialize (IH st1 (if counted then n + 1 else n)).
    destruct (ConnectEventSubDevices_loop os d subs st1 _) as [[rest st2] n2].
    cbn [fst snd] in *. eapply extends_trans; eassumption.
Qed.

Lemma ConnectHidrawSubDevices_loop_extends os d subs st :
  extends st (ConnectHidrawSubDevices_loop os d subs st).1.1.2.
Proof.
  revert st. induction subs as [|subdev subs IH]; intros st.
  - apply extends_refl.
  - cbn [ConnectHidrawSubDevices_loop].
    destruct (is_Hidraw (type subdev) && DeviceWritable subdev
              && DeviceReadable subdev
              && (0 <? String.length (DeviceFile subdev))%nat).
    + pose proof (openHidrawSubDeviceConnection_extends os subdev st) as Hopen.
      destruct (openHidrawSubDeviceConnection os subdev st) as [[subdev1 h] st1].
      cbn [snd] in Hopen.
      pose proof (extends_trans _ _ _ Hopen
                    (release_connection_extends (connection subdev) st1)) as Hopen1.
      clear Hopen.
      set (st1r := release_connection (connection subdev) st1) in *.
      clearbody st1r. clear st1. rename st1r into st1. rename Hopen1 into Hopen.
      destruct (notifier_enabled st1 _ && _).
      * unfold addInputHidrawHandler. cbn [connection set_connection type].
        destruct (negb (is_Hidraw (type subdev1)) || _).
        -- specialize (IH (emit st1 (log LogError msg_hidraw_failed))).
           destruct (ConnectHidrawSubDevices_loop os d subs _)
             as [[[rest st2] n2] node2].
           cbn [fst snd] in *.
           eapply extends_trans; [exact Hopen|].
           eapply extends_trans; [|exact IH]. apply extends_emit; reflexivity.
        -- cbn [fst snd]. exact Hopen.
      * specialize (IH (emit st1 (log LogError msg_hidraw_failed))).
        destruct (ConnectHidrawSubDevices_loop os d subs _)
          as [[[rest st2] n2] node2].
        cbn [fst snd] in *.
        eapply extends_trans; [exact Hopen|].
        eapply extends_trans; [|exact IH]. apply extends_emit; reflexivity.
    + specialize (IH st).
      destruct (ConnectHidrawSubDevices_loop os d subs st)
        as [[[rest st2] n2] node2].
      cbn [fst snd] in *. exact IH.
Qed.

Lemma connectSubDevices_extends os st :
  extends st (connectSubDevices os st).2.
Proof.
  unfold connectSubDevices.
  destruct (m_device st) as [d|] eqn:Hdev; [|apply extends_refl].
  destruct (length (subDevices d) =? 0)%nat; [apply extends_refl|].
  unfold ConnectEventSubDevices. rewrite Hdev.
  pose proof (ConnectEventSubDevices_loop_extends os d (subDevices d) st 0) as Hev.
  destruct (ConnectEventSubDevices_loop os d (subDevices d) st 0)
    as [[subs1 st1] n1].
  cbn [fst snd] in Hev.
  unfold ConnectHidrawSubDevices. cbn [m_device set_m_device].
  pose proof (ConnectHidrawSubDevices_loop_extends os (set_subDevices d subs1)
                (subDevices (set_subDevices d subs1))
                (set_m_device st1 (Some (set_subDevices d subs1)))) as Hhid.
  destruct (ConnectHidrawSubDevices_loop os _ _ _) as [[[subs2 st2] n2] node].
  cbn [fst snd] in Hhid.
  assert (Hall : extends st (set_m_device st2
            (Some match node with
                  | Some descriptor =>
                      set_hidrwNode (set_subDevices (set_subDevices d subs1) subs2)
                                    descriptor
                  | None => set_subDevices (set_subDevices d subs1) subs2
                  end))).
  { eapply extends_trans; [exact Hev|].
    eapply extends_trans; [apply extends_set_m_device|].
    eapply extends_trans; [exact Hhid|]. apply extends_set_m_device. }
  destruct ((0 <? n1) && (0 <? n2)); exact Hall.
Qed.

Lemma select_device_extends tree i st st1 :
  select_device tree i st = Some st1 → extends st st1.
Proof.
  unfold select_device.
  destruct (devices (scanForDevices tree (m_additionalDevices st)))
    as [|first others]; [discriminate|].
  set (found := List.find _ (first :: others)). clearbody found.
  intros [= <-].
  assert (Hm : ∀ st0, extends st0 (alloc_mapper st0).2).
  { intros st0. unfold extends. simpl. repeat split.
    exists [], [InputMapper_new (m_virtualDevice st0)], [], [].
    rewrite !app_nil_r. repeat split. constructor. }
  set (st_a := if negb (vendorId i =? 0) && negb (productId i =? 0)
               then match found with
                    | Some dev => release_device (m_device st)
                                                 (set_m_device st (Some dev))
                    | None => st
                    end
               else st).
  assert (Ha : extends st st_a).
  { subst st_a. destruct (_ && _); [|apply extends_refl].
    destruct found; [|apply extends_refl].
    eapply extends_trans; [apply extends_set_m_device|].
    apply release_device_extends. }
  clearbody st_a.
  set (st_b := match m_device st_a with
               | None => set_m_device st_a (Some first)
               | Some _ => st_a
               end).
  assert (Hb : extends st_a st_b).
  { subst st_b. destruct (m_device st_a); [apply extends_refl|apply extends_set_m_device]. }
  clearbody st_b.
  eapply extends_trans; [exact Ha|]. eapply extends_trans; [exact Hb|].
  eapply extends_trans; [exact (Hm st_b)|]. apply extends_set_m_device.
Qed.

Lemma connectDevice_extends tree os i st :
  extends st (connectDevice tree os i st).2.
Proof.
  unfold connectDevice.
  destruct (select_device tree i st) as [st1|] eqn:Hsel; [|apply extends_refl].
  apply select_device_extends in Hsel.
  pose proof (connectSubDevices_extends os st1) as Hsub.
  destruct (connectSubDevices os st1) as [n st2]. cbn [snd] in *.
  eapply extends_trans; [exact Hsel|]. eapply extends_trans; [exact Hsub|].
  destruct (0 <? n); [|apply extends_refl].
  destruct (m_device st2) as [d|]; [|apply extends_refl].
  destruct (negb (anySpotlightDeviceConnected st)).
  - eapply extends_trans; [|apply extends_emit; reflexivity].
    eapply extends_trans; apply extends_emit; reflexivity.
  - eapply extends_trans; apply extends_emit; reflexivity.
Qed.

End LifecycleProofs.

(* ================================================================== *)
(** * What the trace of a reachable state holds *)

Section TraceProofs.
Context `{Externals} `{InputMapperModel}.

(** What a notifier activation does in a state the object can be in. *)
Lemma deliver_activated_summary st k reads st' rest :
  reachable st →
  deliver_activated k reads st = Some (st', rest) →
  activated st' = activated st
  ∧ m_device st' = m_device st
  ∧ m_virtualDevice st' = m_virtualDevice st
  ∧ length (mappers st') = length (mappers st)
  ∧ (∀ h0, notifier_enabled st (Some h0) = false →
           conns st' !! h0 = conns st !! h0)
  ∧ ∃ delta, trace st' = trace st ++ delta
             ∧ Forall (fun e => is_frame_call e = true
                                ∨ e = spotActiveChanged true
                                ∨ e = log LogWarning msg_discarded) delta.
Proof.
  intros Hreach Hrun.
  pose proof (reachable_handlers_ok st Hreach) as Hok.
  pose proof (reachable_device_set st Hreach) as Hset.
  unfold deliver_activated in Hrun.
  destruct (activated st !! k) as [[h dev]|] eqn:Hk.
  2:{ injection Hrun as <- <-. repeat split; try reflexivity.
      exists []. rewrite app_nil_r. split; [reflexivity|constructor]. }
  destruct (notifier_enabled st (Some h)) eqn:Hen.
  2:{ injection Hrun as <- <-. repeat split; try reflexivity.
      exists []. rewrite app_nil_r. split; [reflexivity|constructor]. }
  unfold handlers_ok in Hok. rewrite Forall_forall in Hok.
  destruct (Hok (h, dev)) as (c & Hc & Hcok);
    [eapply list_elem_of_lookup_2; eassumption|]. simpl in Hc.
  pose proof Hcok as (_ & _ & (m & Him & _) & _).
  destruct (handler_spec reads h dev st c m Hc Hcok Him)
    as (st1 & rest1 & pre & c' & delta & Hrun' & _ & _ & _ & _ & Hother & Hmap
        & Hact & Hdev & Hvd & _ & Htr & _ & Hdelta).
  rewrite Hrun in Hrun'. injection Hrun' as <- <-.
  split; [exact Hact|]. split; [exact Hdev|]. split; [exact Hvd|].
  split; [exact Hmap|]. split.
  { intros h0 Hdis. apply Hother. intros ->. congruence. }
  exists delta. split; [exact Htr|].
  eapply Forall_impl; [exact Hdelta|]. simpl.
  intros e [He|[He|[He|[_ Hnone]]]]; auto.
  apply Hset in Hnone. rewrite Hnone in Hk. discriminate.
Qed.

Lemma handler_delta_quiet delta :
  Forall (fun e => is_frame_call e = true
                   ∨ e = spotActiveChanged true
                   ∨ e = log LogWarning msg_discarded) delta →
  sub_paths delta = [] ∧ Forall (fun e => is_disconnection e = false) delta.
Proof.
  induction 1 as [|e delta He Hall [IH1 IH2]]; [split; [reflexivity|constructor]|].
  split.
  - unfold sub_paths in *. cbn [omap list_omap]. 
    destruct He as [He|[He|He]]; [destruct e; try discriminate| |]; subst; simpl; exact IH1.
  - constructor; [|exact IH2].
    destruct He as [He|[He|He]]; [destruct e; try discriminate| |]; subst; reflexivity.
Qed.

Lemma connect_delta_quiet delta :
  Forall (fun e => is_connect_effect e = true) delta →
  spot_signals delta = [] ∧ Forall (fun e => is_disconnection e = false) delta.
Proof.
  induction 1 as [|e delta He Hall [IH1 IH2]]; [split; [reflexivity|constructor]|].
  split.
  - unfold spot_signals in *. cbn [omap list_omap].
    destruct e; try discriminate; simpl; exact IH1.
  - constructor; [|exact IH2].
    destruct e as [| | | |[]| | | | | | | |]; try discriminate; reflexivity.
Qed.

Lemma closes_quiet closes :
  Forall (fun e => ∃ descriptor, e = call_close descriptor) closes →
  sub_paths closes = [] ∧ spot_signals closes = []
  ∧ Forall (fun e => is_disconnection e = false) closes.
Proof.
  induction 1 as [|e closes (descriptor & ->) Hall (IH1 & IH2 & IH3)].
  - repeat split. constructor.
  - split; [exact IH1|]. split; [exact IH2|]. constructor; [reflexivity|exact IH3].
Qed.

Lemma run_pending_same fuel st st' :
  run_pending fuel st = Some st' →
  conns st' = conns st ∧ mappers st' = mappers st
  ∧ activated st' = activated st
  ∧ (∃ closes, trace st' = trace st ++ closes
               ∧ Forall (fun e => ∃ descriptor, e = call_close descriptor) closes)
  ∧ m_spotActive st' = m_spotActive st ∧ m_activeTimer st' = m_activeTimer st
  ∧ (∀ d', m_device st' = Some d' →
       ∃ d, m_device st = Some d ∧ hidrwNode d' = hidrwNode d).
Proof.
  assert (Hnil : ∃ closes, trace st = trace st ++ closes
                   ∧ Forall (fun e => ∃ descriptor, e = call_close descriptor)
                            closes).
  { exists []. rewrite app_nil_r. split; [reflexivity|constructor]. }
  unfold run_pending. destruct (pending st) as [|file rest].
  { intros [= <-]. repeat split; eauto. }
  unfold removeSubDeviceConnection. cbn [m_device set_pending].
  destruct (m_device st) as [d|] eqn:Hd.
  2:{ intros [= <-]. simpl. rewrite Hd. repeat split; auto. discriminate. }
  destruct (length (subDevices d) =? 0)%nat.
  { intros [= <-]. simpl. rewrite Hd. repeat split; eauto. }
  destruct (removeSubDeviceConnection_loop fuel file (subDevices d) 0)
    as [[erased subs]|]; simpl; [|discriminate].
  intros [= <-].
  destruct (release_connection_cases (erased ≫= connection)
              (set_m_device (set_pending st rest) (Some (set_subDevices d subs))))
    as [->|(descriptor & ->)]; simpl.
  - repeat split; auto. intros d' [= <-]. eauto.
  - repeat split; auto.
    + exists [call_close descriptor]. split; [reflexivity|].
      constructor; [eauto|constructor].
    + intros d' [= <-]. eauto.
Qed.

Lemma sendDatatoDevice_summary os data len st :
  let st' := (sendDatatoDevice os data len st).2 in
  conns st' = conns st ∧ mappers st' = mappers st
  ∧ activated st' = activated st ∧ m_device st' = m_device st
  ∧ m_spotActive st' = m_spotActive st ∧ m_activeTimer st' = m_activeTimer st
  ∧ ∃ delta, trace st' = trace st ++ delta
             ∧ Forall (fun e => e = log LogError msg_write_failed
                                ∨ ∃ d res, m_device st = Some d
                                           ∧ hidrwNode d ≠ 0
                                           ∧ e = call_write (hidrwNode d)
                                                   (take len data) res) delta.
Proof.
  unfold sendDatatoDevice. destruct (m_device st) as [d|] eqn:Hd.
  2:{ simpl. rewrite Hd. repeat split. exists []. rewrite app_nil_r.
      split; [reflexivity|constructor]. }
  destruct (hidrwNode d =? 0) eqn:Hz; cbn [negb].
  { simpl. rewrite Hd. repeat split. exists []. rewrite app_nil_r.
    split; [reflexivity|constructor]. }
  apply Z.eqb_neq in Hz.
  simpl. destruct (sys_write os _ _ <? 0); simpl; rewrite ?Hd; repeat split.
  - eexists [_; _]. rewrite <- app_assoc. split; [reflexivity|].
    constructor; [right; eauto|]. constructor; [left; reflexivity|constructor].
  - eexists [_]. split; [reflexivity|].
    constructor; [right; eauto|constructor].
Qed.

(** X8: in no state the object can be in does the trace hold
    [deviceDisconnected], [subDeviceDisconnected] or
    [anySpotlightDeviceConnectedChanged(false)]: nothing in the sources
    emits the first two, and the only [emit] of the third cannot be
    reached. *)
Theorem reachable_never_reports_disconnection (st : Spotlight) :
  reachable st → Forall (fun e => is_disconnection e = false) (trace st).
Proof.
  intros (additional & vd & Hrtc). revert st Hrtc.
  apply (rtc_ind_r (fun st => Forall (fun e => is_disconnection e = false) (trace st))).
  - constructor.
  - intros st1 st2 Hreach Hstep IH.
    destruct Hstep as [tree os i st1|k reads st1 st2 rest Hrun|st1 Htimer
                       |fuel st1 st2 Hrun|os strength st1].
    + destruct (connectDevice_extends tree os i st1)
        as (_ & _ & _ & _ & _ & _ & cs & ms & a & delta & _ & _ & _ & -> & _ & Hd).
      apply Forall_app. split; [exact IH|]. apply connect_delta_quiet, Hd.
    + destruct (deliver_activated_summary st1 k reads st2 rest)
        as (_ & _ & _ & _ & _ & delta & -> & Hd);
        [exists additional, vd; exact Hreach|exact Hrun|].
      apply Forall_app. split; [exact IH|]. apply handler_delta_quiet, Hd.
    + simpl. apply Forall_app. split; [exact IH|]. repeat constructor.
    + apply run_pending_same in Hrun as (_ & _ & _ & (closes & -> & Hcl) & _).
      apply Forall_app. split; [exact IH|]. apply closes_quiet, Hcl.
    + unfold vibrateDevice.
      destruct (sendDatatoDevice_summary os (vibration_data strength) 7 st1)
        as (_ & _ & _ & _ & _ & _ & delta & -> & Hd).
      apply Forall_app. split; [exact IH|].
      eapply Forall_impl; [exact Hd|]. simpl.
      intros e [He|(d & res & _ & _ & He)]; subst; reflexivity.
Qed.

(** X9: in every state the object can be in, the [subDeviceConnected]
    signals emitted so far name, in order, the device files of the
    callbacks connected so far: each callback is announced once, and no
    callback is ever disconnected. *)
Theorem reachable_callbacks_match_announcements (st : Spotlight) :
  reachable st → sub_paths (trace st) = callback_paths (activated st).
Proof.
  intros (additional & vd & Hrtc). revert st Hrtc.
  apply (rtc_ind_r (fun st => sub_paths (trace st) = callback_paths (activated st))).
  - reflexivity.
  - intros st1 st2 Hreach Hstep IH.
    destruct Hstep as [tree os i st1|k reads st1 st2 rest Hrun|st1 Htimer
                       |fuel st1 st2 Hrun|os strength st1].
    + destruct (connectDevice_extends tree os i st1)
        as (_ & _ & _ & _ & _ & _ & cs & ms & a & delta & _ & _ & -> & -> & Hp & _).
      rewrite sub_paths_app, IH, Hp. unfold callback_paths. rewrite fmap_app.
      reflexivity.
    + destruct (deliver_activated_summary st1 k reads st2 rest)
        as (-> & _ & _ & _ & _ & delta & -> & Hd);
        [exists additional, vd; exact Hreach|exact Hrun|].
      rewrite sub_paths_app, IH. rewrite (proj1 (handler_delta_quiet _ Hd)).
      apply app_nil_r.
    + simpl. rewrite sub_paths_app, IH. apply app_nil_r.
    + apply run_pending_same in Hrun as (_ & _ & -> & (closes & -> & Hcl) & _).
      rewrite sub_paths_app, IH. rewrite (proj1 (closes_quiet _ Hcl)).
      apply app_nil_r.
    + unfold vibrateDevice.
      destruct (sendDatatoDevice_summary os (vibration_data strength) 7 st1)
        as (_ & _ & -> & _ & _ & _ & delta & -> & Hd).
      rewrite sub_paths_app, IH.
      assert (Hq : sub_paths delta = []).
      { clear -Hd. induction Hd as [|e delta He Hall IH]; [reflexivity|].
        unfold sub_paths in *. cbn [omap list_omap].
        destruct He as [He|(d & res & _ & _ & He)]; subst; simpl; exact IH. }
      rewrite Hq. apply app_nil_r.
Qed.

End TraceProofs.

(* ================================================================== *)
(** * The activity flag *)

Section SpotProofs.
Context `{Externals} `{InputMapperModel}.

Lemma alternates_app cur l1 l2 :
  alternates cur (l1 ++ l2) = alternates cur l1 ≫= fun c => alternates c l2.
Proof.
  revert cur. induction l1 as [|b l1 IH]; intros cur; simpl; [reflexivity|].
  destruct (Bool.eqb b cur); [reflexivity|apply IH].
Qed.

(** The activity flag and the activity timer after the loop body that
    follows a successful read. *)
Lemma on_read_success_spot ev h st st' :
  on_read_success ev h st = Some st' →
  m_spotActive st = m_activeTimer st →
  m_spotActive st' = m_activeTimer st'
  ∧ (m_activeTimer st = true → m_activeTimer st' = true)
  ∧ pending st' = pending st
  ∧ ∃ delta, trace st' = trace st ++ delta
             ∧ alternates (m_spotActive st) (spot_signals delta)
               = Some (m_spotActive st').
Proof.
  intros Hrun Hinv. unfold on_read_success in Hrun.
  destruct (conns st !! h) as [c|]; simpl in Hrun; [|discriminate].
  destruct (ie_type ev =? EV_SYN).
  - destruct (<[pos_ (inputBuffer c):=ev]> (data_ (inputBuffer c)) !! 0%nat)
      as [first_ev|]; simpl in Hrun; [|discriminate].
    destruct (im c) as [m|]; simpl in Hrun; [|discriminate].
    destruct (mappers st !! m) as [mapper|]; simpl in Hrun; [|discriminate].
    injection Hrun as <-.
    destruct (isMouseMoveEvent first_ev).
    + destruct (recordingMode mapper); cbn [negb].
      * destruct (m_virtualDevice st) eqn:Hvd; simpl; rewrite ?Hvd; simpl;
          (split; [exact Hinv|]); (split; [auto|]); (split; [reflexivity|]).
        -- eexists [_]. split; [reflexivity|]. reflexivity.
        -- exists []. rewrite app_nil_r. split; reflexivity.
      * destruct (m_activeTimer st) eqn:Ht; cbn [negb];
          destruct (m_virtualDevice st) eqn:Hvd; simpl; rewrite ?Hvd; simpl;
          rewrite ?Hinv;
          (split; [reflexivity|]); (split; [auto|]); (split; [reflexivity|]).
        -- eexists [_]. split; [reflexivity|]. reflexivity.
        -- exists []. rewrite app_nil_r. split; reflexivity.
        -- eexists [_; _]. rewrite <- app_assoc. split; [reflexivity|]. reflexivity.
        -- eexists [_]. split; [reflexivity|]. reflexivity.
    + simpl. split; [exact Hinv|]. split; [auto|]. split; [reflexivity|].
      eexists [_]. split; [reflexivity|]. reflexivity.
  - match type of Hrun with
    | context [(size ?b <=? ?p)%nat] => destruct (size b <=? p)%nat
    end.
    + destruct (im c) as [m|]; simpl in Hrun; [|discriminate].
      destruct (mappers st !! m) as [mapper|]; simpl in Hrun; [|discriminate].
      injection Hrun as <-. simpl.
      split; [exact Hinv|]. split; [auto|]. split; [reflexivity|].
      eexists [_; _]. rewrite <- app_assoc. split; [reflexivity|]. reflexivity.
    + injection Hrun as <-. simpl.
      split; [exact Hinv|]. split; [auto|]. split; [reflexivity|].
      exists []. rewrite app_nil_r. split; reflexivity.
Qed.

Lemma on_read_failure_spot errno h dev st st' :
  on_read_failure errno h dev st = Some st' →
  m_spotActive st' = m_spotActive st
  ∧ m_activeTimer st' = m_activeTimer st
  ∧ (pending st' = pending st ∧ errno = EAGAIN ∧ st' = st
     ∨ pending st' = pending st ++ [DeviceFile dev] ∧ errno ≠ EAGAIN
       ∧ notifier_enabled st' (Some h) = false)
  ∧ ∃ delta, trace st' = trace st ++ delta ∧ spot_signals delta = [].
Proof.
  unfold on_read_failure. destruct (errno =? EAGAIN) eqn:He; cbn [negb].
  { intros [= <-]. apply Z.eqb_eq in He. repeat split; auto.
    exists []. rewrite app_nil_r. split; reflexivity. }
  apply Z.eqb_neq in He.
  destruct (conns st !! h) as [c|] eqn:Hc; simpl; [|discriminate].
  destruct (notifier c) as [n|]; simpl; [|discriminate].
  assert (Hlt : (h < length (conns st))%nat) by (eapply lookup_lt_Some; eassumption).
  unfold anySpotlightDeviceConnected. simpl.
  destruct (m_device st); intros [= <-]; simpl;
    (split; [reflexivity|]); (split; [reflexivity|]);
    (split; [right; split; [reflexivity|]; split; [exact He|];
             unfold notifier_enabled; simpl;
             rewrite list_lookup_insert_eq by exact Hlt; reflexivity|]).
  - exists []. rewrite app_nil_r. split; reflexivity.
  - eexists [_]. split; reflexivity.
Qed.

Lemma handler_spot reads h dev st st' rest :
  onEventSubDeviceDataAvailable reads h dev st = Some (st', rest) →
  m_spotActive st = m_activeTimer st →
  m_spotActive st' = m_activeTimer st'
  ∧ (m_activeTimer st = true → m_activeTimer st' = true)
  ∧ ∃ delta, trace st' = trace st ++ delta
             ∧ alternates (m_spotActive st) (spot_signals delta)
               = Some (m_spotActive st').
Proof.
  revert st. induction reads as [|r reads IH]; intros st Hrun Hinv;
    cbn [onEventSubDeviceDataAvailable] in Hrun;
    destruct (conns st !! h) as [c|]; simpl in Hrun; try discriminate;
    destruct (current (inputBuffer c)); simpl in Hrun; try discriminate.
  - injection Hrun as <- <-. split; [exact Hinv|]. split; [auto|].
    exists []. rewrite app_nil_r. split; reflexivity.
  - destruct r as [ev|errno].
    + destruct (on_read_success ev h st) as [st1|] eqn:Hok; simpl in Hrun;
        [|discriminate].
      destruct (on_read_success_spot ev h st st1 Hok Hinv)
        as (Hinv1 & Hkeep1 & _ & d1 & Htr1 & Halt1).
      destruct (negb (negb (Z.land (deviceFlags dev) NonBlocking =? 0))).
      * injection Hrun as <- <-. split; [exact Hinv1|]. split; [exact Hkeep1|].
        exists d1. split; assumption.
      * destruct (IH st1 Hrun Hinv1) as (Hinv2 & Hkeep2 & d2 & Htr2 & Halt2).
        split; [exact Hinv2|]. split; [auto|].
        exists (d1 ++ d2). split; [rewrite Htr2, Htr1, app_assoc; reflexivity|].
        rewrite spot_signals_app, alternates_app, Halt1. exact Halt2.
    + destruct (on_read_failure errno h dev st) as [st1|] eqn:Hfail; simpl in Hrun;
        [|discriminate].
      injection Hrun as <- <-.
      destruct (on_read_failure_spot errno h dev st st1 Hfail)
        as (Hs & Ht & _ & d1 & Htr1 & Hq).
      split; [congruence|]. split; [congruence|].
      exists d1. split; [exact Htr1|]. rewrite Hq, Hs. reflexivity.
Qed.

(** X10: in every state the object can be in, [m_spotActive] tells whether
    the activity timer runs, and the [spotActiveChanged] signals emitted so
    far alternate, starting with [true], the last one giving the value of
    [m_spotActive]. *)
Theorem reachable_spot_activity (st : Spotlight) :
  reachable st →
  m_spotActive st = m_activeTimer st
  ∧ alternates false (spot_signals (trace st)) = Some (m_spotActive st).
Proof.
  intros (additional & vd & Hrtc). revert st Hrtc.
  apply (rtc_ind_r (fun st =>
           m_spotActive st = m_activeTimer st
           ∧ alternates false (spot_signals (trace st)) = Some (m_spotActive st))).
  - split; reflexivity.
  - intros st1 st2 Hreach Hstep [IH1 IH2].
    destruct Hstep as [tree os i st1|k reads st1 st2 rest Hrun|st1 Htimer
                       |fuel st1 st2 Hrun|os strength st1].
    + destruct (connectDevice_extends tree os i st1)
        as (_ & Ht & _ & Hs & _ & _ & cs & ms & a & delta & _ & _ & _ & -> & _ & Hd).
      rewrite Ht, Hs. split; [exact IH1|].
      rewrite spot_signals_app, (proj1 (connect_delta_quiet _ Hd)), app_nil_r.
      exact IH2.
    + unfold deliver_activated in Hrun.
      destruct (activated st1 !! k) as [[h dev]|];
        [|injection Hrun as <- <-; split; assumption].
      destruct (notifier_enabled st1 (Some h));
        [|injection Hrun as <- <-; split; assumption].
      destruct (handler_spot reads h dev st1 st2 rest Hrun IH1)
        as (Hinv & _ & delta & -> & Halt).
      split; [exact Hinv|].
      rewrite spot_signals_app, alternates_app, IH2. exact Halt.
    + simpl. split; [reflexivity|].
      rewrite spot_signals_app, alternates_app, IH2. simpl.
      rewrite IH1, Htimer. reflexivity.
    + apply run_pending_same in Hrun
        as (_ & _ & _ & (closes & -> & Hcl) & -> & -> & _).
      split; [exact IH1|].
      rewrite spot_signals_app, (proj1 (proj2 (closes_quiet _ Hcl))), app_nil_r.
      exact IH2.
    + unfold vibrateDevice.
      destruct (sendDatatoDevice_summary os (vibration_data strength) 7 st1)
        as (_ & _ & _ & _ & -> & -> & delta & -> & Hd).
      split; [exact IH1|].
      assert (Hq : spot_signals delta = []).
      { clear -Hd. induction Hd as [|e delta He Hall IH]; [reflexivity|].
        unfold spot_signals in *. cbn [omap list_omap].
        destruct He as [He|(d & res & _ & _ & He)]; subst; simpl; exact IH. }
      rewrite spot_signals_app, Hq, app_nil_r. exact IH2.
Qed.

End SpotProofs.

(* ================================================================== *)
(** * Opening device nodes *)

Section OpenProofs.
Context `{Externals} `{InputMapperModel}.

Lemma has_flag_lor x f g : has_flag (Z.lor x f) g = has_flag x g || has_flag f g.
Proof.
  unfold has_flag. rewrite Z.land_lor_distr_l.
  destruct (Z.land x g =? 0) eqn:Hx, (Z.land f g =? 0) eqn:Hf; simpl.
  - apply Z.eqb_eq in Hx, Hf. rewrite Hx, Hf. reflexivity.
  - apply Z.eqb_eq in Hx. apply Z.eqb_neq in Hf. rewrite Hx. simpl.
    apply negb_true_iff, Z.eqb_neq. exact Hf.
  - apply Z.eqb_neq in Hx. apply negb_true_iff, Z.eqb_neq.
    intros Hz. apply Z.lor_eq_0_iff in Hz as [Hz _]. contradiction.
  - apply Z.eqb_neq in Hx. apply negb_true_iff, Z.eqb_neq.
    intros Hz. apply Z.lor_eq_0_iff in Hz as [Hz _]. contradiction.
Qed.

Lemma has_flag_or_flag cond f sd g :
  has_flag (deviceFlags (or_flag cond f sd)) g
  = has_flag (deviceFlags sd) g || (cond && has_flag f g).
Proof.
  unfold or_flag. destruct cond; simpl.
  - apply has_flag_lor.
  - rewrite orb_false_r. reflexivity.
Qed.


Lemma or_flag_type cond f sd : type (or_flag cond f sd) = type sd.
Proof. unfold or_flag. destruct cond; reflexivity. Qed.

(** X11: when [openEventSubDeviceConnection] has opened the node and read
    its event bits, each flag of the sub-device is what it was or-ed with
    what the kernel reports: [NonBlocking] with the success of setting
    [O_NONBLOCK], [SynEvents] and [RepEvents] with the bits of the event
    mask, [RelativeEvents] with [EV_REL] together with both axes; when the
    open or the query fails the sub-device is unchanged. *)
Theorem openEventSubDeviceConnection_flags
    (os : OS) (subdev : SubDevice) (st : Spotlight) :
  let subdev' := (openEventSubDeviceConnection os subdev st).1.1 in
  let evfd := sys_open os (DeviceFile subdev) ReadOnly in
  match sys_EVIOCGBIT_ev os evfd with
  | Some bitmask =>
      0 ≤ evfd →
      has_flag (deviceFlags subdev') NonBlocking
      = has_flag (deviceFlags subdev) NonBlocking || sys_nonblock os evfd
      ∧ has_flag (deviceFlags subdev') SynEvents
        = has_flag (deviceFlags subdev) SynEvents || bit_set bitmask EV_SYN
      ∧ has_flag (deviceFlags subdev') RepEvents
        = has_flag (deviceFlags subdev) RepEvents || bit_set bitmask EV_REP
      ∧ has_flag (deviceFlags subdev') RelativeEvents
        = has_flag (deviceFlags subdev) RelativeEvents
          || (bit_set bitmask EV_REL
              && bit_set (sys_EVIOCGBIT_rel os evfd) REL_X
              && bit_set (sys_EVIOCGBIT_rel os evfd) REL_Y)
  | None => subdev' = subdev
  end
  ∧ (evfd < 0 → subdev' = subdev).
Proof.
  cbn zeta. unfold openEventSubDeviceConnection.
  destruct (sys_open os (DeviceFile subdev) ReadOnly <? 0) eqn:Hneg.
  { apply Z.ltb_lt in Hneg. split; [|reflexivity].
    destruct (sys_EVIOCGBIT_ev os _); [lia|reflexivity]. }
  apply Z.ltb_ge in Hneg. split; [|lia].
  destruct (sys_EVIOCGBIT_ev os _) as [bitmask|]; [|reflexivity].
  intros _.
  cbn [m_virtualDevice emit].
  destruct (m_virtualDevice st); [destruct (sys_EVIOCGRAB os _ =? 0)|];
    cbn [fst snd alloc_conn];
  (destruct (bit_set bitmask EV_REL);
    rewrite !has_flag_or_flag; cbn [andb];
    repeat split;
    repeat match goal with
           | |- context [has_flag ?a ?b] =>
               lazymatch a with
               | deviceFlags _ => fail
               | _ => change (has_flag a b) with true
                      || change (has_flag a b) with false
               end
           end;
    rewrite ?andb_false_r, ?andb_true_r, ?orb_false_r; reflexivity).
Qed.


(** X12: the two open functions call [::open] once and return a new
    connection. A descriptor that [::open] has returned is either watched
    by the notifier of that connection, with [fd] set to it and never
    closed, or the connection has no notifier and [fd] 0 and, for an event
    node, the descriptor has been closed. *)
Theorem opened_descriptor_is_owned_or_closed
    (os : OS) (subdev : SubDevice) (st : Spotlight) :
  (let '(subdev', h, st') := openEventSubDeviceConnection os subdev st in
   let evfd := sys_open os (DeviceFile subdev) ReadOnly in
   ∃ c delta,
     h = length (conns st) ∧ conns st' = conns st ++ [c]
     ∧ trace st' = trace st ++ call_open (DeviceFile subdev) ReadOnly evfd :: delta
     ∧ Forall (fun e => ∀ p m r, e ≠ call_open p m r) delta
     ∧ (notifier c = Some (mk_QSocketNotifier evfd true) ∧ fd c = evfd
        ∧ 0 ≤ evfd ∧ call_close evfd ∉ delta
        ∨ notifier c = None ∧ fd c = 0
          ∧ (0 ≤ evfd → call_close evfd ∈ delta)))
  ∧ (let '(subdev', h, st') := openHidrawSubDeviceConnection os subdev st in
     let hrfd := sys_open os (DeviceFile subdev) ReadWrite in
     ∃ c delta,
       h = length (conns st) ∧ conns st' = conns st ++ [c]
       ∧ trace st' = trace st ++ call_open (DeviceFile subdev) ReadWrite hrfd :: delta
       ∧ Forall (fun e => ∀ p m r, e ≠ call_open p m r) delta
       ∧ (notifier c = Some (mk_QSocketNotifier hrfd true) ∧ fd c = hrfd
          ∧ 0 ≤ hrfd ∧ delta = []
          ∨ notifier c = None ∧ fd c = 0 ∧ hrfd < 0)).
Proof.
  split.
  - unfold openEventSubDeviceConnection.
    destruct (sys_open os (DeviceFile subdev) ReadOnly <? 0) eqn:Hneg.
    { apply Z.ltb_lt in Hneg. cbn [alloc_conn]. eexists _, [_].
      split; [reflexivity|]. split; [reflexivity|].
      split; [simpl; rewrite <- app_assoc; reflexivity|].
      split; [repeat constructor; discriminate|].
      right. split; [reflexivity|]. split; [reflexivity|]. lia. }
    apply Z.ltb_ge in Hneg.
    destruct (sys_EVIOCGBIT_ev os _) as [bitmask|].
    2:{ cbn [alloc_conn]. eexists _, [_; _].
        split; [reflexivity|]. split; [reflexivity|].
        split; [simpl; rewrite <- !app_assoc; reflexivity|].
        split; [repeat constructor; discriminate|].
        right. split; [reflexivity|]. split; [reflexivity|].
        intros _. apply elem_of_cons. left. reflexivity. }
    cbn [m_virtualDevice emit].
    destruct (m_virtualDevice st); [destruct (sys_EVIOCGRAB os _ =? 0)|];
      cbn [alloc_conn].
    + eexists _, []. split; [reflexivity|]. split; [reflexivity|].
      split; [reflexivity|]. split; [constructor|]. left.
      repeat split; [exact Hneg|apply not_elem_of_nil].
    + eexists _, [_]. split; [reflexivity|]. split; [reflexivity|].
      split; [simpl; rewrite <- app_assoc; reflexivity|].
      split; [repeat constructor; discriminate|]. left.
      repeat split; [exact Hneg|].
      intros Hin. apply elem_of_cons in Hin as [Hin|Hin]; [discriminate|].
      apply elem_of_nil in Hin. exact Hin.
    + eexists _, []. split; [reflexivity|]. split; [reflexivity|].
      split; [reflexivity|]. split; [constructor|]. left.
      repeat split; [exact Hneg|apply not_elem_of_nil].
  - unfold openHidrawSubDeviceConnection.
    destruct (sys_open os (DeviceFile subdev) ReadWrite <? 0) eqn:Hneg;
      cbn [alloc_conn].
    + apply Z.ltb_lt in Hneg. eexists _, [_].
      split; [reflexivity|]. split; [reflexivity|].
      split; [simpl; rewrite <- app_assoc; reflexivity|].
      split; [repeat constructor; discriminate|].
      right. repeat split. exact Hneg.
    + apply Z.ltb_ge in Hneg. eexists _, [].
      split; [reflexivity|]. split; [reflexivity|].
      split; [reflexivity|]. split; [constructor|]. left.
      repeat split. exact Hneg.
Qed.

(** The hidraw loop: what it returns. When it connects a sub-device, the
    open is followed by what giving up the connection held before does:
    nothing when there was none or a callback holds it, else the close of
    the descriptor its notifier watches. [base] is a state from which the
    loop started. *)
Lemma ConnectHidrawSubDevices_loop_node os d subs st base :
  activated st = activated base → (∃ cs, conns st = conns base ++ cs) →
  let '(subs', st', n, node) := ConnectHidrawSubDevices_loop os d subs st in
  (n = 0 ∧ node = None ∧ length subs' = length subs)
  ∨ (n = 1
     ∧ ∃ pre sd post pre' sd' fd t closes,
         subs = pre ++ sd :: post ∧ subs' = pre' ++ sd' :: post
         ∧ length pre' = length pre
         ∧ is_Hidraw (type sd) = true
         ∧ node = Some fd ∧ 0 < fd
         ∧ fd = sys_open os (DeviceFile sd) ReadWrite
         ∧ connection sd' = Some (length (conns st') - 1)%nat
         ∧ trace st' = t ++ call_open (DeviceFile sd) ReadWrite fd :: closes
         ∧ (connection sd = None → closes = [])
         ∧ (∀ h c, connection sd = Some h → conns base !! h = Some c →
              closes = if captured base h then []
                       else match notifier c with
                            | Some n => [call_close (socket n)]
                            | None => []
                            end)).
Proof.
  revert st. induction subs as [|subdev subs IH]; intros st Hact (cs & Hcs).
  - cbn. left. auto.
  - cbn [ConnectHidrawSubDevices_loop].
    assert (Hcont : ∀ sd1 st1,
      activated st1 = activated base → (∃ cs1, conns st1 = conns base ++ cs1) →
      let '(subs', st', n, node) :=
        (let '(rest, st0, n, node) := ConnectHidrawSubDevices_loop os d subs st1 in
         (sd1 :: rest, st0, n, node)) in
      (n = 0 ∧ node = None ∧ length subs' = length (subdev :: subs))
      ∨ (n = 1
         ∧ ∃ pre sd post pre' sd' fd t closes,
             subdev :: subs = pre ++ sd :: post ∧ subs' = pre' ++ sd' :: post
             ∧ length pre' = length pre
             ∧ is_Hidraw (type sd) = true
             ∧ node = Some fd ∧ 0 < fd
             ∧ fd = sys_open os (DeviceFile sd) ReadWrite
             ∧ connection sd' = Some (length (conns st') - 1)%nat
             ∧ trace st' = t ++ call_open (DeviceFile sd) ReadWrite fd :: closes
             ∧ (connection sd = None → closes = [])
             ∧ (∀ h c, connection sd = Some h → conns base !! h = Some c →
                  closes = if captured base h then []
                           else match notifier c with
                                | Some n => [call_close (socket n)]
                                | None => []
                                end))).
    { intros sd1 st1 Hact1 Hcs1. specialize (IH st1 Hact1 Hcs1).
      destruct (ConnectHidrawSubDevices_loop os d subs st1)
        as [[[rest st2] n2] node2].
      destruct IH as [(-> & -> & Hlen)
                     |(-> & pre & sd & post & pre' & sd' & fd & t & closes
                       & -> & -> & Hlen & Hty & -> & Hfd & Hopen & Hconn & Htr
                       & Hnone & Hsome)].
      - left. simpl. auto.
      - right. split; [reflexivity|].
        exists (subdev :: pre), sd, post, (sd1 :: pre'), sd', fd, t, closes.
        simpl. repeat split; auto. }
    destruct (is_Hidraw (type subdev) && DeviceWritable subdev
              && DeviceReadable subdev
              && (0 <? String.length (DeviceFile subdev))%nat) eqn:Hcand;
      [|apply Hcont; eauto].
    destruct (openHidrawSubDeviceConnection os subdev st)
      as [[subdev1 h] st1] eqn:Hopen.
    pose proof (openHidrawSubDeviceConnection_grow _ _ _ _ _ _ Hopen)
      as (-> & (cnew & Hconns) & _ & Hact1 & _).
    (* what giving up the previous connection emits *)
    assert (Hrel : ∃ closes,
      trace (release_connection (connection subdev) st1) = trace st1 ++ closes
      ∧ (connection subdev = None → closes = [])
      ∧ (∀ h c, connection subdev = Some h → conns base !! h = Some c →
           closes = if captured base h then []
                    else match notifier c with
                         | Some n => [call_close (socket n)]
                         | None => []
                         end)).
    { unfold release_connection.
      destruct (connection subdev) as [h|].
      2:{ exists []. rewrite app_nil_r. repeat split. discriminate. }
      assert (Hcap : captured st1 h = captured base h)
        by (unfold captured; rewrite Hact1, Hact; reflexivity).
      rewrite Hcap.
      destruct (captured base h) eqn:Hc.
      { exists []. rewrite app_nil_r. split; [reflexivity|].
        split; [discriminate|]. intros h' c' [= <-] _. rewrite Hc. reflexivity. }
      destruct (conns base !! h) as [c|] eqn:Hb.
      - assert (Hlook : conns st1 !! h = Some c).
        { rewrite Hconns, Hcs. apply lookup_app_l_Some, lookup_app_l_Some.
          exact Hb. }
        rewrite Hlook. destruct (notifier c) as [n|] eqn:Hn.
        + exists [call_close (socket n)]. split; [reflexivity|].
          split; [discriminate|]. intros h' c' [= <-] Hb'.
          rewrite Hb in Hb'. injection Hb' as <-. rewrite Hc, Hn. reflexivity.
        + exists []. rewrite app_nil_r. split; [reflexivity|].
          split; [discriminate|]. intros h' c' [= <-] Hb'.
          rewrite Hb in Hb'. injection Hb' as <-. rewrite Hc, Hn. reflexivity.
      - destruct (conns st1 !! h) as [c|]; [destruct (notifier c) as [n|]|].
        + exists [call_close (socket n)]. split; [reflexivity|].
          split; [discriminate|]. intros h' c' [= <-] Hb'.
          rewrite Hb in Hb'. discriminate.
        + exists []. rewrite app_nil_r. split; [reflexivity|].
          split; [discriminate|]. intros h' c' [= <-] Hb'.
          rewrite Hb in Hb'. discriminate.
        + exists []. rewrite app_nil_r. split; [reflexivity|].
          split; [discriminate|]. intros h' c' [= <-] Hb'.
          rewrite Hb in Hb'. discriminate. }
    destruct Hrel as (closes & Hrtr & Hnone & Hsome).
    destruct (release_connection_same (connection subdev) st1)
      as (Rc & _ & Ra & _).
    set (st1r := release_connection (connection subdev) st1) in *.
    assert (Hact1r : activated st1r = activated base) by congruence.
    assert (Hcs1r : ∃ cs1, conns st1r = conns base ++ cs1).
    { exists (cs ++ [cnew]). rewrite Rc, Hconns, Hcs, app_assoc. reflexivity. }
    assert (Hlast : conns st1r !! length (conns st) = Some cnew).
    { rewrite Rc, Hconns. apply list_lookup_middle. reflexivity. }
    assert (Hlen1r : (length (conns st1r) - 1)%nat = length (conns st)).
    { rewrite Rc, Hconns, length_app. simpl. lia. }
    clearbody st1r.
    assert (Hcontr : ∀ e, _) by
      (intros e; apply (Hcont (set_connection subdev1 (Some (length (conns st))))
                              (emit st1r e)); [exact Hact1r|exact Hcs1r]).
    unfold openHidrawSubDeviceConnection in Hopen.
    destruct (sys_open os (DeviceFile subdev) ReadWrite <? 0) eqn:Hneg;
      cbn [alloc_conn] in Hopen; injection Hopen as <- Hst1.
    + (* the open failed *)
      assert (Hc : cnew = default_SubDeviceConnection).
      { rewrite <- Hst1 in Hconns. cbn [conns set_conns emit] in Hconns.
        apply app_inv_head in Hconns. congruence. }
      unfold notifier_enabled. rewrite Hlast, Hc.
      cbn [notifier default_SubDeviceConnection andb].
      apply Hcontr.
    + apply Z.ltb_ge in Hneg.
      assert (Hc : cnew = mk_SubDeviceConnection (Some ReadOnly)
                            (sys_open os (DeviceFile subdev) ReadWrite) false
                            new_InputBuffer None
                            (Some (mk_QSocketNotifier
                                     (sys_open os (DeviceFile subdev) ReadWrite)
                                     true))).
      { rewrite <- Hst1 in Hconns. cbn [conns set_conns emit] in Hconns.
        apply app_inv_head in Hconns. congruence. }
      unfold notifier_enabled. rewrite Hlast, Hc.
      cbn [notifier isEnabled from_option fd andb].
      destruct (sys_open os (DeviceFile subdev) ReadWrite =? 0) eqn:Hz; cbn [negb];
        [apply Hcontr|].
      apply Z.eqb_neq in Hz.
      unfold addInputHidrawHandler. cbn [connection set_connection type].
      rewrite or_flag_type.
      apply andb_true_iff in Hcand as [Hcand _].
      apply andb_true_iff in Hcand as [Hcand _].
      apply andb_true_iff in Hcand as [Hty _].
      rewrite Hty. cbn [negb orb].
      unfold notifier_enabled. rewrite Hlast, Hc.
      cbn [notifier isEnabled negb].
      right. split; [reflexivity|].
      eexists [], subdev, subs, [], _, _, (trace st), closes.
      split; [reflexivity|]. split; [reflexivity|]. split; [reflexivity|].
      split; [exact Hty|]. split; [reflexivity|]. split; [lia|].
      split; [reflexivity|].
      split; [cbn [connection set_connection]; rewrite Hlen1r; reflexivity|].
      split; [|split; assumption].
      rewrite Hrtr, <- Hst1. cbn [trace emit set_conns].
      rewrite <- app_assoc. reflexivity.
Qed.

End OpenProofs.

Section HidrawProofs.
Context `{Externals} `{InputMapperModel}.

(** X13: [ConnectHidrawSubDevices] connects at most one node. It returns 0
    and leaves [hidrwNode] alone, or it returns 1, [hidrwNode] is the
    positive descriptor [::open] returned for a hidraw sub-device and the
    sub-devices after that one are untouched. That open is the last effect
    but for what the assignment to [subdev.connection] does to the
    connection the sub-device held before: nothing when it held none, when
    a callback holds that connection or when it has no notifier, else the
    close of the descriptor its notifier watches. *)
Theorem ConnectHidrawSubDevices_connects_at_most_one
    (os : OS) (st : Spotlight) (d : Device) :
  m_device st = Some d →
  let '(n, st') := ConnectHidrawSubDevices os st in
  ∃ d', m_device st' = Some d' ∧ id d' = id d
        ∧ length (subDevices d') = length (subDevices d)
        ∧ (n = 0 ∧ hidrwNode d' = hidrwNode d
           ∨ n = 1
             ∧ ∃ pre sd post pre' sd' t closes,
                 subDevices d = pre ++ sd :: post
                 ∧ subDevices d' = pre' ++ sd' :: post
                 ∧ length pre' = length pre
                 ∧ is_Hidraw (type sd) = true
                 ∧ 0 < hidrwNode d'
                 ∧ hidrwNode d' = sys_open os (DeviceFile sd) ReadWrite
                 ∧ trace st'
                   = t ++ call_open (DeviceFile sd) ReadWrite (hidrwNode d')
                          :: closes
                 ∧ (connection sd = None → closes = [])
                 ∧ (∀ h c, connection sd = Some h → conns st !! h = Some c →
                      closes = if captured st h then []
                               else match notifier c with
                                    | Some n => [call_close (socket n)]
                                    | None => []
                                    end)).
Proof.
  intros Hd. unfold ConnectHidrawSubDevices. rewrite Hd.
  pose proof (ConnectHidrawSubDevices_loop_node os d (subDevices d) st st
                eq_refl (ex_intro _ [] (eq_sym (app_nil_r _)))) as Hloop.
  destruct (ConnectHidrawSubDevices_loop os d (subDevices d) st)
    as [[[subs' st'] n] node].
  destruct Hloop as [(-> & -> & Hlen)
                    |(-> & pre & sd & post & pre' & sd' & fd & t & closes
                      & Hsubs & -> & Hlen & Hty & -> & Hfd & Hopen & Hconn & Htr
                      & Hnone & Hsome)].
  - eexists. split; [reflexivity|]. simpl. split; [reflexivity|].
    split; [exact Hlen|]. left. auto.
  - eexists. split; [reflexivity|]. simpl. split; [reflexivity|].
    split; [rewrite Hsubs, !length_app; simpl; lia|].
    right. split; [reflexivity|].
    exists pre, sd, post, pre', sd', t, closes. repeat split; auto.
Qed.

Lemma scanned_hidrwNode tree additional dev :
  dev ∈ devices (scanForDevices tree additional) →
  hidrwNode dev = uninitialised_hidrwNode.
Proof.
  intros Hin.
  pose proof (scanForDevices_Forall
                (fun d => hidrwNode d = uninitialised_hidrwNode) tree additional)
    as Hall.
  rewrite Forall_forall in Hall. apply Hall; [| |exact Hin].
  - intros dir. simpl. apply deviceFromUEventFile_rest.
  - intros dir d0 Hd0. exact Hd0.
Qed.

Lemma select_device_hidrwNode tree i st st1 :
  select_device tree i st = Some st1 →
  ∃ d1, m_device st1 = Some d1
        ∧ (hidrwNode d1 = uninitialised_hidrwNode
           ∨ ∃ d0, m_device st = Some d0 ∧ hidrwNode d1 = hidrwNode d0).
Proof.
  unfold select_device.
  destruct (devices (scanForDevices tree (m_additionalDevices st)))
    as [|first others] eqn:Hscan; [discriminate|].
  assert (Hfirst : hidrwNode first = uninitialised_hidrwNode).
  { apply (scanned_hidrwNode tree (m_additionalDevices st)).
    rewrite Hscan. apply elem_of_cons. left. reflexivity. }
  set (st_a := if negb (vendorId i =? 0) && negb (productId i =? 0)
               then match List.find _ (first :: others) with
                    | Some dev =>
                        release_device (m_device st) (set_m_device st (Some dev))
                    | None => st
                    end
               else st).
  assert (Ha : m_device st_a = m_device st
               ∨ ∃ dev, m_device st_a = Some dev
                        ∧ hidrwNode dev = uninitialised_hidrwNode).
  { subst st_a.
    destruct (negb (vendorId i =? 0) && negb (productId i =? 0));
      [|left; reflexivity].
    destruct (List.find _ (first :: others)) as [dev|] eqn:Hfind;
      [|left; reflexivity].
    right. exists dev. apply List.find_some in Hfind as [Hin _].
    destruct (release_device_same (m_device st) (set_m_device st (Some dev)))
      as (_ & _ & _ & Hdev & _).
    split; [exact Hdev|].
    apply (scanned_hidrwNode tree (m_additionalDevices st)).
    rewrite Hscan. apply list_elem_of_In. exact Hin. }
  clearbody st_a. intros [= <-].
  destruct (m_device st_a) as [da|] eqn:Hda; cbn; rewrite ?Hda; cbn;
    eexists; (split; [reflexivity|]); cbn.
  - destruct Ha as [Ha|(dev & Ha & Hnode)].
    + right. exists da. split; [congruence|reflexivity].
    + left. injection Ha as ->. exact Hnode.
  - left. exact Hfirst.
Qed.

Lemma connectSubDevices_hidrwNode os st d :
  m_device st = Some d →
  ∃ d', m_device (connectSubDevices os st).2 = Some d'
        ∧ eventIM d' = eventIM d
        ∧ (hidrwNode d' = hidrwNode d
           ∨ 0 < hidrwNode d'
             ∧ ∃ path, call_open path ReadWrite (hidrwNode d')
                       ∈ trace (connectSubDevices os st).2).
Proof.
  intros Hd. unfold connectSubDevices. rewrite Hd.
  destruct (length (subDevices d) =? 0)%nat; [simpl; eauto|].
  unfold ConnectEventSubDevices. rewrite Hd.
  destruct (ConnectEventSubDevices_loop os d (subDevices d) st 0)
    as [[subs1 st1] n1].
  unfold ConnectHidrawSubDevices. cbn [m_device set_m_device].
  pose proof (ConnectHidrawSubDevices_loop_node os (set_subDevices d subs1)
                (subDevices (set_subDevices d subs1))
                (set_m_device st1 (Some (set_subDevices d subs1)))
                (set_m_device st1 (Some (set_subDevices d subs1)))
                eq_refl (ex_intro _ [] (eq_sym (app_nil_r _)))) as Hloop.
  destruct (ConnectHidrawSubDevices_loop os _ _ _) as [[[subs2 st2] n2] node].
  set (d' := match node with
             | Some descriptor =>
                 set_hidrwNode (set_subDevices (set_subDevices d subs1) subs2)
                               descriptor
             | None => set_subDevices (set_subDevices d subs1) subs2
             end).
  assert (Hd' : m_device (set_m_device st2 (Some d')) = Some d') by reflexivity.
  assert (Heim : eventIM d' = eventIM d) by (subst d'; destruct node; reflexivity).
  assert (Hres : hidrwNode d' = hidrwNode d
                 ∨ 0 < hidrwNode d'
                   ∧ ∃ path, call_open path ReadWrite (hidrwNode d') ∈ trace st2).
  { subst d'.
    destruct Hloop as [(_ & -> & _)
                      |(_ & pre & sd & post & pre' & sd' & fd & t & closes
                        & _ & _ & _ & _ & -> & Hpos & _ & _ & Htr & _)].
    - left. reflexivity.
    - right. simpl. split; [exact Hpos|]. exists (DeviceFile sd).
      rewrite Htr. apply elem_of_app. right. apply elem_of_cons. left. reflexivity. }
  clearbody d'.
  destruct ((0 <? n1) && (0 <? n2)); cbn [snd]; exists d';
    (split; [exact Hd'|]); (split; [exact Heim|]); exact Hres.
Qed.

End HidrawProofs.

Section WriteProofs.
Context `{Externals} `{InputMapperModel}.

Lemma hidrwNode_known_app t delta node :
  hidrwNode_known t node → hidrwNode_known (t ++ delta) node.
Proof.
  intros [Hu|(Hpos & path & Hin)]; [left; exact Hu|right].
  split; [exact Hpos|]. exists path. apply elem_of_app. left. exact Hin.
Qed.

Lemma connectDevice_hidrwNode tree os i st :
  (∀ d, m_device st = Some d → hidrwNode_known (trace st) (hidrwNode d)) →
  ∀ d, m_device (connectDevice tree os i st).2 = Some d →
       hidrwNode_known (trace (connectDevice tree os i st).2) (hidrwNode d).
Proof.
  intros Hinv d. unfold connectDevice.
  destruct (select_device tree i st) as [st1|] eqn:Hsel; [|apply Hinv].
  pose proof (select_device_extends tree i st st1 Hsel)
    as (_ & _ & _ & _ & _ & _ & cs1 & ms1 & a1 & delta1 & _ & _ & _ & Htr1 & _).
  apply select_device_hidrwNode in Hsel as (d1 & Hd1 & Hnode1).
  assert (Hk1 : hidrwNode_known (trace st1) (hidrwNode d1)).
  { destruct Hnode1 as [Hu|(d0 & Hd0 & ->)]; [left; exact Hu|].
    rewrite Htr1. apply hidrwNode_known_app, Hinv, Hd0. }
  pose proof (connectSubDevices_extends os st1)
    as (_ & _ & _ & _ & _ & _ & cs2 & ms2 & a2 & delta2 & _ & _ & _ & Htr2 & _).
  destruct (connectSubDevices_hidrwNode os st1 d1 Hd1) as (d2 & Hd2 & _ & Hnode2).
  destruct (connectSubDevices os st1) as [n st2]. cbn [snd] in *.
  assert (Hk2 : hidrwNode_known (trace st2) (hidrwNode d2)).
  { destruct Hnode2 as [->|Hopen]; [|right; exact Hopen].
    rewrite Htr2. apply hidrwNode_known_app, Hk1. }
  destruct (0 <? n); [|rewrite Hd2; intros [= <-]; exact Hk2].
  rewrite Hd2.
  destruct (negb (anySpotlightDeviceConnected st)); simpl; rewrite Hd2;
    intros [= <-]; repeat apply hidrwNode_known_app; exact Hk2.
Qed.

(** X14: in every state the object can be in, [hidrwNode] of the device
    is the value of a default-constructed [Device] or a positive descriptor
    returned by an [::open] with [O_RDWR] recorded in the trace, and every
    [::write] made so far went to a descriptor of that kind different
    from 0. *)
Theorem reachable_writes_go_to_hidrwNode (st : Spotlight) :
  reachable st →
  (∀ d, m_device st = Some d → hidrwNode_known (trace st) (hidrwNode d))
  ∧ (∀ descriptor bytes res,
       call_write descriptor bytes res ∈ trace st →
       descriptor ≠ 0 ∧ hidrwNode_known (trace st) descriptor).
Proof.
  intros (additional & vd & Hrtc). revert st Hrtc.
  apply (rtc_ind_r (fun st =>
    (∀ d, m_device st = Some d → hidrwNode_known (trace st) (hidrwNode d))
    ∧ (∀ descriptor bytes res,
         call_write descriptor bytes res ∈ trace st →
         descriptor ≠ 0 ∧ hidrwNode_known (trace st) descriptor))).
  - split; [discriminate|]. intros ? ? ? Hin. apply elem_of_nil in Hin. destruct Hin.
  - intros st1 st2 Hreach Hstep [IH1 IH2].
    assert (Hgrow : ∀ delta,
      Forall (fun e => ∀ descriptor bytes res, e ≠ call_write descriptor bytes res)
             delta →
      ∀ descriptor bytes res,
        call_write descriptor bytes res ∈ trace st1 ++ delta →
        descriptor ≠ 0 ∧ hidrwNode_known (trace st1 ++ delta) descriptor).
    { intros delta Hd descriptor bytes res Hin.
      apply elem_of_app in Hin as [Hin|Hin].
      - destruct (IH2 _ _ _ Hin) as [Hnz Hk]. split; [exact Hnz|].
        apply hidrwNode_known_app, Hk.
      - rewrite Forall_forall in Hd. destruct (Hd _ Hin descriptor bytes res).
        reflexivity. }
    destruct Hstep as [tree os i st1|k reads st1 st2 rest Hrun|st1 Htimer
                       |fuel st1 st2 Hrun|os strength st1].
    + split; [apply connectDevice_hidrwNode, IH1|].
      destruct (connectDevice_extends tree os i st1)
        as (_ & _ & _ & _ & _ & _ & cs & ms & a & delta & _ & _ & _ & -> & _ & Hd).
      apply Hgrow. eapply Forall_impl; [exact Hd|]. simpl.
      intros e He ? ? ? ->. discriminate.
    + destruct (deliver_activated_summary st1 k reads st2 rest)
        as (_ & Hdev & _ & _ & _ & delta & -> & Hd);
        [exists additional, vd; exact Hreach|exact Hrun|].
      split.
      * rewrite Hdev. intros d Hd1. apply hidrwNode_known_app, IH1, Hd1.
      * apply Hgrow. eapply Forall_impl; [exact Hd|]. simpl.
        intros e [He|[He|He]] ? ? ? ->; discriminate.
    + simpl. split.
      * intros d Hd1. apply hidrwNode_known_app, IH1, Hd1.
      * apply Hgrow. repeat constructor. discriminate.
    + apply run_pending_same in Hrun
        as (_ & _ & _ & (closes & -> & Hcl) & _ & _ & Hdev).
      split.
      * intros d' Hd'. destruct (Hdev d' Hd') as (d & Hd & ->).
        apply hidrwNode_known_app, IH1, Hd.
      * apply Hgrow. eapply Forall_impl; [exact Hcl|]. simpl.
        intros e (descriptor & ->) ? ? ?. discriminate.
    + unfold vibrateDevice.
      destruct (sendDatatoDevice_summary os (vibration_data strength) 7 st1)
        as (_ & _ & _ & -> & _ & _ & delta & -> & Hd).
      split.
      * intros d Hd1. apply hidrwNode_known_app, IH1, Hd1.
      * intros descriptor bytes res Hin.
        apply elem_of_app in Hin as [Hin|Hin].
        -- destruct (IH2 _ _ _ Hin) as [Hnz Hk]. split; [exact Hnz|].
           apply hidrwNode_known_app, Hk.
        -- rewrite Forall_forall in Hd.
           destruct (Hd _ Hin) as [Hlog|(d & res' & Hd1 & Hnz & Heq)];
             [discriminate|].
           injection Heq as -> _ _. split; [exact Hnz|].
           apply hidrwNode_known_app, IH1, Hd1.
Qed.

End WriteProofs.

(* ================================================================== *)
(** * connectDevice on an object that has a device *)


Section ReconnectProofs.
Context `{Externals} `{InputMapperModel}.






End ReconnectProofs.

(* ================================================================== *)
(** * The device chosen by connectDevice *)

Section SelectProofs.
Context `{Externals} `{InputMapperModel}.

(** X15: every [connectDevice] that finds a device gives [m_device] a
    newly made input mapper, while each callback connected before stays
    connected and its connection keeps the input mapper it had: after a
    second [connectDevice] the callbacks of the first one feed a mapper
    that is not the device's [eventIM]. *)
Theorem connectDevice_gives_a_fresh_mapper
    (tree : DeviceTree) (os : OS) (i : DeviceId) (st : Spotlight) :
  reachable st →
  devices (scanForDevices tree (m_additionalDevices st)) ≠ [] →
  let st' := (connectDevice tree os i st).2 in
  (∃ d', m_device st' = Some d'
         ∧ eventIM d' = Some (length (mappers st))
         ∧ length (mappers st') = S (length (mappers st)))
  ∧ ∀ k h dev,
      activated st !! k = Some (h, dev) →
      activated st' !! k = Some (h, dev)
      ∧ ∃ c m, conns st !! h = Some c ∧ conns st' !! h = Some c
               ∧ im c = Some m ∧ (m < length (mappers st))%nat.
Proof.
  intros Hreach Hscan st'.
  pose proof (reachable_handlers_ok st Hreach) as Hok.
  pose proof (connectDevice_extends tree os i st)
    as (_ & _ & _ & _ & _ & _ & cs & ms & a & delta & Hc & _ & Ha & _).
  fold st' in Hc, Ha.
  split.
  - subst st'. unfold connectDevice.
    destruct (select_device tree i st) as [st1|] eqn:Hsel.
    2:{ unfold select_device in Hsel.
        destruct (devices (scanForDevices tree (m_additionalDevices st)));
          [contradiction|discriminate]. }
    apply select_device_spec in Hsel
      as (Hc1 & Ha1 & _ & _ & _ & Hm1 & d & Hd & Him & _).
    assert (Hok1 : handlers_ok st1).
    { apply (handlers_ok_grow st st1 [] [InputMapper_new (m_virtualDevice st)]);
        rewrite ?app_nil_r; auto. }
    destruct (connectSubDevices_hidrwNode os st1 d Hd) as (d2 & Hd2 & Heim & _).
    assert (Him1 : ∀ d', m_device st1 = Some d'
                         → eventIM d' = Some (length (mappers st)))
      by (intros d' Hd'; congruence).
    assert (Hlt : (length (mappers st) < length (mappers st1))%nat)
      by (rewrite Hm1, length_app; simpl; lia).
    destruct (connectSubDevices os st1) as [n st2] eqn:Hsub.
    destruct (connectSubDevices_ok os st1 n st2 _ Hsub Him1 Hlt Hok1) as (_ & Hm2).
    cbn [snd] in *.
    assert (Hlen : length (mappers st2) = S (length (mappers st)))
      by (rewrite Hm2, Hm1, length_app; simpl; lia).
    exists d2.
    destruct (0 <? n); [|split; [exact Hd2|split; [congruence|exact Hlen]]].
    rewrite Hd2.
    destruct (negb (anySpotlightDeviceConnected st)); simpl;
      (split; [exact Hd2|split; [congruence|exact Hlen]]).
  - intros k h dev Hk. split.
    + rewrite Ha. apply lookup_app_l_Some. exact Hk.
    + unfold handlers_ok in Hok. rewrite Forall_forall in Hok.
      destruct (Hok (h, dev)) as (c & Hch & Hcok);
        [eapply list_elem_of_lookup_2; eassumption|]. simpl in Hch.
      destruct Hcok as (_ & _ & (m & Him & Hm) & _).
      exists c, m. split; [exact Hch|]. split; [|auto].
      rewrite Hc. apply lookup_app_l_Some. exact Hch.
Qed.

Lemma find_id_Some devs i dev :
  List.find (fun dev => DeviceId_eqb (id dev) i) devs = Some dev →
  id dev = i ∧ i ∈ id <$> devs.
Proof.
  intros Hfind. apply List.find_some in Hfind as [Hin Heq].
  apply DeviceId_eqb_eq in Heq. split; [exact Heq|].
  rewrite <- Heq. apply list_elem_of_fmap_2. apply list_elem_of_In. exact Hin.
Qed.

Lemma find_id_None devs i :
  List.find (fun dev => DeviceId_eqb (id dev) i) devs = None →
  i ∉ id <$> devs.
Proof.
  intros Hfind Hin. apply list_elem_of_fmap in Hin as (dev & -> & Hin).
  apply list_elem_of_In in Hin.
  pose proof (List.find_none _ _ Hfind dev Hin) as Hne. simpl in Hne.
  rewrite DeviceId_eqb_refl in Hne. discriminate.
Qed.

(** X16: [connectDevice(id)] returns -1 and changes nothing when the scan
    finds no device. Otherwise it returns 0 and the device then set has the
    id asked for when that id is not zero and was scanned, else the id of
    the device set before, else that of the first scanned device. *)
Theorem connectDevice_selects
    (tree : DeviceTree) (os : OS) (i : DeviceId) (st : Spotlight) :
  let devs := devices (scanForDevices tree (m_additionalDevices st)) in
  let r := connectDevice tree os i st in
  match devs with
  | [] => r = (-1, st)
  | first :: _ =>
      r.1 = 0
      ∧ connectedDeviceId r.2
        = if negb (vendorId i =? 0) && negb (productId i =? 0)
             && bool_decide (i ∈ id <$> devs)
          then i
          else match m_device st with
               | Some d0 => id d0
               | None => id first
               end
  end.
Proof.
  cbn zeta. unfold connectDevice, select_device.
  destruct (devices (scanForDevices tree (m_additionalDevices st)))
    as [|first others] eqn:Hscan; [reflexivity|].
  set (devs := first :: others) in *.
  set (st_a := if negb (vendorId i =? 0) && negb (productId i =? 0)
               then match List.find (fun dev => DeviceId_eqb (id dev) i) devs with
                    | Some dev => release_device (m_device st)
                                                 (set_m_device st (Some dev))
                    | None => st
                    end
               else st).
  set (st_b := match m_device st_a with
               | None => set_m_device st_a (Some first)
               | Some _ => st_a
               end).
  set (expected := if negb (vendorId i =? 0) && negb (productId i =? 0)
                      && bool_decide (i ∈ id <$> devs)
                   then i
                   else match m_device st with
                        | Some d0 => id d0
                        | None => id first
                        end).
  assert (Hb : ∃ d, m_device st_b = Some d ∧ id d = expected).
  { subst st_b st_a expected.
    destruct (negb (vendorId i =? 0) && negb (productId i =? 0)); cbn [andb].
    - destruct (List.find _ devs) as [dev|] eqn:Hfind.
      + apply find_id_Some in Hfind as [Hid Hin].
        rewrite bool_decide_eq_true_2 by exact Hin.
        destruct (release_device_same (m_device st) (set_m_device st (Some dev)))
          as (_ & _ & _ & Hdev & _).
        cbn [m_device set_m_device] in Hdev. rewrite Hdev. eauto.
      + apply find_id_None in Hfind.
        rewrite bool_decide_eq_false_2 by exact Hfind.
        destruct (m_device st) as [d0|] eqn:Hd0; simpl; rewrite ?Hd0; eauto.
    - destruct (m_device st) as [d0|] eqn:Hd0; simpl; rewrite ?Hd0; eauto. }
  clearbody st_b expected. destruct Hb as (d & Hd & Hid).
  cbn [alloc_mapper m_device set_m_device set_mappers].
  rewrite Hd. cbn [fmap option_fmap option_map].
  set (st1 := set_m_device _ _).
  assert (Hd1 : m_device st1 = Some (set_eventIM d (Some (length (mappers st_b)))))
    by reflexivity.
  clearbody st1.
  destruct (connectSubDevices os st1) as [n st2] eqn:Hsub.
  destruct (connectSubDevices_device os st1 n st2 _ Hd1 Hsub) as (d2 & Hd2 & Hid2 & _).
  cbn [fst snd]. split; [reflexivity|].
  assert (Hres : connectedDeviceId st2 = expected).
  { unfold connectedDeviceId. rewrite Hd2, Hid2. exact Hid. }
  destruct (0 <? n); [|exact Hres].
  rewrite Hd2. destruct (negb (anySpotlightDeviceConnected st)); exact Hres.
Qed.

(** X17: [removeDeviceConnection] replaces the device by a
    value-initialised one: the id (0, 0, ""), no sub-device and [hidrwNode]
    0. Destroying the old device closes the descriptors watched by the
    notifiers of those of its connections that no callback holds, and
    nothing else is emitted. After it a device is still reported as
    connected, and a [connectDevice()] without an id opens no node,
    connects no callback and emits nothing, whatever the device tree
    holds. *)
Theorem removeDeviceConnection_blocks_reconnect
    (tree : DeviceTree) (os : OS) (st : Spotlight) :
  let st0 := removeDeviceConnection st in
  let r := connectDevice tree os default_DeviceId st0 in
  (∃ d0, m_device st0 = Some d0 ∧ id d0 = default_DeviceId
         ∧ subDevices d0 = [] ∧ hidrwNode d0 = 0)
  ∧ anySpotlightDeviceConnected st0 = true
  ∧ connectedDeviceId st0 = default_DeviceId
  ∧ conns st0 = conns st ∧ activated st0 = activated st
  ∧ (∃ closes,
       trace st0 = trace st ++ closes
       ∧ ∀ e, e ∈ closes
              ↔ ∃ d sd h c n,
                  m_device st = Some d ∧ sd ∈ subDevices d
                  ∧ connection sd = Some h ∧ captured st h = false
                  ∧ conns st !! h = Some c ∧ notifier c = Some n
                  ∧ e = call_close (socket n))
  ∧ trace r.2 = trace st0
  ∧ conns r.2 = conns st0
  ∧ activated r.2 = activated st0
  ∧ connectedDeviceId r.2 = default_DeviceId.
Proof.
  cbn zeta.
  destruct (release_device_same (m_device st)
              (set_m_device st (Some value_initialised_Device)))
    as (Rc & _ & Ra & Rd & _).
  fold (removeDeviceConnection st) in Rc, Ra, Rd.
  cbn [conns activated m_device set_m_device] in Rc, Ra, Rd.
  split; [exists value_initialised_Device; auto|].
  split; [unfold anySpotlightDeviceConnected; rewrite Rd; reflexivity|].
  split; [unfold connectedDeviceId; rewrite Rd; reflexivity|].
  split; [exact Rc|]. split; [exact Ra|].
  split.
  { unfold removeDeviceConnection, release_device.
    destruct (m_device st) as [d|] eqn:Hd.
    - destruct (release_subDevices_closes (subDevices d)
                  (set_m_device st (Some value_initialised_Device)))
        as (closes & Htr & Hcl).
      exists closes. split; [exact Htr|]. intros e. rewrite Hcl. split.
      + intros (sd & h & c & n & Hrest). exists d, sd, h, c, n. auto.
      + intros (d' & sd & h & c & n & [= <-] & Hrest). exists sd, h, c, n.
        exact Hrest.
    - exists []. rewrite app_nil_r. split; [reflexivity|].
      intros e. split; [intros Hin; apply elem_of_nil in Hin; destruct Hin|].
      intros (d & _ & _ & _ & _ & Hno & _). discriminate. }
  set (st0 := removeDeviceConnection st) in *. clearbody st0.
  unfold connectDevice.
  destruct (select_device tree default_DeviceId st0) as [st1|] eqn:Hsel.
  2:{ cbn [snd]. unfold connectedDeviceId. rewrite Rd.
      repeat split; reflexivity. }
  apply select_device_spec in Hsel
    as (Hc1 & Ha1 & (closes & Htr1 & _ & Hnone) & _ & _ & _ & d1 & Hd1 & _ & Hkeep).
  rewrite (Hnone ltac:(left; reflexivity)), app_nil_r in Htr1.
  specialize (Hkeep ltac:(left; reflexivity) _ Rd). subst d1.
  unfold connectSubDevices. rewrite Hd1.
  cbn [subDevices set_eventIM value_initialised_Device length Nat.eqb fst snd
       Z.ltb Z.compare].
  unfold connectedDeviceId. rewrite Hd1.
  repeat split; assumption || reflexivity.
Qed.

End SelectProofs.

(* ================================================================== *)
(** * Read errors and the amount read *)

Section HandlerProofs.
Context `{Externals} `{InputMapperModel}.

Lemma reachable_step st st' : reachable st → reactor_step st st' → reachable st'.
Proof.
  intros (additional & vd & Hrtc) Hstep. exists additional, vd.
  eapply rtc_r; eassumption.
Qed.

Lemma reachable_rtc st st' : reachable st → rtc reactor_step st st' → reachable st'.
Proof.
  intros (additional & vd & Hrtc) Hsteps. exists additional, vd.
  etrans; eassumption.
Qed.

(** A callback whose notifier is disabled stays so. *)
Lemma disabled_stays_disabled st st' k h dev :
  reachable st →
  activated st !! k = Some (h, dev) →
  notifier_enabled st (Some h) = false →
  rtc reactor_step st st' →
  activated st' !! k = Some (h, dev)
  ∧ notifier_enabled st' (Some h) = false
  ∧ (h < length (conns st'))%nat.
Proof.
  intros Hreach Hk Hdis Hsteps.
  assert (Hlt : (h < length (conns st))%nat).
  { pose proof (reachable_handlers_ok st Hreach) as Hok.
    unfold handlers_ok in Hok. rewrite Forall_forall in Hok.
    destruct (Hok (h, dev)) as (c & Hc & _);
      [eapply list_elem_of_lookup_2; eassumption|].
    eapply lookup_lt_Some. exact Hc. }
  cut (reachable st'
       ∧ activated st' !! k = Some (h, dev)
       ∧ notifier_enabled st' (Some h) = false
       ∧ (h < length (conns st'))%nat); [tauto|].
  revert st' Hsteps.
  apply (rtc_ind_r (fun st' => reachable st'
                               ∧ activated st' !! k = Some (h, dev)
                               ∧ notifier_enabled st' (Some h) = false
                               ∧ (h < length (conns st'))%nat) st);
    [auto|].
  intros st1 st2 _ Hstep (Hr1 & Hk1 & Hdis1 & Hlt1).
  split; [eapply reachable_step; eassumption|].
  assert (Hsame : ∀ st2, conns st2 !! h = conns st1 !! h →
                         notifier_enabled st2 (Some h) = false
                         ∧ (h < length (conns st2))%nat).
  { intros st0 Heq. split.
    - unfold notifier_enabled in *. rewrite Heq. exact Hdis1.
    - apply lookup_lt_is_Some. rewrite Heq. apply lookup_lt_is_Some. exact Hlt1. }
  destruct Hstep as [tree os i st1|k' reads st1 st2 rest Hrun|st1 Htimer
                     |fuel st1 st2 Hrun|os strength st1].
  - destruct (connectDevice_extends tree os i st1)
      as (_ & _ & _ & _ & _ & _ & cs & ms & a & delta & Hc & _ & Ha & _).
    split; [rewrite Ha; apply lookup_app_l_Some; exact Hk1|].
    apply Hsame. rewrite Hc. apply lookup_app_l. exact Hlt1.
  - destruct (deliver_activated_summary st1 k' reads st2 rest Hr1 Hrun)
      as (Ha & _ & _ & _ & Hc & _).
    split; [rewrite Ha; exact Hk1|]. apply Hsame, Hc, Hdis1.
  - split; [exact Hk1|]. apply Hsame. reflexivity.
  - apply run_pending_same in Hrun as (Hc & _ & Ha & _).
    split; [rewrite Ha; exact Hk1|]. apply Hsame. rewrite Hc. reflexivity.
  - unfold vibrateDevice.
    destruct (sendDatatoDevice_summary os (vibration_data strength) 7 st1)
      as (Hc & _ & Ha & _).
    split; [rewrite Ha; exact Hk1|]. apply Hsame. rewrite Hc. reflexivity.
Qed.

(** X18: when the first read of an activation fails with an [errno] other
    than [EAGAIN], the handler queues one removal for the device file,
    leaves the trace and [m_device] as they are, and disables the notifier
    for good: whatever happens to the object afterwards, that callback
    never reads again. *)
Theorem fatal_read_error_retires_callback
    (st : Spotlight) (k h : nat) (dev : SubDevice) (errno : Z)
    (reads : list read_result) :
  reachable st →
  activated st !! k = Some (h, dev) →
  notifier_enabled st (Some h) = true →
  errno ≠ EAGAIN →
  ∃ st1,
    deliver_activated k (read_fail errno :: reads) st = Some (st1, reads)
    ∧ pending st1 = pending st ++ [DeviceFile dev]
    ∧ trace st1 = trace st
    ∧ m_device st1 = m_device st
    ∧ ∀ st2, rtc reactor_step st1 st2 →
        notifier_enabled st2 (Some h) = false
        ∧ ∀ reads', deliver_activated k reads' st2 = Some (st2, reads').
Proof.
  intros Hreach Hk Hen Herr.
  pose proof (reachable_handlers_ok st Hreach) as Hok.
  unfold handlers_ok in Hok. rewrite Forall_forall in Hok.
  destruct (Hok (h, dev)) as (c & Hc & Hcok);
    [eapply list_elem_of_lookup_2; eassumption|]. simpl in Hc.
  destruct Hcok as (Hlen & Hpos & _ & Hn).
  assert (Hdev : ∃ d, m_device st = Some d).
  { destruct (m_device st) as [d|] eqn:Hd; [eauto|].
    apply (reachable_device_set st Hreach) in Hd. rewrite Hd in Hk. discriminate. }
  destruct Hdev as [d Hd].
  destruct (on_read_failure_spec errno h dev st c Hc Hn)
    as (st1 & c1 & d1 & Hfail & _).
  destruct (on_read_failure_silent errno h dev st st1 d Hd Hfail) as [Htr Hdev1].
  destruct (on_read_failure_spot errno h dev st st1 Hfail)
    as (_ & _ & [(_ & Heq & _)|(Hpend & _ & Hdis)] & _); [contradiction|].
  assert (Hrun : deliver_activated k (read_fail errno :: reads) st = Some (st1, reads)).
  { unfold deliver_activated. rewrite Hk, Hen.
    cbn [onEventSubDeviceDataAvailable]. rewrite Hc. simpl.
    destruct (lookup_lt_is_Some_2 (data_ (inputBuffer c)) (pos_ (inputBuffer c))
                ltac:(lia)) as [x Hx].
    unfold current. rewrite Hx. simpl. rewrite Hfail. reflexivity. }
  exists st1. split; [exact Hrun|]. split; [exact Hpend|]. split; [exact Htr|].
  split; [exact Hdev1|].
  intros st2 Hsteps.
  assert (Hr1 : reachable st1).
  { eapply reachable_step; [exact Hreach|]. eapply step_activated. exact Hrun. }
  assert (Hk1 : activated st1 !! k = Some (h, dev)).
  { destruct (deliver_activated_summary st k _ st1 reads Hreach Hrun) as (-> & _).
    exact Hk. }
  destruct (disabled_stays_disabled st1 st2 k h dev Hr1 Hk1 Hdis Hsteps)
    as (Hk2 & Hdis2 & _).
  split; [exact Hdis2|].
  intros reads'. unfold deliver_activated. rewrite Hk2, Hdis2. reflexivity.
Qed.



End HandlerProofs.

(* ================================================================== *)
(** * The order of device ids *)

Section OrderProofs.

Lemma string_ltb_irrefl a : String.ltb a a = false.
Proof.
  unfold String.ltb.
  pose proof (String.compare_antisym a a) as Hanti.
  destruct (String.compare a a); simpl in Hanti; try reflexivity; discriminate.
Qed.

Lemma string_ltb_trans a b c :
  String.ltb a b = true → String.ltb b c = true → String.ltb a c = true.
Proof.
  unfold String.ltb. intros H1 H2.
  destruct (String.compare a b) eqn:Hab; try discriminate.
  destruct (String.compare b c) eqn:Hbc; try discriminate.
  pose proof (@StrictOrder_Transitive _ _ OrdersEx.String_as_OT.lt_strorder
                a b c Hab Hbc) as Hac.
  change (String.compare a c = Lt) in Hac. rewrite Hac. reflexivity.
Qed.

Lemma string_ltb_total a b :
  String.ltb a b = true ∨ a = b ∨ String.ltb b a = true.
Proof.
  unfold String.ltb. rewrite (String.compare_antisym b a).
  destruct (String.compare a b) eqn:Hab; simpl; auto.
  right. left. apply String.compare_eq_iff. exact Hab.
Qed.

Lemma string_ltb_asym a b :
  String.ltb a b = true → String.ltb b a = false.
Proof.
  unfold String.ltb. rewrite (String.compare_antisym b a).
  destruct (String.compare a b); simpl; try discriminate. reflexivity.
Qed.

(** X20: [DeviceId::operator<] is a strict total order whose equivalence
    is [operator==], and [operator!=] is the negation of [operator==]. *)
Theorem DeviceId_less_is_a_strict_total_order (a b c : DeviceId) :
  DeviceId_ltb a a = false
  ∧ (DeviceId_ltb a b = true → DeviceId_ltb b c = true → DeviceId_ltb a c = true)
  ∧ (DeviceId_ltb a b = true → DeviceId_ltb b a = false)
  ∧ (DeviceId_eqb a b = true ↔ DeviceId_ltb a b = false ∧ DeviceId_ltb b a = false)
  ∧ DeviceId_neqb a b = negb (DeviceId_eqb a b)
  ∧ (DeviceId_neqb a b = true ↔ a ≠ b).
Proof.
  destruct a as [v1 p1 s1], b as [v2 p2 s2], c as [v3 p3 s3].
  unfold DeviceId_ltb, DeviceId_eqb, DeviceId_neqb. simpl.
  split.
  { rewrite !Z.ltb_irrefl. apply string_ltb_irrefl. }
  split.
  { destruct (v1 <? v2) eqn:A1, (v2 <? v1) eqn:A2, (v2 <? v3) eqn:B1,
      (v3 <? v2) eqn:B2, (v1 <? v3) eqn:C1, (v3 <? v1) eqn:C2;
      try reflexivity; try discriminate;
      rewrite ?Z.ltb_lt, ?Z.ltb_ge in *; try lia.
    destruct (p1 <? p2) eqn:A3, (p2 <? p1) eqn:A4, (p2 <? p3) eqn:B3,
      (p3 <? p2) eqn:B4, (p1 <? p3) eqn:C3, (p3 <? p1) eqn:C4;
      try reflexivity; try discriminate;
      rewrite ?Z.ltb_lt, ?Z.ltb_ge in *; try lia.
    apply string_ltb_trans. }
  split.
  { destruct (v1 <? v2) eqn:A1, (v2 <? v1) eqn:A2;
      try reflexivity; try discriminate;
      rewrite ?Z.ltb_lt, ?Z.ltb_ge in *; try lia.
    destruct (p1 <? p2) eqn:A3, (p2 <? p1) eqn:A4;
      try reflexivity; try discriminate;
      rewrite ?Z.ltb_lt, ?Z.ltb_ge in *; try lia.
    apply string_ltb_asym. }
  split.
  { split.
    - intros Heq. apply andb_true_iff in Heq as [Heq Hs].
      apply andb_true_iff in Heq as [Hv Hp].
      apply Z.eqb_eq in Hv, Hp. apply String.eqb_eq in Hs. subst.
      rewrite !Z.ltb_irrefl, string_ltb_irrefl. auto.
    - intros [Hab Hba].
      destruct (v1 <? v2) eqn:A1; [discriminate|].
      destruct (v2 <? v1) eqn:A2; [discriminate|].
      destruct (p1 <? p2) eqn:A3; [discriminate|].
      destruct (p2 <? p1) eqn:A4; [discriminate|].
      rewrite ?Z.ltb_ge in *.
      assert (v1 = v2) as -> by lia. assert (p1 = p2) as -> by lia.
      rewrite !Z.eqb_refl. simpl. apply String.eqb_eq.
      destruct (string_ltb_total s1 s2) as [Hlt|[Heq|Hlt]]; congruence. }
  split; [reflexivity|].
  rewrite negb_true_iff. split.
  - intros Hne [= -> -> ->]. rewrite !Z.eqb_refl, String.eqb_refl in Hne.
    discriminate.
  - intros Hne. apply not_true_is_false. intros Heq. apply Hne.
    apply andb_true_iff in Heq as [Heq Hs].
    apply andb_true_iff in Heq as [Hv Hp].
    apply Z.eqb_eq in Hv, Hp. apply String.eqb_eq in Hs. subst. reflexivity.
Qed.

End OrderProofs.

(* ================================================================== *)
(** * The stream operators of deviceinput.h *)

Section StreamProofs.
Context {T : Type}.
Variable u32 : StreamOps Z.
Variable item : StreamOps T.
Variable valid : T → Prop.
Hypothesis u32_round_trips : round_trips u32 fits_quint32.
Hypothesis item_round_trips : round_trips item valid.

Lemma get_items_length size s :
  length (get_items item size s).1 = size.
Proof.
  revert s. induction size as [|size IH]; intros s; simpl; [reflexivity|].
  destruct (get item s) as [x s1]. specialize (IH s1).
  destruct (get_items item size s1) as [rest s2]. simpl in *. rewrite IH.
  reflexivity.
Qed.

Lemma get_items_put_items container n rest :
  Forall valid container → (n ≤ length container)%nat →
  get_items item n (put_items item container ++ rest)
  = (take n container, put_items item (drop n container) ++ rest).
Proof.
  intros Hvalid. revert n. induction Hvalid as [|x l Hx Hl IH]; intros n Hn.
  - simpl in Hn. assert (n = 0%nat) as -> by lia. reflexivity.
  - destruct n as [|n]; [reflexivity|].
    simpl. rewrite <- app_assoc, (item_round_trips x _ Hx).
    rewrite IH by (simpl in Hn; lia). reflexivity.
Qed.

(** X21: for stream operators of the element type and of [quint32] that
    read back what they write, [operator>>] on a vector reads back the
    vector [operator<<] wrote when it has fewer than 2^32 elements, and its
    first [size mod 2^32] elements otherwise; whatever the stream holds,
    the vector read has as many elements as the size word says. *)
Theorem vector_stream_round_trip (container : list T) (rest s : QDataStream) :
  Forall valid container →
  let size := Z.to_nat (quint32 (Z.of_nat (length container))) in
  vector_get u32 item (vector_put u32 item container ++ rest)
  = (take size container, put_items item (drop size container) ++ rest)
  ∧ (Z.of_nat (length container) < 2 ^ 32 →
     vector_get u32 item (vector_put u32 item container ++ rest)
     = (container, rest))
  ∧ length (vector_get u32 item s).1 = Z.to_nat (get u32 s).1.
Proof.
  intros Hvalid size.
  assert (Hfits : fits_quint32 (quint32 (Z.of_nat (length container)))).
  { unfold fits_quint32, quint32. apply Z.mod_pos_bound. lia. }
  assert (Hsize : (size ≤ length container)%nat).
  { subst size. unfold quint32.
    pose proof (Z.mod_le (Z.of_nat (length container)) (2 ^ 32)
                  ltac:(lia) ltac:(lia)). lia. }
  assert (Hrun : vector_get u32 item (vector_put u32 item container ++ rest)
                 = (take size container, put_items item (drop size container) ++ rest)).
  { unfold vector_get, vector_put. rewrite <- app_assoc.
    rewrite (u32_round_trips _ _ Hfits). fold size.
    apply get_items_put_items; assumption. }
  split; [exact Hrun|]. split.
  - intros Hlt. rewrite Hrun.
    assert (size = length container) as ->.
    { subst size. unfold quint32. rewrite Z.mod_small by lia. lia. }
    rewrite firstn_all, drop_all. reflexivity.
  - unfold vector_get. destruct (get u32 s) as [n s1]. simpl.
    apply get_items_length.
Qed.

End StreamProofs.

Section NativeKeySequenceProofs.
Context {QKeySequence : Type}.
Variable u32 u16 : StreamOps Z.
Variable keys : StreamOps QKeySequence.
Variable event : StreamOps DeviceInputEvent.
Variable valid_keys : QKeySequence → Prop.
Variable valid_event : DeviceInputEvent → Prop.
Variable valid_u16 : Z → Prop.
Hypothesis u32_round_trips : round_trips u32 fits_quint32.
Hypothesis u16_round_trips : round_trips u16 valid_u16.
Hypothesis keys_round_trips : round_trips keys valid_keys.
Hypothesis event_round_trips : round_trips event valid_event.

Lemma vector_ops_round_trips {T} (item : StreamOps T) (valid : T → Prop) :
  round_trips item valid →
  round_trips (vector_ops u32 item)
    (fun v => Forall valid v ∧ Z.of_nat (length v) < 2 ^ 32).
Proof.
  intros Hitem v rest [Hv Hlen]. simpl.
  unfold vector_get, vector_put. rewrite <- app_assoc.
  assert (Hfits : fits_quint32 (quint32 (Z.of_nat (length v)))).
  { unfold fits_quint32, quint32. apply Z.mod_pos_bound. lia. }
  rewrite (u32_round_trips _ _ Hfits).
  unfold quint32. rewrite Z.mod_small by lia. rewrite Nat2Z.id.
  rewrite (get_items_put_items item valid Hitem v (length v) rest Hv (le_n _)).
  rewrite firstn_all, drop_all. reflexivity.
Qed.

(** X22: the friend [operator>>] of [NativeKeySequence] reads back what
    the friend [operator<<] wrote: the three members are read in the
    order they are written. *)
Theorem NativeKeySequence_stream_round_trip :
  round_trips (NativeKeySequence_ops u32 u16 keys event)
    (fun ks =>
       valid_keys (m_keySequence ks)
       ∧ Z.of_nat (length (m_nativeSequence ks)) < 2 ^ 32
       ∧ Forall (fun ke => Forall valid_event ke
                           ∧ Z.of_nat (length ke) < 2 ^ 32)
                (m_nativeSequence ks)
       ∧ Z.of_nat (length (m_nativeModifiers ks)) < 2 ^ 32
       ∧ Forall valid_u16 (m_nativeModifiers ks)).
Proof.
  intros [k n m] rest (Hk & Hnlen & Hn & Hmlen & Hm). simpl in *.
  unfold NativeKeySequence_get, NativeKeySequence_put. simpl.
  rewrite <- !app_assoc. rewrite (keys_round_trips k _ Hk).
  pose proof (vector_ops_round_trips (vector_ops u32 event) _
                (vector_ops_round_trips event valid_event event_round_trips)
                n (vector_put u32 u16 m ++ rest) (conj Hn Hnlen)) as Hseq.
  simpl in Hseq. rewrite Hseq.
  pose proof (vector_ops_round_trips u16 valid_u16 u16_round_trips
                m rest (conj Hm Hmlen)) as Hmod.
  simpl in Hmod. rewrite Hmod. reflexivity.
Qed.

End NativeKeySequenceProofs.

(* ================================================================== *)
(** * The device combo box *)

Section ComboProofs.
Variable descriptionString : string → DeviceId → string.

Lemma findData_None items i :
  findData items i = None ↔ i ∉ snd <$> items.
Proof.
  unfold findData. rewrite find_if_None. rewrite Forall_forall. split.
  - intros Hall Hin. apply list_elem_of_fmap in Hin as (it & -> & Hin).
    specialize (Hall it Hin). simpl in Hall.
    rewrite DeviceId_eqb_refl in Hall. discriminate.
  - intros Hnot it Hin. apply not_true_is_false. intros Heq.
    apply DeviceId_eqb_eq in Heq. apply Hnot. rewrite <- Heq.
    apply list_elem_of_fmap_2. exact Hin.
Qed.

Lemma add_device_ids items i n :
  snd <$> add_device descriptionString items i n
  = if bool_decide (i ∈ snd <$> items) then snd <$> items
    else (snd <$> items) ++ [i].
Proof.
  unfold add_device. destruct (findData items i) as [k|] eqn:Hfind.
  - rewrite bool_decide_eq_true_2; [reflexivity|].
    destruct (decide (i ∈ snd <$> items)) as [Hin|Hnot]; [exact Hin|].
    apply findData_None in Hnot. congruence.
  - apply findData_None in Hfind.
    rewrite bool_decide_eq_false_2 by exact Hfind.
    rewrite fmap_app. reflexivity.
Qed.

Lemma add_device_NoDup items i n :
  NoDup (snd <$> items) →
  NoDup (snd <$> add_device descriptionString items i n).
Proof.
  intros Hnd. rewrite add_device_ids.
  destruct (bool_decide (i ∈ snd <$> items)) eqn:Hdec; [exact Hnd|].
  apply bool_decide_eq_false in Hdec.
  apply NoDup_app. split; [exact Hnd|]. split.
  - intros x Hx Hx'. apply list_elem_of_singleton in Hx'. subst. contradiction.
  - apply NoDup_singleton.
Qed.

Lemma add_device_elem items i n j :
  j ∈ snd <$> add_device descriptionString items i n
  ↔ j ∈ snd <$> items ∨ j = i.
Proof.
  rewrite add_device_ids.
  destruct (bool_decide (i ∈ snd <$> items)) eqn:Hdec.
  - apply bool_decide_eq_true in Hdec. split; [auto|].
    intros [Hj| ->]; assumption.
  - rewrite elem_of_app, list_elem_of_singleton. reflexivity.
Qed.

Lemma on_deviceDisconnected_NoDup items i :
  NoDup (snd <$> items) → NoDup (snd <$> on_deviceDisconnected items i).
Proof.
  intros Hnd. unfold on_deviceDisconnected.
  destruct (findData items i) as [k|]; [|exact Hnd].
  eapply sublist_NoDup; [exact Hnd|].
  apply fmap_sublist, sublist_delete.
Qed.

Lemma createDeviceComboBox_ids scanned items :
  NoDup (snd <$> items) →
  let items' := fold_left (fun items dev =>
                             add_device descriptionString items (id dev) (name dev))
                          scanned items in
  NoDup (snd <$> items')
  ∧ ∀ j, j ∈ snd <$> items' ↔ j ∈ snd <$> items ∨ j ∈ id <$> scanned.
Proof.
  revert items. induction scanned as [|dev scanned IH]; intros items Hnd; simpl.
  - split; [exact Hnd|]. intros j. rewrite elem_of_nil. tauto.
  - destruct (IH _ (add_device_NoDup items (id dev) (name dev) Hnd)) as [Hnd' Hel].
    split; [exact Hnd'|]. intros j. rewrite Hel, add_device_elem, elem_of_cons.
    tauto.
Qed.

Lemma deliver_signal_NoDup items e :
  NoDup (snd <$> items) →
  NoDup (snd <$> deliver_signal descriptionString items e).
Proof.
  intros Hnd. destruct e; simpl; try exact Hnd.
  - apply add_device_NoDup, Hnd.
  - apply on_deviceDisconnected_NoDup, Hnd.
Qed.

Lemma combo_after_NoDup t items :
  NoDup (snd <$> items) →
  NoDup (snd <$> combo_after descriptionString items t).
Proof.
  unfold combo_after. revert items.
  induction t as [|e t IH]; intros items Hnd; simpl; [exact Hnd|].
  apply IH, deliver_signal_NoDup, Hnd.
Qed.

Lemma combo_after_elem t items :
  Forall (fun e => is_disconnection e = false) t →
  ∀ j, j ∈ snd <$> combo_after descriptionString items t
       ↔ j ∈ snd <$> items ∨ ∃ n, deviceConnected j n ∈ t.
Proof.
  unfold combo_after. intros Hq. revert items.
  induction Hq as [|e t He Hq IH]; intros items j; simpl.
  - split; [auto|].
    intros [Hj|(n & Hn)]; [exact Hj|]. apply elem_of_nil in Hn. destruct Hn.
  - rewrite IH.
    assert (Hcons : ∀ n', deviceConnected j n' ∈ e :: t
                          ↔ e = deviceConnected j n' ∨ deviceConnected j n' ∈ t).
    { intros n'. rewrite elem_of_cons. split; intros [Hx|Hx]; auto. }
    destruct e as [i n|i n| | | | | | | | | | |]; try discriminate; simpl.
    1:{ rewrite add_device_elem. split.
        - intros [[Hj| ->]|(n' & Hn')]; [auto| |].
          + right. exists n. apply Hcons. left. reflexivity.
          + right. exists n'. apply Hcons. right. exact Hn'.
        - intros [Hj|(n' & Hn')]; [auto|].
          apply Hcons in Hn' as [Hn'|Hn']; [|right; eauto].
          injection Hn' as -> _. left. right. reflexivity. }
    all: split;
      [intros [Hj|(n' & Hn')]; [auto|right; exists n'; apply Hcons; right; exact Hn']
      |intros [Hj|(n' & Hn')]; [auto|];
       apply Hcons in Hn' as [Hn'|Hn']; [discriminate|right; eauto]].
Qed.

(** X23: after [createDeviceComboBox] and the delivery of any signals the
    combo box holds no two items with the same [DeviceId]; when no
    [deviceDisconnected] was delivered it holds exactly the scanned ids
    and the ids announced by [deviceConnected]. *)
Theorem device_combo_lists_each_device_once
    (scanned : list Device) (t : list Effect) :
  let items := combo_after descriptionString
                 (createDeviceComboBox descriptionString scanned) t in
  NoDup (snd <$> items)
  ∧ (Forall (fun e => is_disconnection e = false) t →
     ∀ j, j ∈ snd <$> items
          ↔ j ∈ id <$> scanned ∨ ∃ n, deviceConnected j n ∈ t).
Proof.
  cbn zeta. unfold createDeviceComboBox.
  destruct (createDeviceComboBox_ids scanned [] (NoDup_nil_2)) as [Hnd0 Hel0].
  cbn zeta in Hnd0, Hel0.
  split; [apply combo_after_NoDup, Hnd0|].
  intros Hq j. rewrite (combo_after_elem t _ Hq), Hel0. simpl.
  rewrite elem_of_nil. tauto.
Qed.

End ComboProofs.

(* ================================================================== *)
(** * The statements on the example device *)

Module OnExample.
Import Example.

Lemma connected_reachable : reachable connected.
Proof.
  exists [], true. apply rtc_once.
  apply (step_connectDevice tree_full os_ok default_DeviceId).
Qed.

(** The first connection on [tree_full]: both nodes are opened and the
    connection is announced. *)
Example connected_trace :
  trace connected =
  [call_open "/dev/input/event5" ReadOnly 7;
   log LogDebug msg_event_connected;
   subDeviceConnected spotlight_id "Logitech USB Receiver" "/dev/input/event5";
   call_open "/dev/hidraw1" ReadWrite 8;
   log LogInfo msg_connected;
   deviceConnected spotlight_id "Logitech USB Receiver";
   anySpotlightDeviceConnectedChanged true].
Proof. vm_compute. reflexivity. Qed.

(** C1 fails as stated: on [tree_full], when the event node opens and the
    hidraw node cannot be opened, one event sub-device is connected and
    announced, yet [connectDevice] emits neither [deviceConnected] nor
    [anySpotlightDeviceConnectedChanged(true)]. *)
Lemma event_connection_alone_is_not_announced :
  ∃ st1,
    select_device tree_full default_DeviceId (initial_Spotlight [] true) = Some st1
    ∧ (ConnectEventSubDevices os_no_hidraw st1).1 = 1
    ∧ trace (connectDevice tree_full os_no_hidraw default_DeviceId
               (initial_Spotlight [] true)).2
      = [call_open "/dev/input/event5" ReadOnly 7;
         log LogDebug msg_event_connected;
         subDeviceConnected spotlight_id "Logitech USB Receiver"
                            "/dev/input/event5";
         call_open "/dev/hidraw1" ReadWrite (-1);
         log LogDebug "Opening input event device failed:";
         log LogError msg_hidraw_failed]
    ∧ ¬ (∃ i n, deviceConnected i n
                ∈ trace (connectDevice tree_full os_no_hidraw default_DeviceId
                           (initial_Spotlight [] true)).2).
Proof.
  eexists. split; [vm_compute; reflexivity|].
  split; [vm_compute; reflexivity|].
  assert (Htr : trace (connectDevice tree_full os_no_hidraw default_DeviceId
                         (initial_Spotlight [] true)).2
                = [call_open "/dev/input/event5" ReadOnly 7;
                   log LogDebug msg_event_connected;
                   subDeviceConnected spotlight_id "Logitech USB Receiver"
                                      "/dev/input/event5";
                   call_open "/dev/hidraw1" ReadWrite (-1);
                   log LogDebug "Opening input event device failed:";
                   log LogError msg_hidraw_failed])
    by (vm_compute; reflexivity).
  split; [exact Htr|]. rewrite Htr. intros (i & n & Hin).
  repeat (apply elem_of_cons in Hin as [Hin|Hin]; [discriminate|]).
  apply elem_of_nil in Hin. exact Hin.
Qed.

(** The amended C1 on the example: with both nodes opened the connection
    is announced. *)
Lemma connectDevice_needs_both_witness :
  ∃ emitted,
    (connectDevice tree_full os_ok default_DeviceId
       (initial_Spotlight [] true)).1 = 0
    ∧ trace (connectDevice tree_full os_ok default_DeviceId
               (initial_Spotlight [] true)).2
      = trace (initial_Spotlight [] true) ++ emitted
    ∧ ((∃ i' n, deviceConnected i' n ∈ emitted)
       ↔ 0 < (ConnectEventSubDevices os_ok selected).1
         ∧ 0 < (ConnectHidrawSubDevices os_ok
                  (ConnectEventSubDevices os_ok selected).2).1)
    ∧ (anySpotlightDeviceConnectedChanged true ∈ emitted
       ↔ 0 < (ConnectEventSubDevices os_ok selected).1
         ∧ 0 < (ConnectHidrawSubDevices os_ok
                  (ConnectEventSubDevices os_ok selected).2).1
         ∧ anySpotlightDeviceConnected (initial_Spotlight [] true) = false).
Proof.
  pose proof (connectDevice_needs_event_and_hidraw tree_full os_ok
                default_DeviceId (initial_Spotlight [] true)) as Hthm.
  assert (Hsel : select_device tree_full default_DeviceId
                   (initial_Spotlight [] true) = Some selected)
    by (vm_compute; reflexivity).
  rewrite Hsel in Hthm. exact Hthm.
Defined.



(** After a failed read the notifier of the event sub-device is disabled:
    the next [connectDevice()] opens its node again, announces it and
    connects a second callback for it. *)
Example connectDevice_after_read_error_reopens :
  drop (length (trace after_read_error))
       (trace (connectDevice tree_full (os_next 9 10) default_DeviceId
                 after_read_error).2)
  = [call_open "/dev/input/event5" ReadOnly 9;
     log LogDebug msg_event_connected;
     subDeviceConnected spotlight_id "Logitech USB Receiver" "/dev/input/event5";
     call_open "/dev/hidraw1" ReadWrite 10;
     call_close 8;
     log LogInfo msg_connected;
     deviceConnected spotlight_id "Logitech USB Receiver"]
  ∧ length (activated (connectDevice tree_full (os_next 9 10) default_DeviceId
                         after_read_error).2)
    = 2%nat.
Proof. split; vm_compute; reflexivity. Qed.


(** What the handler does with that burst: the movement goes to the
    virtual device, the key press to the recorder. *)
Example sample_reads_trace :
  (fun r => drop (length (trace connected)) (trace r.1))
  <$> onEventSubDeviceDataAvailable sample_reads handler_conn handler_dev connected
  = Some [spotActiveChanged true;
          call_emitEvents motion_frame;
          call_addEvents 0 key_frame].
Proof. vm_compute. reflexivity. Qed.

Lemma almost_full_reachable : reachable almost_full.
Proof.
  destruct connected_reachable as (additional & vd & Hrtc).
  exists additional, vd. eapply rtc_r; [exact Hrtc|].
  apply (step_activated 0 eleven_keys connected almost_full []).
  vm_compute. reflexivity.
Qed.

(** C5 on the example: with eleven records buffered, any reads are handled,
    and a twelfth record that is not a marker resets the recorder and the
    buffer. *)
Lemma demux_buffer_witness :
  (∃ st' rest, deliver_activated 0 sample_reads almost_full = Some (st', rest)
               ∧ reachable st')
  ∧ ∃ st' c' m,
      on_read_success (ev 1 30 0) handler_conn almost_full = Some st'
      ∧ im almost_full_conn = Some m
      ∧ trace st' = trace almost_full
                    ++ [log LogWarning msg_discarded; call_resetState m]
      ∧ mappers st' = alter resetState m (mappers almost_full)
      ∧ conns st' !! handler_conn = Some c'
      ∧ pos_ (inputBuffer c') = 0%nat.
Proof.
  destruct (demux_buffer_never_overflows almost_full 0 sample_reads
              almost_full_reachable) as [Hrun Hpos].
  split; [exact Hrun|].
  destruct (Hpos handler_conn handler_dev ltac:(vm_compute; reflexivity))
    as (c & Hc & _ & _ & _ & Hfull).
  assert (c = almost_full_conn) as ->.
  { assert (Hc' : conns almost_full !! handler_conn = Some almost_full_conn)
      by (vm_compute; reflexivity).
    congruence. }
  apply Hfull.
  - vm_compute. reflexivity.
  - vm_compute. discriminate.
Defined.

(** C2: on the connected example device the read on the only event
    connection fails with [ENODEV]. The handler disables the notifier and
    queues the removal of the sub-device, but it emits nothing: at that
    moment [m_device] is set, so [anySpotlightDeviceConnected()] is true.
    The removal that runs next erases the sub-device, emits nothing either
    and leaves [m_device] set: [anySpotlightDeviceConnectedChanged(false)]
    is emitted zero times. *)
Theorem read_error_emits_no_presence_change :
  deliver_activated 0 [read_fail ENODEV] connected = Some (after_read_error, [])
  ∧ notifier_enabled connected (Some handler_conn) = true
  ∧ notifier_enabled after_read_error (Some handler_conn) = false
  ∧ pending after_read_error = ["/dev/input/event5"]
  ∧ trace after_read_error = trace connected
  ∧ ∃ st', run_pending 1 after_read_error = Some st'
           ∧ pending st' = []
           ∧ (DeviceFile <$> default [] (subDevices <$> m_device st'))
             = ["/dev/hidraw1"]
           ∧ trace st' = trace connected
           ∧ anySpotlightDeviceConnected st' = true.
Proof.
  split; [vm_compute; reflexivity|]. split; [vm_compute; reflexivity|].
  split; [vm_compute; reflexivity|]. split; [vm_compute; reflexivity|].
  split; [vm_compute; reflexivity|].
  exists (default after_read_error (run_pending 1 after_read_error)).
  split; [vm_compute; reflexivity|]. split; [vm_compute; reflexivity|].
  split; [vm_compute; reflexivity|]. split; vm_compute; reflexivity.
Qed.

(** C9: on the example device with the hidraw interface enumerated first,
    the sub-device list is [/dev/hidraw1; /dev/input/event5]; removing the
    connection of [/dev/input/event5] does not return within any number of
    loop iterations. This is the call the handler queues when a read on
    that node fails, so the reactor iteration that runs the queued call
    never ends either. *)
Theorem removeSubDeviceConnection_spins :
  (DeviceFile <$> default [] (subDevices <$> m_device connected_hidraw_first))
  = ["/dev/hidraw1"; "/dev/input/event5"]
  ∧ (∀ fuel,
       removeSubDeviceConnection fuel "/dev/input/event5" connected_hidraw_first
       = None)
  ∧ deliver_activated 0 [read_fail ENODEV] connected_hidraw_first
    = Some (after_read_error_hidraw_first, [])
  ∧ pending after_read_error_hidraw_first = ["/dev/input/event5"]
  ∧ ∀ fuel, run_pending fuel after_read_error_hidraw_first = None.
Proof.
  split; [vm_compute; reflexivity|].
  assert (Hfirst : ∀ st : Spotlight,
             (DeviceFile <$> default [] (subDevices <$> m_device st))
             = ["/dev/hidraw1"; "/dev/input/event5"] →
             ∀ fuel, removeSubDeviceConnection fuel "/dev/input/event5" st = None).
  { intros st Hfiles fuel.
    destruct (m_device st) as [d|] eqn:Hd; [|discriminate].
    simpl in Hfiles.
    destruct (subDevices d) as [|entry subs] eqn:Hsubs; [discriminate|].
    injection Hfiles as Hentry _.
    eapply removeSubDeviceConnection_never_returns; [exact Hd|exact Hsubs|].
    rewrite Hentry. reflexivity. }
  split; [apply Hfirst; vm_compute; reflexivity|].
  split; [vm_compute; reflexivity|].
  assert (Hpending : pending after_read_error_hidraw_first = ["/dev/input/event5"])
    by (vm_compute; reflexivity).
  split; [exact Hpending|].
  intros fuel. unfold run_pending. rewrite Hpending.
  apply Hfirst. vm_compute. reflexivity.
Qed.

(** The loop does end when the entry to remove is the first one. *)
Example removeSubDeviceConnection_first :
  (fun st' => DeviceFile <$> default [] (subDevices <$> m_device st'))
  <$> removeSubDeviceConnection 1 "/dev/input/event5" connected
  = Some ["/dev/hidraw1"].
Proof. vm_compute. reflexivity. Qed.

(** C6 on the example: strength 10 is raised to 64, strength 200 is kept,
    and the seven bytes are written to the hidraw descriptor 8. *)
Lemma vibrateDevice_witness :
  vibration_data 10 = [0x10; 0x01; 0x09; 0x11; 0x03; 0xE8; 64]
  ∧ vibration_data 200 = [0x10; 0x01; 0x09; 0x11; 0x03; 0xE8; 200]
  ∧ (vibrateDevice os_ok 10 connected).1 = 7
  ∧ trace (vibrateDevice os_ok 10 connected).2
    = trace connected
      ++ [call_write 8 [0x10; 0x01; 0x09; 0x11; 0x03; 0xE8; 64] 7].
Proof.
  destruct (vibrateDevice_payload os_ok 10 connected)
    as ((s & Hs & Hlt & _) & _ & Hw).
  destruct (vibrateDevice_payload os_ok 200 connected)
    as ((s' & Hs' & _ & Hge) & _ & _).
  rewrite (Hlt ltac:(lia)) in Hs. rewrite (Hge ltac:(lia)) in Hs'.
  split; [exact Hs|]. split; [exact Hs'|].
  destruct (Hw connected_device ltac:(vm_compute; reflexivity)
              ltac:(vm_compute; discriminate)) as [Hres Htr].
  split; [rewrite Hres; vm_compute; reflexivity|].
  rewrite Htr. vm_compute. reflexivity.
Defined.

(** C7 on the example: the two interfaces of the Spotlight receiver give
    one device, and the iteration on the hidraw interface appends its node
    to the entry the event interface created. *)
Lemma scanForDevices_one_device_witness :
  NoDup (id <$> devices (scanForDevices tree_full []))
  ∧ spotlight_id ∈ id <$> devices (scanForDevices tree_full [])
  ∧ ∃ k rootDevice,
      devices (scanForDevices tree_event_only []) !! k = Some rootDevice
      ∧ id rootDevice = id (deviceFromUEventFile (hd_uevent dir_hidraw))
      ∧ scan_dir [] tree_full (devices (scanForDevices tree_event_only []))
                 dir_hidraw
        = <[k := set_subDevices rootDevice
                   (subDevices rootDevice
                    ++ dir_subDevices tree_full dir_hidraw rootDevice)]>
            (devices (scanForDevices tree_event_only []))
      ∧ length (scan_dir [] tree_full
                  (devices (scanForDevices tree_event_only [])) dir_hidraw)
        = length (devices (scanForDevices tree_event_only [])).
Proof.
  destruct (scanForDevices_one_device_per_id tree_full []
              (devices (scanForDevices tree_event_only [])) dir_hidraw)
    as (Hnodup & Hcover & Hmerge).
  split; [exact Hnodup|]. split.
  - apply (Hcover eq_refl eq_refl). exists dir_input.
    split; [|split; vm_compute; reflexivity].
    apply list_elem_of_further, list_elem_of_here.
  - apply Hmerge; [vm_compute; reflexivity|].
    vm_compute. apply list_elem_of_here.
Defined.

(** C8 on the example trees. *)
Lemma scanForDevices_errors_witness :
  scanForDevices tree_missing [] = mk_ScanResult [] 0 0 [err_not_exist]
  ∧ scanForDevices tree_unlistable [] = mk_ScanResult [] 0 0 [err_cannot_list]
  ∧ errorMessages (scanForDevices tree_full []) = []
  ∧ id <$> devices (scanForDevices tree_degraded [])
    ⊆ id <$> devices (scanForDevices tree_full []).
Proof.
  split; [apply (scanForDevices_errors_not_fatal tree_missing tree_missing []);
          reflexivity|].
  split; [apply (scanForDevices_errors_not_fatal tree_unlistable tree_unlistable []);
          reflexivity|].
  destruct (scanForDevices_errors_not_fatal tree_full tree_degraded [])
    as (_ & _ & Hok).
  destruct (Hok eq_refl eq_refl) as [Hmsg Hsub].
  split; [exact Hmsg|]. apply Hsub.
  constructor; [apply degraded_none|].
  constructor; [apply degraded_unreadable; reflexivity|].
  constructor; [apply degraded_none|constructor].
Defined.

(** The scenario of a receiver on USB with one input node that reports
    relative motion on both axes. *)
Example scan_scenario :
  (fun d => (vendorId (id d), productId (id d), busType d,
             hasRelativeEvents <$> subDevices d))
  <$> devices (scanForDevices tree_event_only [])
  = [(0x046D, 0xC53E, Usb, [true])].
Proof. vm_compute. reflexivity. Qed.

Lemma qt_u16_round_trips : round_trips qt_u16 fits_quint16.
Proof.
  intros x rest [H0 H1]. unfold qt_u16. cbn [put get app].
  f_equal. Z.div_mod_to_equations. lia.
Qed.

Lemma qt_u32_round_trips : round_trips qt_u32 fits_quint32.
Proof.
  intros x rest [H0 H1]. unfold qt_u32. cbn [put get app].
  f_equal. change (2 ^ 32) with 4294967296 in H1.
  Z.div_mod_to_equations. lia.
Qed.

Lemma qt_i32_round_trips :
  round_trips qt_i32 (fun v => - 2 ^ 31 ≤ v < 2 ^ 31).
Proof.
  intros x rest Hx. unfold qt_i32. cbn [put get].
  change (put qt_u32) with (put qt_u32).
  rewrite (qt_u32_round_trips (x `mod` 2 ^ 32) rest)
    by (apply Z.mod_pos_bound; lia).
  f_equal. change (2 ^ 31) with 2147483648 in *.
  change (2 ^ 32) with 4294967296 in *.
  destruct (x `mod` 4294967296 <? 2147483648) eqn:Hlt;
    [apply Z.ltb_lt in Hlt|apply Z.ltb_ge in Hlt];
    Z.div_mod_to_equations; lia.
Qed.

Lemma event_ops_round_trips : round_trips event_ops valid_event.
Proof.
  intros [t c v] rest (Ht & Hc & Hv). unfold event_ops. cbn [put get].
  cbn [die_type die_code die_value] in *.
  rewrite <- !app_assoc.
  rewrite (qt_u16_round_trips t _ Ht), (qt_u16_round_trips c _ Hc).
  rewrite (qt_i32_round_trips v _ Hv). reflexivity.
Qed.


Lemma moved_reachable : reachable moved.
Proof.
  destruct connected_reachable as (additional & vd & Hrtc).
  exists additional, vd. eapply rtc_r; [exact Hrtc|].
  apply (step_activated 0 sample_reads connected moved []).
  vm_compute. reflexivity.
Qed.

Lemma vibrated_reachable : reachable vibrated.
Proof.
  destruct connected_reachable as (additional & vd & Hrtc).
  exists additional, vd. eapply rtc_r; [exact Hrtc|].
  apply (step_vibrateDevice os_ok 10 connected).
Qed.

(** X2 on the example: a [uevent] file with a driver and a name line only. *)
Lemma uevent_without_HID_ID_witness :
  id (deviceFromUEventFile (hd_uevent dir_no_id))
  = mk_DeviceId 0 0 (phys (id (deviceFromUEventFile (hd_uevent dir_no_id))))
  ∧ busType (deviceFromUEventFile (hd_uevent dir_no_id)) = Unknown
  ∧ dir_accepted [] dir_no_id = false
  ∧ scan_dir [] tree_full [] dir_no_id = [].
Proof.
  apply (uevent_without_HID_ID_is_skipped [] tree_full [] dir_no_id).
  right. eexists. split; [reflexivity|].
  repeat constructor; intros w Hw; discriminate Hw.
Defined.

(** X3 on the example: a Bluetooth id line followed by a USB id line. *)
Lemma deviceFromUEventFile_last_HID_ID_witness :
  let d := deviceFromUEventFile
             (Some (["HID_ID=0005:0000046D:0000B503"]
                    ++ ("HID_ID=" +:+ "0003:0000046D:0000C53E")
                       :: ["HID_NAME=Logitech USB Receiver"])) in
  vendorId (id d) = 0x46d ∧ productId (id d) = 0xc53e ∧ busType d = Usb.
Proof.
  destruct (deviceFromUEventFile_last_HID_ID_wins
              ["HID_ID=0005:0000046D:0000B503"]
              ["HID_NAME=Logitech USB Receiver"]
              "0003:0000046D:0000C53E") as (Hv & Hp & Hb).
  { repeat constructor; intros w Hw; discriminate Hw. }
  cbn zeta. rewrite Hv, Hp, Hb.
  split; [vm_compute; reflexivity|]. split; vm_compute; reflexivity.
Defined.

(** X7 on the example: the input directory of a keyboard between two
    directories of the receiver. *)
Lemma input_subDevices_stops_witness :
  id_mismatch spotlight_id input_other = true
  ∧ input_subDevices tree_full spotlight_id
      (hd_input dir_input ++ input_other :: hd_input dir_input)
    = input_subDevices tree_full spotlight_id (hd_input dir_input).
Proof.
  split; [vm_compute; reflexivity|].
  apply (input_subDevices_stops_at_mismatch tree_full spotlight_id
           (hd_input dir_input) (hd_input dir_input) input_other).
  vm_compute. reflexivity.
Defined.

(** X8 on the example. *)
Lemma reachable_never_reports_disconnection_witness :
  Forall (fun e => is_disconnection e = false) (trace moved).
Proof. apply (reachable_never_reports_disconnection moved moved_reachable). Defined.

(** X9 on the example: one callback, one announcement. *)
Lemma reachable_callbacks_witness :
  sub_paths (trace connected) = callback_paths (activated connected)
  ∧ callback_paths (activated connected) = ["/dev/input/event5"].
Proof.
  split; [|vm_compute; reflexivity].
  apply (reachable_callbacks_match_announcements connected connected_reachable).
Defined.

(** X10 on the example: after a pointer movement the spot is active. *)
Lemma reachable_spot_activity_witness :
  (m_spotActive moved = m_activeTimer moved
   ∧ alternates false (spot_signals (trace moved)) = Some (m_spotActive moved))
  ∧ m_spotActive moved = true.
Proof.
  split; [|vm_compute; reflexivity].
  apply (reachable_spot_activity moved moved_reachable).
Defined.

(** X13 on the connected example device: the hidraw node is opened again,
    on descriptor 9, and the connection held before gives up descriptor
    8. *)
Lemma ConnectHidrawSubDevices_witness :
  let '(n, st') := ConnectHidrawSubDevices (os_next 8 9) connected in
  ∃ d', m_device st' = Some d' ∧ id d' = id connected_device
        ∧ length (subDevices d') = length (subDevices connected_device)
        ∧ (n = 0 ∧ hidrwNode d' = hidrwNode connected_device
           ∨ n = 1
             ∧ ∃ pre sd post pre' sd' t closes,
                 subDevices connected_device = pre ++ sd :: post
                 ∧ subDevices d' = pre' ++ sd' :: post
                 ∧ length pre' = length pre
                 ∧ is_Hidraw (type sd) = true
                 ∧ 0 < hidrwNode d'
                 ∧ hidrwNode d' = sys_open (os_next 8 9) (DeviceFile sd) ReadWrite
                 ∧ trace st'
                   = t ++ call_open (DeviceFile sd) ReadWrite (hidrwNode d')
                          :: closes
                 ∧ (connection sd = None → closes = [])
                 ∧ (∀ h c, connection sd = Some h →
                           conns connected !! h = Some c →
                      closes = if captured connected h then []
                               else match notifier c with
                                    | Some n => [call_close (socket n)]
                                    | None => []
                                    end)).
Proof.
  apply (ConnectHidrawSubDevices_connects_at_most_one (os_next 8 9) connected
           connected_device).
  vm_compute. reflexivity.
Defined.

(** The trace of that call. *)
Example ConnectHidrawSubDevices_again_trace :
  (ConnectHidrawSubDevices (os_next 8 9) connected).1 = 1
  ∧ trace (ConnectHidrawSubDevices (os_next 8 9) connected).2
    = trace connected ++ [call_open "/dev/hidraw1" ReadWrite 9; call_close 8].
Proof. split; vm_compute; reflexivity. Qed.

(** X14 on the example: the write of [vibrateDevice(10)] goes to the
    descriptor of the hidraw node. *)
Lemma reachable_writes_witness :
  (∀ d, m_device vibrated = Some d → hidrwNode_known (trace vibrated) (hidrwNode d))
  ∧ (∀ descriptor bytes res,
       call_write descriptor bytes res ∈ trace vibrated →
       descriptor ≠ 0 ∧ hidrwNode_known (trace vibrated) descriptor).
Proof. apply (reachable_writes_go_to_hidrwNode vibrated vibrated_reachable). Defined.

(** X15 on the example: the reconnect of the connection timer. *)
Lemma connectDevice_fresh_mapper_witness :
  let st' := (connectDevice tree_full os_ok default_DeviceId connected).2 in
  (∃ d', m_device st' = Some d'
         ∧ eventIM d' = Some (length (mappers connected))
         ∧ length (mappers st') = S (length (mappers connected)))
  ∧ ∀ k h dev,
      activated connected !! k = Some (h, dev) →
      activated st' !! k = Some (h, dev)
      ∧ ∃ c m, conns connected !! h = Some c ∧ conns st' !! h = Some c
               ∧ im c = Some m ∧ (m < length (mappers connected))%nat.
Proof.
  apply (connectDevice_gives_a_fresh_mapper tree_full os_ok default_DeviceId
           connected connected_reachable).
  intros Hnil. vm_compute in Hnil. discriminate Hnil.
Defined.

(** [removeDeviceConnection] on the connected example device: the
    removal closes the hidraw descriptor and leaves a device without
    sub-devices. *)
Example removeDeviceConnection_closes_hidraw :
  trace (removeDeviceConnection connected) = trace connected ++ [call_close 8]
  ∧ m_device (removeDeviceConnection connected) = Some value_initialised_Device.
Proof. split; vm_compute; reflexivity. Qed.

(** X18 on the example: the read on the event node fails with [ENODEV]. *)
Lemma fatal_read_error_witness :
  ∃ st1,
    deliver_activated 0 [read_fail ENODEV] connected = Some (st1, [])
    ∧ pending st1 = pending connected ++ [DeviceFile handler_dev]
    ∧ trace st1 = trace connected
    ∧ m_device st1 = m_device connected
    ∧ ∀ st2, rtc reactor_step st1 st2 →
        notifier_enabled st2 (Some handler_conn) = false
        ∧ ∀ reads', deliver_activated 0 reads' st2 = Some (st2, reads').
Proof.
  apply (fatal_read_error_retires_callback connected 0 handler_conn handler_dev
           ENODEV [] connected_reachable).
  - vm_compute. reflexivity.
  - vm_compute. reflexivity.
  - vm_compute. discriminate.
Defined.


(** X21 on the example: three modifier words in Qt's encoding. *)
Lemma vector_stream_witness :
  vector_put qt_u32 qt_u16 [4; 0; 16] = [0; 0; 0; 3; 0; 4; 0; 0; 0; 16]
  ∧ vector_get qt_u32 qt_u16 (vector_put qt_u32 qt_u16 [4; 0; 16] ++ [255])
    = ([4; 0; 16], [255])
  ∧ length (vector_get qt_u32 qt_u16 [0; 0; 0; 5; 1; 2]).1
    = Z.to_nat (get qt_u32 [0; 0; 0; 5; 1; 2]).1.
Proof.
  split; [vm_compute; reflexivity|].
  destruct (vector_stream_round_trip qt_u32 qt_u16 fits_quint16
              qt_u32_round_trips qt_u16_round_trips
              [4; 0; 16] [255] [0; 0; 0; 5; 1; 2]) as (_ & Hrt & Hlen).
  { repeat constructor; unfold fits_quint16; lia. }
  split; [apply Hrt; vm_compute; reflexivity|exact Hlen].
Defined.

(** X22 on the example: Alt+Tab. *)
Lemma NativeKeySequence_stream_witness :
  get (NativeKeySequence_ops qt_u32 qt_u16 key_ops event_ops)
      (put (NativeKeySequence_ops qt_u32 qt_u16 key_ops event_ops) alt_tab ++ [7])
  = (alt_tab, [7]).
Proof.
  apply (NativeKeySequence_stream_round_trip qt_u32 qt_u16 key_ops event_ops
           (fun ks => Forall fits_quint32 ks ∧ Z.of_nat (length ks) < 2 ^ 32)
           valid_event fits_quint16
           qt_u32_round_trips qt_u16_round_trips).
  - apply (vector_ops_round_trips qt_u32 qt_u32_round_trips qt_u32 fits_quint32
             qt_u32_round_trips).
  - exact event_ops_round_trips.
  - unfold alt_tab, valid_event, fits_quint16, fits_quint32. cbn.
    repeat split; repeat constructor; cbn; lia.
Defined.

End OnExample.
